(** * nebula-storage: metadata processors and the index lookup planner

    A shallow embedding of
    - [BaseProcessor] (index consistency checks, the id allocator, the
      single-step and the composite KV operations, the existence checks),
    - [DropSpaceProcessor::process],
    - [Snapshot] and [CreateBackupProcessor::process],
    - [LookupBaseProcessor::requestCheck], [isOutsideIndex] and [buildPlan],
    - [ListHostsProcessor::allHostsWithStatus],
    followed by the properties established about them. *)

From Stdlib Require Import ZArith Lia Bool Ascii String Sorting.Sorted
  Sorting.Permutation.
From stdpp Require Import gmap strings list.

Local Open Scope Z_scope.
Local Open Scope string_scope.

Set Warnings "-register-all".

(** ** Error codes *)

(** [kvstore::ResultCode], the codes reported by the replicated engine. *)
Module kvstore.
Inductive ResultCode :=
| SUCCEEDED
| ERR_SPACE_NOT_FOUND
| ERR_PART_NOT_FOUND
| ERR_KEY_NOT_FOUND
| ERR_CONSENSUS_ERROR
| ERR_LEADER_CHANGED
| ERR_IO_ERROR
| ERR_PARTIAL_RESULT
| ERR_UNKNOWN.

Definition ResultCode_eqb (a b : ResultCode) : bool :=
  match a, b with
  | SUCCEEDED, SUCCEEDED
  | ERR_SPACE_NOT_FOUND, ERR_SPACE_NOT_FOUND
  | ERR_PART_NOT_FOUND, ERR_PART_NOT_FOUND
  | ERR_KEY_NOT_FOUND, ERR_KEY_NOT_FOUND
  | ERR_CONSENSUS_ERROR, ERR_CONSENSUS_ERROR
  | ERR_LEADER_CHANGED, ERR_LEADER_CHANGED
  | ERR_IO_ERROR, ERR_IO_ERROR
  | ERR_PARTIAL_RESULT, ERR_PARTIAL_RESULT
  | ERR_UNKNOWN, ERR_UNKNOWN => true
  | _, _ => false
  end.
End kvstore.

(** [meta::cpp2::ErrorCode], the codes a metadata request completes with. *)
Module cpp2.
Inductive ErrorCode :=
| SUCCEEDED
| E_NOT_FOUND
| E_LEADER_CHANGED
| E_STORE_FAILURE
| E_CONFLICT
| E_NO_HOSTS
| E_RPC_FAILURE
| E_BLOCK_WRITE_FAILURE
| E_BACKUP_FAILURE
| E_BACKUP_BUILDING_INDEX
| E_BACKUP_SPACE_NOT_FOUND
| E_UNKNOWN.

Definition ErrorCode_eqb (a b : ErrorCode) : bool :=
  match a, b with
  | SUCCEEDED, SUCCEEDED
  | E_NOT_FOUND, E_NOT_FOUND
  | E_LEADER_CHANGED, E_LEADER_CHANGED
  | E_STORE_FAILURE, E_STORE_FAILURE
  | E_CONFLICT, E_CONFLICT
  | E_NO_HOSTS, E_NO_HOSTS
  | E_RPC_FAILURE, E_RPC_FAILURE
  | E_BLOCK_WRITE_FAILURE, E_BLOCK_WRITE_FAILURE
  | E_BACKUP_FAILURE, E_BACKUP_FAILURE
  | E_BACKUP_BUILDING_INDEX, E_BACKUP_BUILDING_INDEX
  | E_BACKUP_SPACE_NOT_FOUND, E_BACKUP_SPACE_NOT_FOUND
  | E_UNKNOWN, E_UNKNOWN => true
  | _, _ => false
  end.

(** [AlterSchemaOp] of the thrift interface. *)
Inductive AlterSchemaOp := ADD | CHANGE | DROP | UNKNOWN.
End cpp2.

(** [ErrorOr<E, T>]: the left alternative is the error. *)
Definition ErrorOr (E T : Type) : Type := E + T.
Definition ok {E T} (r : ErrorOr E T) : bool :=
  match r with inl _ => false | inr _ => true end.

(** ** Thrift structures read by the index checks *)

Record ColumnDef := mkColumnDef {
  col_name : string;
  col_nullable : bool
}.

Record IndexFieldDef := mkIndexFieldDef {
  field_name : string;
  field_type_length : option Z
}.

Inductive SchemaID :=
| tag_id (id : Z)
| edge_type (ty : Z).

Record IndexItem := mkIndexItem {
  get_index_id : Z;
  get_index_name : string;
  get_schema_id : SchemaID;
  get_fields : list ColumnDef
}.

Record Schema := mkSchema {
  get_columns : list ColumnDef
}.

Record AlterSchemaItem := mkAlterSchemaItem {
  get_op : cpp2.AlterSchemaOp;
  get_schema : Schema
}.

(** ** BaseProcessor::indexCheck *)

(** [std::find_if(indexCols.begin(), indexCols.end(),
    [&](iCol){ return tCol.name == iCol.name; }) != indexCols.end()]. *)
Definition find_col (tCol : ColumnDef) (indexCols : list ColumnDef) : bool :=
  existsb (fun iCol => String.eqb (col_name tCol) (col_name iCol)) indexCols.

(** The innermost loop, over the altered columns of one alter item; [true]
    stands for the early [return E_CONFLICT]. *)
Fixpoint indexCheck_cols (tagCols indexCols : list ColumnDef) : bool :=
  match tagCols with
  | [] => false
  | tCol :: rest =>
      if find_col tCol indexCols then true else indexCheck_cols rest indexCols
  end.

Definition is_change_or_drop (op : cpp2.AlterSchemaOp) : bool :=
  match op with
  | cpp2.CHANGE | cpp2.DROP => true
  | _ => false
  end.

(** The loop over the alter items, for one existing index. *)
Fixpoint indexCheck_alters (index : IndexItem) (alterItems : list AlterSchemaItem)
  : bool :=
  match alterItems with
  | [] => false
  | tagItem :: rest =>
      if is_change_or_drop (get_op tagItem)
      then
        if indexCheck_cols (get_columns (get_schema tagItem)) (get_fields index)
        then true
        else indexCheck_alters index rest
      else indexCheck_alters index rest
  end.

Fixpoint indexCheck (items : list IndexItem) (alterItems : list AlterSchemaItem)
  : cpp2.ErrorCode :=
  match items with
  | [] => cpp2.SUCCEEDED
  | index :: rest =>
      if indexCheck_alters index alterItems
      then cpp2.E_CONFLICT
      else indexCheck rest alterItems
  end.

(** ** BaseProcessor::checkIndexExist *)

(** The [for] loop of [checkIndexExist], started at position [i] with
    [fuel] iterations left.  [None] is an access past the end of a vector
    ([operator[]] does not check bounds). *)
Fixpoint checkIndexExist_loop (fields : list IndexFieldDef)
    (itemFields : list ColumnDef) (fuel : nat) (i : nat) : option bool :=
  match fuel with
  | O => Some false
  | S fuel' =>
      match fields !! i with
      | None => None
      | Some f =>
          match itemFields !! i with
          | None => None
          | Some c =>
              if negb (String.eqb (field_name f) (col_name c)) then Some false
              else if Nat.eqb i (length fields - 1) then Some true
              else checkIndexExist_loop fields itemFields fuel' (S i)
          end
      end
  end.

Definition checkIndexExist (fields : list IndexFieldDef) (item : IndexItem)
  : option bool :=
  if Nat.eqb (length fields) 0 then Some true
  else checkIndexExist_loop fields (get_fields item) (length fields) 0.

(** ** Fixed-width little-endian integers

    Identifiers are stored as raw [int32_t] bytes; a [std::string] is a
    sequence of bytes, here a [string] of 8-bit characters. *)

Definition INT32_MIN : Z := - 2 ^ 31.
Definition INT32_MAX : Z := 2 ^ 31 - 1.

(** Two's-complement wrap-around of a 32-bit signed integer. *)
Definition wrap32 (z : Z) : Z := (z + 2 ^ 31) mod 2 ^ 32 - 2 ^ 31.

Definition byte_of_Z (z : Z) : ascii := ascii_of_N (Z.to_N (z mod 256)).
Definition Z_of_byte (a : ascii) : Z := Z.of_N (N_of_ascii a).

(** [std::string(reinterpret_cast<const char*>(&id), sizeof(id))]. *)
Definition encodeInt32 (v : Z) : string :=
  let u := v mod 2 ^ 32 in
  String (byte_of_Z u)
    (String (byte_of_Z (u / 2 ^ 8))
       (String (byte_of_Z (u / 2 ^ 16))
          (String (byte_of_Z (u / 2 ^ 24)) EmptyString))).

(** [*reinterpret_cast<const int32_t*>(val.c_str())]: the first four bytes of
    the buffer; a shorter buffer is read past its end, which is [None]. *)
Definition decodeInt32 (val : string) : option Z :=
  match val with
  | String b0 (String b1 (String b2 (String b3 _))) =>
      Some (wrap32 (Z_of_byte b0 + Z_of_byte b1 * 2 ^ 8
                    + Z_of_byte b2 * 2 ^ 16 + Z_of_byte b3 * 2 ^ 24))
  | _ => None
  end.

(** ** The replicated KV engine, seen from the meta partition

    All metadata lives in the partition [(kDefaultSpaceId, kDefaultPartId)].
    The engine can fail a call for reasons that do not depend on the data
    (leader moved, consensus or I/O error); [outcomes] lists what the engine
    will answer to the coming calls, [None] and an exhausted list meaning
    that the call is served. *)

Inductive EngineFault :=
| LeaderChanged
| ConsensusError
| IOError
| UnknownFault.

Definition fault_code (f : EngineFault) : kvstore.ResultCode :=
  match f with
  | LeaderChanged => kvstore.ERR_LEADER_CHANGED
  | ConsensusError => kvstore.ERR_CONSENSUS_ERROR
  | IOError => kvstore.ERR_IO_ERROR
  | UnknownFault => kvstore.ERR_UNKNOWN
  end.

Record NebulaStore := mkStore {
  kv : gmap string string;
  outcomes : list (option EngineFault);
  leader : bool
}.

Definition set_kv (s : NebulaStore) (m : gmap string string) : NebulaStore :=
  mkStore m (outcomes s) (leader s).

Definition next_outcome (s : NebulaStore) : option EngineFault * NebulaStore :=
  match outcomes s with
  | [] => (None, s)
  | o :: rest => (o, mkStore (kv s) rest (leader s))
  end.

(** [KVStore::get]. *)
Definition engine_get (key : string) (s : NebulaStore)
  : kvstore.ResultCode * string * NebulaStore :=
  match next_outcome s with
  | (Some f, s') => (fault_code f, "", s')
  | (None, s') =>
      match kv s' !! key with
      | Some v => (kvstore.SUCCEEDED, v, s')
      | None => (kvstore.ERR_KEY_NOT_FOUND, "", s')
      end
  end.

(** [KVStore::prefix]: the iterator is the list of the entries whose key
    starts with the prefix, in the order the map enumerates them; no caller
    here depends on that order. *)
Definition engine_prefix (prefix : string) (s : NebulaStore)
  : kvstore.ResultCode * list (string * string) * NebulaStore :=
  match next_outcome s with
  | (Some f, s') => (fault_code f, [], s')
  | (None, s') =>
      (kvstore.SUCCEEDED,
       List.filter (fun e => String.prefix prefix (fst e)) (map_to_list (kv s')),
       s')
  end.

(** [KVStore::multiGet]: the values of the keys that exist, in the order of
    the keys; the code tells whether all of them did. *)
Definition engine_multiGet (keys : list string) (s : NebulaStore)
  : kvstore.ResultCode * list string * NebulaStore :=
  match next_outcome s with
  | (Some f, s') => (fault_code f, [], s')
  | (None, s') =>
      let found := omap (fun k => kv s' !! k) keys in
      (if Nat.eqb (length found) (length keys)
       then kvstore.SUCCEEDED else kvstore.ERR_PARTIAL_RESULT,
       found, s')
  end.

(** [KVStore::asyncMultiPut], with the wait for its callback: the code the
    callback receives and the store afterwards.  Later pairs overwrite
    earlier ones. *)
Definition engine_multiPut (data : list (string * string)) (s : NebulaStore)
  : kvstore.ResultCode * NebulaStore :=
  match next_outcome s with
  | (Some f, s') => (fault_code f, s')
  | (None, s') =>
      (kvstore.SUCCEEDED,
       set_kv s' (fold_left (fun m e => <[fst e := snd e]> m) data (kv s')))
  end.

(** [KVStore::asyncMultiRemove], with the wait for its callback. *)
Definition engine_multiRemove (keys : list string) (s : NebulaStore)
  : kvstore.ResultCode * NebulaStore :=
  match next_outcome s with
  | (Some f, s') => (fault_code f, s')
  | (None, s') =>
      (kvstore.SUCCEEDED,
       set_kv s' (fold_left (fun m k => delete k m) keys (kv s')))
  end.

(** Modelled from the spec: [MetaCommon::to] is not among the sources; the
    engine codes SUCCEEDED, ERR_KEY_NOT_FOUND and ERR_LEADER_CHANGED map to
    their counterparts and everything else to a generic store failure. *)
Definition MetaCommon_to (code : kvstore.ResultCode) : cpp2.ErrorCode :=
  match code with
  | kvstore.SUCCEEDED => cpp2.SUCCEEDED
  | kvstore.ERR_KEY_NOT_FOUND => cpp2.E_NOT_FOUND
  | kvstore.ERR_LEADER_CHANGED => cpp2.E_LEADER_CHANGED
  | _ => cpp2.E_STORE_FAILURE
  end.

(** ** BaseProcessor: reads *)

Definition doPrefix (key : string) (s : NebulaStore)
  : ErrorOr cpp2.ErrorCode (list (string * string)) * NebulaStore :=
  let '(code, iter, s') := engine_prefix key s in
  if negb (kvstore.ResultCode_eqb code kvstore.SUCCEEDED)
  then (inl (MetaCommon_to code), s')
  else (inr iter, s').

Definition doGet (key : string) (s : NebulaStore)
  : ErrorOr cpp2.ErrorCode string * NebulaStore :=
  let '(code, value, s') := engine_get key s in
  if negb (kvstore.ResultCode_eqb code kvstore.SUCCEEDED)
  then (inl (MetaCommon_to code), s')
  else (inr value, s').

Definition doMultiGet (keys : list string) (s : NebulaStore)
  : ErrorOr cpp2.ErrorCode (list string) * NebulaStore :=
  let '(code, values, s') := engine_multiGet keys s in
  if negb (kvstore.ResultCode_eqb code kvstore.SUCCEEDED)
  then (inl (MetaCommon_to code), s')
  else (inr values, s').

(** ** BaseProcessor::autoIncrementId

    Runs with the id lock held as writer, so calls are serialised; [None]
    is the read past the end of an undersized stored value. *)

Definition kIdKey : string := "__id__".

Definition autoIncrementId (s : NebulaStore)
  : option (ErrorOr cpp2.ErrorCode Z * NebulaStore) :=
  let '(ret, val, s1) := engine_get kIdKey s in
  let next : option (ErrorOr cpp2.ErrorCode Z) :=
    if negb (kvstore.ResultCode_eqb ret kvstore.SUCCEEDED) then
      if negb (kvstore.ResultCode_eqb ret kvstore.ERR_KEY_NOT_FOUND)
      then Some (inl (MetaCommon_to ret))
      else Some (inr 1)
    else
      match decodeInt32 val with
      | None => None
      | Some v => Some (inr (wrap32 (v + 1)))
      end in
  match next with
  | None => None
  | Some (inl e) => Some (inl e, s1)
  | Some (inr id) =>
      let data := [(kIdKey, encodeInt32 id)] in
      let '(ret', s2) := engine_multiPut data s1 in
      if negb (kvstore.ResultCode_eqb ret' kvstore.SUCCEEDED)
      then Some (inl (MetaCommon_to ret'), s2)
      else Some (inr id, s2)
  end.


(** ** The metadata codec

    [MetaServiceUtils] and [NetworkUtils] are not among the sources; the
    processors only need the keys and parsers below, which are taken as an
    interface. *)

Record HostAddr := mkHostAddr {
  host : string;
  port : Z
}.

Inductive SnapshotStatus := VALID | INVALID.

Class MetaServiceUtils := {
  partPrefix0 : string;                    (* partPrefix() *)
  partPrefix : Z -> string;                (* partPrefix(spaceId) *)
  parsePartVal : string -> list HostAddr;
  parsePartKeySpaceId : string -> Z;
  spacePrefix : string;
  spaceKey : Z -> string;
  spaceId : string -> Z;
  indexSpaceKey : string -> string;
  roleSpacePrefix : Z -> string;
  listenerPrefix : Z -> string;
  statisKey : Z -> string;
  snapshotKey : string -> string;
  snapshotVal : SnapshotStatus -> string -> string;
  rebuildIndexStatusPrefix : string;
  lastUpdateTimeKey : string;
  lastUpdateTimeVal : Z -> string;
  SpaceDesc : Type;
  parseSpace : string -> SpaceDesc;
  (* backup(kvstore, spaces, backupName, backupSpaces): the exported files,
     if the export succeeded *)
  backup : NebulaStore -> gset Z -> string -> option (list string)
           -> option (list string);
  toHostsStr : list HostAddr -> string     (* NetworkUtils::toHostsStr *)
}.

(** ** BaseProcessor: the response envelope and the composite writes *)

Record Processor := mkProcessor {
  kvstore_ : NebulaStore;
  resp_code : cpp2.ErrorCode;   (* the code slot of resp_ *)
  finished : nat                (* how many times onFinished() has fired *)
}.

Definition set_store (p : Processor) (s : NebulaStore) : Processor :=
  mkProcessor s (resp_code p) (finished p).

(** Modelled from the spec: [handleErrorCode] and [onFinished] are declared
    in a header that is not among the sources; the first records the code in
    the envelope, the second fires the completion hook. *)
Definition handleErrorCode (code : cpp2.ErrorCode) (p : Processor) : Processor :=
  mkProcessor (kvstore_ p) code (finished p).

Definition onFinished (p : Processor) : Processor :=
  mkProcessor (kvstore_ p) (resp_code p) (S (finished p)).

(** Modelled from the spec: [LastUpdateTimeMan::update] is not among the
    sources; it writes [lastUpdateTime = now_ms] and reports the engine's
    code. *)
Definition LastUpdateTimeMan_update `{MetaServiceUtils} (s : NebulaStore) (now : Z)
  : cpp2.ErrorCode * NebulaStore :=
  let '(ret, s') := engine_multiPut [(lastUpdateTimeKey, lastUpdateTimeVal now)] s in
  (MetaCommon_to ret, s').

Definition doSyncPut (data : list (string * string)) (s : NebulaStore)
  : cpp2.ErrorCode * NebulaStore :=
  let '(code, s') := engine_multiPut data s in
  (* the callback overwrites [ret] only when the code is not SUCCEEDED *)
  let ret := if negb (kvstore.ResultCode_eqb kvstore.SUCCEEDED code)
             then code else kvstore.SUCCEEDED in
  (MetaCommon_to ret, s').

Definition doSyncPutAndUpdate `{MetaServiceUtils}
    (data : list (string * string)) (now : Z) (p : Processor) : Processor :=
  let '(code, s') := engine_multiPut data (kvstore_ p) in
  let ret := if negb (kvstore.ResultCode_eqb kvstore.SUCCEEDED code)
             then code else kvstore.SUCCEEDED in
  if negb (kvstore.ResultCode_eqb ret kvstore.SUCCEEDED)
  then onFinished (handleErrorCode (MetaCommon_to ret) (set_store p s'))
  else
    let '(retCode, s'') := LastUpdateTimeMan_update s' now in
    onFinished (handleErrorCode retCode (set_store p s'')).

Definition doSyncMultiRemoveAndUpdate `{MetaServiceUtils}
    (keys : list string) (now : Z) (p : Processor) : Processor :=
  let '(code, s') := engine_multiRemove keys (kvstore_ p) in
  let ret := if negb (kvstore.ResultCode_eqb kvstore.SUCCEEDED code)
             then code else kvstore.SUCCEEDED in
  if negb (kvstore.ResultCode_eqb ret kvstore.SUCCEEDED)
  then onFinished (handleErrorCode (MetaCommon_to ret) (set_store p s'))
  else
    let '(retCode, s'') := LastUpdateTimeMan_update s' now in
    onFinished (handleErrorCode retCode (set_store p s'')).

(** [getSpaceId]; [None] is the read past the end of an undersized value. *)
Definition getSpaceId `{MetaServiceUtils} (name : string) (s : NebulaStore)
  : option (ErrorOr cpp2.ErrorCode Z) * NebulaStore :=
  let indexKey := indexSpaceKey name in
  let '(ret, s') := doGet indexKey s in
  match ret with
  | inr value =>
      (match decodeInt32 value with
       | Some id => Some (inr id)
       | None => None
       end, s')
  | inl e => (Some (inl e), s')
  end.

(** ** DropSpaceProcessor::process *)

Record DropSpaceReq := mkDropSpaceReq {
  get_space_name : string;
  get_if_exists : bool
}.

(** The keys collected by an iterator loop
    [while (iter->valid()) { deleteKeys.emplace_back(iter->key()); iter->next(); }]. *)
Definition iter_keys (iter : list (string * string)) : list string :=
  List.map fst iter.

(** [now] is the wall clock read by the final composite operation. *)
Definition DropSpaceProcessor_process `{MetaServiceUtils}
    (req : DropSpaceReq) (now : Z) (p : Processor) : option Processor :=
  let spaceName := get_space_name req in
  let '(spaceRet, s1) := getSpaceId spaceName (kvstore_ p) in
  let p1 := set_store p s1 in
  match spaceRet with
  | None => None
  | Some (inl retCode) =>
      let retCode' :=
        if cpp2.ErrorCode_eqb retCode cpp2.E_NOT_FOUND
        then (if get_if_exists req then cpp2.SUCCEEDED else retCode)
        else retCode in
      Some (onFinished (handleErrorCode retCode' p1))
  | Some (inr spaceId) =>
      let deleteKeys : list string := [] in
      (* delete related part meta data. *)
      let prefix := partPrefix spaceId in
      let '(iterRet, s2) := doPrefix prefix s1 in
      let p2 := set_store p1 s2 in
      match iterRet with
      | inl retCode => Some (onFinished (handleErrorCode retCode p2))
      | inr iter =>
          let deleteKeys := (deleteKeys ++ iter_keys iter)%list in
          let deleteKeys := (deleteKeys ++ [indexSpaceKey spaceName])%list in
          let deleteKeys := (deleteKeys ++ [spaceKey spaceId])%list in
          (* delete related role data. *)
          let rolePrefix := roleSpacePrefix spaceId in
          let '(roleRet, s3) := doPrefix rolePrefix s2 in
          let p3 := set_store p2 s3 in
          match roleRet with
          | inl retCode => Some (onFinished (handleErrorCode retCode p3))
          | inr roleIter =>
              let deleteKeys := (deleteKeys ++ iter_keys roleIter)%list in
              (* delete listener meta data *)
              let lstPrefix := listenerPrefix spaceId in
              let '(lstRet, s4) := doPrefix rolePrefix s3 in
              let p4 := set_store p3 s4 in
              match lstRet with
              | inl retCode => Some (onFinished (handleErrorCode retCode p4))
              | inr lstIter =>
                  let deleteKeys := (deleteKeys ++ iter_keys lstIter)%list in
                  (* Delete statis data if it exists *)
                  let statiskey := statisKey spaceId in
                  let deleteKeys := (deleteKeys ++ [statiskey])%list in
                  Some (doSyncMultiRemoveAndUpdate deleteKeys now p4)
              end
          end
      end
  end.

(** ** Snapshot: the storage-side steps of a backup *)

Inductive EngineSignType := BLOCK_ON | BLOCK_OFF.

Definition EngineSignType_eqb (a b : EngineSignType) : bool :=
  match a, b with
  | BLOCK_ON, BLOCK_ON | BLOCK_OFF, BLOCK_OFF => true
  | _, _ => false
  end.

(** A request sent to a storage host through the admin client. *)
Inductive RpcCall :=
| RpcCreateSnapshot (space : Z) (name : string) (h : HostAddr)
| RpcDropSnapshot (space : Z) (name : string) (h : HostAddr)
| RpcBlockingWrites (space : Z) (sign : EngineSignType) (h : HostAddr).

(** The admin client: what a host answers may depend on everything sent so
    far, which is the first argument.  [createSnapshot] answers with the
    checkpoint directory, [None] when the status is not ok; the other two
    answer with [status.ok()]. *)
Record AdminClient := mkAdminClient {
  rpc_createSnapshot : list RpcCall -> Z -> string -> HostAddr -> option string;
  rpc_dropSnapshot : list RpcCall -> Z -> string -> HostAddr -> bool;
  rpc_blockingWrites : list RpcCall -> Z -> EngineSignType -> HostAddr -> bool
}.

(** The [Snapshot] singleton: the store handle it shares with the
    processors, the spaces set by [setSpaces], and the requests sent through
    [client_] so far, oldest first. *)
Record Snapshot := mkSnapshot {
  kv_ : NebulaStore;
  spaces_ : gset Z;
  sent : list RpcCall
}.

Definition set_kv_ (sn : Snapshot) (s : NebulaStore) : Snapshot :=
  mkSnapshot s (spaces_ sn) (sent sn).
Definition set_sent (sn : Snapshot) (l : list RpcCall) : Snapshot :=
  mkSnapshot (kv_ sn) (spaces_ sn) l.
Definition setSpaces (spaces : gset Z) (sn : Snapshot) : Snapshot :=
  mkSnapshot (kv_ sn) spaces (sent sn).

Definition HostAddr_eqb (a b : HostAddr) : bool :=
  String.eqb (host a) (host b) && Z.eqb (port a) (port b).

(** [HostAddr::operator<]: by host name, then by port. *)
Definition HostAddr_ltb (a b : HostAddr) : bool :=
  if String.eqb (host a) (host b) then Z.ltb (port a) (port b)
  else String.ltb (host a) (host b).

(** [std::set<HostAddr>::emplace] on the ascending list of the elements. *)
Fixpoint set_emplace (h : HostAddr) (l : list HostAddr) : list HostAddr :=
  match l with
  | [] => [h]
  | x :: rest =>
      if HostAddr_ltb h x then h :: l
      else if HostAddr_ltb x h then x :: set_emplace h rest
      else l
  end.

(** [hostsByspaces[space].emplace(ph)] on a [std::map] kept as the list of
    its entries in ascending key order. *)
Fixpoint map_emplace (space : Z) (h : HostAddr) (m : list (Z * list HostAddr))
  : list (Z * list HostAddr) :=
  match m with
  | [] => [(space, [h])]
  | (k, hs) :: rest =>
      if Z.ltb space k then (space, [h]) :: m
      else if Z.ltb k space then (k, hs) :: map_emplace space h rest
      else (k, set_emplace h hs) :: rest
  end.

Definition getSpacesHosts_entry `{MetaServiceUtils} (spaces : gset Z)
    (hostsByspaces : list (Z * list HostAddr)) (e : string * string)
  : list (Z * list HostAddr) :=
  let partHosts := parsePartVal (snd e) in
  let space := parsePartKeySpaceId (fst e) in
  if negb (bool_decide (spaces = ∅)) && negb (bool_decide (space ∈ spaces))
  then hostsByspaces
  else fold_left (fun m ph => map_emplace space ph m) partHosts hostsByspaces.

Definition getSpacesHosts `{MetaServiceUtils} (sn : Snapshot)
  : ErrorOr cpp2.ErrorCode (list (Z * list HostAddr)) * Snapshot :=
  let prefix := partPrefix0 in
  let '(kvRet, iter, s') := engine_prefix prefix (kv_ sn) in
  let sn' := set_kv_ sn s' in
  if negb (kvstore.ResultCode_eqb kvRet kvstore.SUCCEEDED)
  then (inl (MetaCommon_to kvRet), sn')
  else (inr (fold_left (getSpacesHosts_entry (spaces_ sn)) iter []), sn').

(** What the three operations do when [getSpacesHosts] fails. *)
Definition enumeration_error (retcode : cpp2.ErrorCode) : cpp2.ErrorCode :=
  if negb (cpp2.ErrorCode_eqb retcode cpp2.E_LEADER_CHANGED)
  then cpp2.E_STORE_FAILURE else retcode.

Record CheckpointInfo := mkCheckpointInfo {
  cp_host : HostAddr;
  cp_dir : string
}.

(** The inner loop of [createSnapshot]; [None] is the [return E_RPC_FAILURE]
    that leaves both loops. *)
Fixpoint createSnapshot_hosts (client : AdminClient) (name : string) (space : Z)
    (hosts : list HostAddr) (info : gmap Z (list CheckpointInfo))
    (log : list RpcCall)
  : option (gmap Z (list CheckpointInfo)) * list RpcCall :=
  match hosts with
  | [] => (Some info, log)
  | h :: rest =>
      let status := rpc_createSnapshot client log space name h in
      let log' := (log ++ [RpcCreateSnapshot space name h])%list in
      match status with
      | None => (None, log')
      | Some dir =>
          let cur := default [] (info !! space) in
          createSnapshot_hosts client name space rest
            (<[space := (cur ++ [mkCheckpointInfo h dir])%list]> info) log'
      end
  end.

Fixpoint createSnapshot_spaces (client : AdminClient) (name : string)
    (spacesHosts : list (Z * list HostAddr)) (info : gmap Z (list CheckpointInfo))
    (log : list RpcCall)
  : option (gmap Z (list CheckpointInfo)) * list RpcCall :=
  match spacesHosts with
  | [] => (Some info, log)
  | (space, hosts) :: rest =>
      match createSnapshot_hosts client name space hosts info log with
      | (None, log') => (None, log')
      | (Some info', log') => createSnapshot_spaces client name rest info' log'
      end
  end.

Definition createSnapshot `{MetaServiceUtils} (client : AdminClient)
    (name : string) (sn : Snapshot)
  : ErrorOr cpp2.ErrorCode (gmap Z (list CheckpointInfo)) * Snapshot :=
  let '(retSpacesHostsRet, sn1) := getSpacesHosts sn in
  match retSpacesHostsRet with
  | inl retcode => (inl (enumeration_error retcode), sn1)
  | inr spacesHosts =>
      match createSnapshot_spaces client name spacesHosts ∅ (sent sn1) with
      | (None, log') => (inl cpp2.E_RPC_FAILURE, set_sent sn1 log')
      | (Some info, log') => (inr info, set_sent sn1 log')
      end
  end.

(** [std::find(hosts.begin(), hosts.end(), host) != hosts.end()]. *)
Definition find_host (hosts : list HostAddr) (h : HostAddr) : bool :=
  existsb (HostAddr_eqb h) hosts.

(** The inner loop of [dropSnapshot]: a failed drop is logged and the loop
    goes on. *)
Fixpoint dropSnapshot_hosts (client : AdminClient) (name : string)
    (hosts : list HostAddr) (space : Z) (spaceHosts : list HostAddr)
    (log : list RpcCall) : list RpcCall :=
  match spaceHosts with
  | [] => log
  | h :: rest =>
      if find_host hosts h then
        let status := rpc_dropSnapshot client log space name h in
        let log' := (log ++ [RpcDropSnapshot space name h])%list in
        (* [status] only decides whether an error is logged *)
        dropSnapshot_hosts client name hosts space rest log'
      else dropSnapshot_hosts client name hosts space rest log
  end.

Fixpoint dropSnapshot_spaces (client : AdminClient) (name : string)
    (hosts : list HostAddr) (spacesHosts : list (Z * list HostAddr))
    (log : list RpcCall) : list RpcCall :=
  match spacesHosts with
  | [] => log
  | (space, spaceHosts) :: rest =>
      dropSnapshot_spaces client name hosts rest
        (dropSnapshot_hosts client name hosts space spaceHosts log)
  end.

Definition dropSnapshot `{MetaServiceUtils} (client : AdminClient)
    (name : string) (hosts : list HostAddr) (sn : Snapshot)
  : cpp2.ErrorCode * Snapshot :=
  let '(retSpacesHostsRet, sn1) := getSpacesHosts sn in
  match retSpacesHostsRet with
  | inl retcode => (enumeration_error retcode, sn1)
  | inr spacesHosts =>
      (cpp2.SUCCEEDED,
       set_sent sn1 (dropSnapshot_spaces client name hosts spacesHosts (sent sn1)))
  end.

(** The inner loop of [blockingWrites]: a failed BLOCK_ON breaks out of the
    hosts of the current space only. *)
Fixpoint blockingWrites_hosts (client : AdminClient) (sign : EngineSignType)
    (space : Z) (hosts : list HostAddr) (ret : cpp2.ErrorCode)
    (log : list RpcCall) : cpp2.ErrorCode * list RpcCall :=
  match hosts with
  | [] => (ret, log)
  | h :: rest =>
      let status := rpc_blockingWrites client log space sign h in
      let log' := (log ++ [RpcBlockingWrites space sign h])%list in
      if negb status then
        let ret' := cpp2.E_BLOCK_WRITE_FAILURE in
        if EngineSignType_eqb sign BLOCK_ON then (ret', log')
        else blockingWrites_hosts client sign space rest ret' log'
      else blockingWrites_hosts client sign space rest ret log'
  end.

Fixpoint blockingWrites_spaces (client : AdminClient) (sign : EngineSignType)
    (spacesHosts : list (Z * list HostAddr)) (ret : cpp2.ErrorCode)
    (log : list RpcCall) : cpp2.ErrorCode * list RpcCall :=
  match spacesHosts with
  | [] => (ret, log)
  | (space, hosts) :: rest =>
      let '(ret', log') := blockingWrites_hosts client sign space hosts ret log in
      blockingWrites_spaces client sign rest ret' log'
  end.

Definition blockingWrites `{MetaServiceUtils} (client : AdminClient)
    (sign : EngineSignType) (sn : Snapshot) : cpp2.ErrorCode * Snapshot :=
  let '(retSpacesHostsRet, sn1) := getSpacesHosts sn in
  match retSpacesHostsRet with
  | inl retcode => (enumeration_error retcode, sn1)
  | inr spacesHosts =>
      let '(ret, log') :=
        blockingWrites_spaces client sign spacesHosts cpp2.SUCCEEDED (sent sn1) in
      (ret, set_sent sn1 log')
  end.

(** ** CreateBackupProcessor *)

Record CreateBackupReq := mkCreateBackupReq {
  get_spaces : option (list string)   (* [nullptr] when no space is named *)
}.

Record SpaceBackupInfo `{MetaServiceUtils} := mkSpaceBackupInfo {
  cp_dirs : list CheckpointInfo;
  space : SpaceDesc
}.
Arguments mkSpaceBackupInfo {_} _ _.

Record BackupMeta `{MetaServiceUtils} := mkBackupMeta {
  meta_files : list string;
  backup_info : gmap Z SpaceBackupInfo;
  backup_name : string
}.
Arguments mkBackupMeta {_} _ _ _.

(** The processor together with the [Snapshot] singleton it drives; both
    use the same store handle, kept in [base]. *)
Record BackupState `{MetaServiceUtils} := mkBackupState {
  base : Processor;
  snap_spaces : gset Z;
  rpcs : list RpcCall;
  resp_meta : option BackupMeta
}.
Arguments mkBackupState {_} _ _ _ _.

Section CreateBackup.
Context `{MetaServiceUtils}.

Definition store_of (st : BackupState) : NebulaStore := kvstore_ (base st).

Definition with_base (st : BackupState) (p : Processor) : BackupState :=
  mkBackupState p (snap_spaces st) (rpcs st) (resp_meta st).

Definition with_store (st : BackupState) (s : NebulaStore) : BackupState :=
  with_base st (set_store (base st) s).

Definition snapshot_of (st : BackupState) : Snapshot :=
  mkSnapshot (store_of st) (snap_spaces st) (rpcs st).

Definition with_snapshot (st : BackupState) (sn : Snapshot) : BackupState :=
  mkBackupState (set_store (base st) (kv_ sn)) (spaces_ sn) (sent sn)
                (resp_meta st).

Definition bk_handleErrorCode (code : cpp2.ErrorCode) (st : BackupState)
  : BackupState := with_base st (handleErrorCode code (base st)).

Definition bk_onFinished (st : BackupState) : BackupState :=
  with_base st (onFinished (base st)).

(** [values] decoded one by one into the set; [None] when a value is too
    short to hold an id. *)
Fixpoint decode_ids (values : list string) (spaces : gset Z) : option (gset Z) :=
  match values with
  | [] => Some spaces
  | rawID :: rest =>
      match decodeInt32 rawID with
      | None => None
      | Some id => decode_ids rest ({[ id ]} ∪ spaces)
      end
  end.

Definition spaceNameToId (backupSpaces : option (list string)) (s : NebulaStore)
  : option (ErrorOr cpp2.ErrorCode (gset Z)) * NebulaStore :=
  let spaces : gset Z := ∅ in
  let '(collected, s') :=
    match backupSpaces with
    | Some names =>
        let keys := List.map indexSpaceKey names in
        let '(result, s1) := doMultiGet keys s in
        match result with
        | inl retCode => (Some (inl retCode), s1)
        | inr values =>
            (match decode_ids values spaces with
             | None => None
             | Some sp => Some (inr sp)
             end, s1)
        end
    | None =>
        let prefix := spacePrefix in
        let '(iterRet, s1) := doPrefix prefix s in
        match iterRet with
        | inl retCode => (Some (inl retCode), s1)
        | inr iter =>
            (Some (inr (fold_left (fun sp e => {[ spaceId (fst e) ]} ∪ sp)
                                  iter spaces)), s1)
        end
    end in
  match collected with
  | Some (inr sp) =>
      if bool_decide (sp = ∅)
      then (Some (inl cpp2.E_BACKUP_SPACE_NOT_FOUND), s')
      else (Some (inr sp), s')
  | other => (other, s')
  end.

Definition isIndexRebuilding (s : NebulaStore)
  : ErrorOr cpp2.ErrorCode bool * NebulaStore :=
  let prefix := rebuildIndexStatusPrefix in
  let '(ret, s') := doPrefix prefix s in
  match ret with
  | inl retCode => (inl retCode, s')
  | inr iter =>
      (inr (existsb (fun e => String.eqb (snd e) "RUNNING") iter), s')
  end.

(** The loop that fills [backupInfo]: [inl] is a failed read of a space
    record, [None] the dereference of [snapshotInfo.end()]. *)
Fixpoint fill_backupInfo (ids : list Z)
    (snapshotInfo : gmap Z (list CheckpointInfo))
    (backupInfo : gmap Z SpaceBackupInfo) (s : NebulaStore)
  : option (ErrorOr cpp2.ErrorCode (gmap Z SpaceBackupInfo)) * NebulaStore :=
  match ids with
  | [] => (Some (inr backupInfo), s)
  | id :: rest =>
      let '(spaceRet, s') := doGet (spaceKey id) s in
      match spaceRet with
      | inl e => (Some (inl e), s')
      | inr value =>
          let properties := parseSpace value in
          match snapshotInfo !! id with
          | None => (None, s')
          | Some dirs =>
              let spaceInfo := mkSpaceBackupInfo dirs properties in
              (* [emplace] keeps an entry that is already there *)
              let backupInfo' :=
                match backupInfo !! id with
                | Some _ => backupInfo
                | None => <[id := spaceInfo]> backupInfo
                end in
              fill_backupInfo rest snapshotInfo backupInfo' s'
          end
      end
  end.

(** [getActiveHosts] is [ActiveHostsMan::getActiveHosts], which is not
    among the sources; [timestamp] is what [genTimestampStr] returns. *)
Definition CreateBackupProcessor_process (client : AdminClient)
    (getActiveHosts : NebulaStore -> ErrorOr cpp2.ErrorCode (list HostAddr))
    (timestamp : string) (req : CreateBackupReq) (st : BackupState)
  : option BackupState :=
  let backupSpaces := get_spaces req in
  if negb (leader (store_of st))
  then Some (bk_onFinished (bk_handleErrorCode cpp2.E_LEADER_CHANGED st))
  else
  let '(result, s1) := isIndexRebuilding (store_of st) in
  let st1 := with_store st s1 in
  match result with
  | inl e => Some (bk_onFinished (bk_handleErrorCode e st1))
  | inr true =>
      Some (bk_onFinished (bk_handleErrorCode cpp2.E_BACKUP_BUILDING_INDEX st1))
  | inr false =>
  match getActiveHosts (store_of st1) with
  | inl e => Some (bk_onFinished (bk_handleErrorCode e st1))
  | inr hosts =>
  if Nat.eqb (length hosts) 0
  then Some (bk_onFinished (bk_handleErrorCode cpp2.E_NO_HOSTS st1))
  else
  let '(spaceIdRet, s2) := spaceNameToId backupSpaces (store_of st1) in
  let st2 := with_store st1 s2 in
  match spaceIdRet with
  | None => None
  | Some (inl e) => Some (bk_onFinished (bk_handleErrorCode e st2))
  | Some (inr spaces) =>
  (* The entire process follows mostly snapshot logic. *)
  let backupName := "BACKUP_" +:+ timestamp in
  let data : list (string * string) :=
    [(snapshotKey backupName, snapshotVal INVALID (toHostsStr hosts))] in
  let st3 := with_snapshot st2 (setSpaces spaces (snapshot_of st2)) in
  (* step 1 : Blocking all writes action for storage engines. *)
  let '(ret, sn4) := blockingWrites client BLOCK_ON (snapshot_of st3) in
  let st4 := with_snapshot st3 sn4 in
  if negb (cpp2.ErrorCode_eqb ret cpp2.SUCCEEDED) then
    let st5 := bk_handleErrorCode ret st4 in
    let '(_, sn6) := blockingWrites client BLOCK_OFF (snapshot_of st5) in
    Some (bk_onFinished (with_snapshot st5 sn6))
  else
  (* step 3 : Create checkpoint for all storage engines. *)
  let '(sret, sn5) := createSnapshot client backupName (snapshot_of st4) in
  let st5 := with_snapshot st4 sn5 in
  match sret with
  | inl e =>
      let st6 := bk_handleErrorCode e st5 in
      let '(_, sn7) := blockingWrites client BLOCK_OFF (snapshot_of st6) in
      Some (bk_onFinished (with_snapshot st6 sn7))
  | inr snapshotInfo =>
  (* step 4 created backup for meta(export sst). *)
  match backup (store_of st5) spaces backupName backupSpaces with
  | None => Some (bk_onFinished (bk_handleErrorCode cpp2.E_BACKUP_FAILURE st5))
  | Some backupFiles =>
  (* step 5 : checkpoint created done, so release the write blocking. *)
  let '(ret, sn6) := blockingWrites client BLOCK_OFF (snapshot_of st5) in
  let st6 := with_snapshot st5 sn6 in
  if negb (cpp2.ErrorCode_eqb ret cpp2.SUCCEEDED)
  then Some (bk_onFinished (bk_handleErrorCode ret st6))
  else
  (* step 6 : update snapshot status from INVALID to VALID. *)
  let data :=
    (data ++ [(snapshotKey backupName,
               snapshotVal VALID (toHostsStr hosts))])%list in
  let '(putRet, s7) := doSyncPut data (store_of st6) in
  let st7 := with_store st6 s7 in
  if negb (cpp2.ErrorCode_eqb putRet cpp2.SUCCEEDED)
  then Some (bk_onFinished (bk_handleErrorCode putRet st7))
  else
  (* set backup info *)
  let '(filled, s8) := fill_backupInfo (elements spaces) snapshotInfo ∅ s7 in
  let st8 := with_store st7 s8 in
  match filled with
  | None => None
  | Some (inl e) => Some (bk_onFinished (bk_handleErrorCode e st8))
  | Some (inr backupInfo) =>
      let meta := mkBackupMeta backupFiles backupInfo backupName in
      let st9 := bk_handleErrorCode cpp2.SUCCEEDED st8 in
      Some (bk_onFinished
              (mkBackupState (base st9) (snap_spaces st9) (rpcs st9) (Some meta)))
  end
  end
  end
  end
  end
  end.
End CreateBackup.

(** ** Filter expressions

    [Expression] belongs to the common library; what the planner reads is
    the kind of a node and, by kind, its operands or its property name. *)

Inductive UnaryKind := kUnaryPlus | kUnaryNegate | kUnaryNot.

Inductive ArithmeticKind := kAdd | kMinus | kMultiply | kDivision | kMod.

Inductive RelationalKind :=
| kRelEQ | kRelNE | kRelLT | kRelLE | kRelGT | kRelGE
| kRelREG | kRelIn | kRelNotIn
| kContains | kNotContains | kStartsWith | kNotStartsWith
| kEndsWith | kNotEndsWith.

Inductive LogicalKind := kLogicalAnd | kLogicalOr | kLogicalXor.

Inductive PropertyKind :=
| kTagProperty | kEdgeProperty | kInputProperty | kVarProperty
| kDstProperty | kSrcProperty
| kEdgeSrc | kEdgeType | kEdgeRank | kEdgeDst.

Inductive Expression :=
| ConstantExpression (v : Z)
| UnaryExpression (k : UnaryKind) (operand : Expression)
| ArithmeticExpression (k : ArithmeticKind) (lhs rhs : Expression)
| RelationalExpression (k : RelationalKind) (lhs rhs : Expression)
| LogicalExpression (k : LogicalKind) (operands : list Expression)
| PropertyExpression (k : PropertyKind) (prop : string)
| FunctionCallExpression (name : string) (args : list Expression).

(** Names and functions of the common library that the planner uses: the
    reserved property names and [Expression::decode]. *)
Class CommonBase := {
  kVid : string;
  kTag : string;
  kSrc : string;
  kType : string;
  kRank : string;
  kDst : string;
  Expression_decode : string -> Expression
}.

(** [set.find(name) != set.end()] on a set of names. *)
Definition name_in (name : string) (names : list string) : bool :=
  existsb (String.eqb name) names.

(** ** LookupBaseProcessor::isOutsideIndex *)

Definition propsInEdgeKey `{CommonBase} : list string := [kSrc; kType; kRank; kDst].

(** [std::find_if(fields.begin(), fields.end(),
    [&](f){ return f.get_name() == propName; }) != fields.end()]. *)
Definition find_field (propName : string) (fields : list ColumnDef) : bool :=
  existsb (fun f => String.eqb (col_name f) propName) fields.

Fixpoint isOutsideIndex `{CommonBase} (filter : Expression) (index : IndexItem)
  : bool :=
  let fields := get_fields index in
  match filter with
  | LogicalExpression k operands =>
      match k with
      | kLogicalOr | kLogicalAnd =>
          (* the first operand that is outside ends the loop *)
          existsb (fun expr => isOutsideIndex expr index) operands
      | _ => false
      end
  | RelationalExpression k lhs rhs =>
      match k with
      | kRelLE | kRelIn | kRelGE | kRelEQ | kRelLT | kRelGT | kRelNE | kRelNotIn =>
          if isOutsideIndex lhs index then true
          else if isOutsideIndex rhs index then true
          else false
      | _ => false
      end
  | PropertyExpression k propName =>
      match k with
      | kEdgeSrc | kEdgeType | kEdgeRank | kEdgeDst =>
          negb (name_in propName propsInEdgeKey)
      | kTagProperty | kEdgeProperty =>
          negb (find_field propName fields)
      | _ => false
      end
  | _ => false
  end.

(** ** The plan graph

    Nodes refer to each other by address; here every node gets an
    identifier when it is created, and a dependency is the identifier of
    the node depended on. *)

Definition NodeId := nat.

Inductive ScanType := PREFIX | RANGE.

Record IndexColumnHint := mkIndexColumnHint {
  hint_column_name : string;
  hint_scan_type : ScanType
}.

Record IndexQueryContext := mkIndexQueryContext {
  ctx_index_id : Z;
  get_column_hints : list IndexColumnHint;
  filter_ref : option string          (* [None] when the field is not set *)
}.

Record PlanContext := mkPlanContext {
  isEdge_ : bool;
  edgeName_ : string;
  tagName_ : string;
  vIdLen_ : Z;
  isIntId_ : bool
}.

(** The two ways a [StorageExpressionContext] is built by the planner. *)
Inductive StorageExpressionContext :=
| FieldContext (vIdLen : Z) (isIntId hasNullableCol : bool)
    (fields : list ColumnDef)
| SchemaContext (vIdLen : Z) (isIntId : bool) (name : string)
    (schema : Schema) (isEdge : bool).

(** What an [IndexOutputNode] is constructed from; [indexFilter] is [None]
    where the call leaves the argument out. *)
Inductive OutputSource :=
| FromIndexScan (hasNullableCol : bool) (fields : list ColumnDef)
| FromEdge
| FromVertex
| FromFilter (indexFilter : option bool).

Inductive RelNode :=
| IndexScanNode (indexId : Z) (colHints : list IndexColumnHint)
| IndexEdgeNode (indexScanNode : NodeId) (schemas : list Schema) (edgeName : string)
| IndexVertexNode (indexScanNode : NodeId) (schemas : list Schema) (tagName : string)
| IndexFilterNode (input : NodeId) (exprCtx : StorageExpressionContext)
    (exp : Expression) (isEdge : option bool)
| IndexOutputNode (input : NodeId) (source : OutputSource)
| DeDupNode (deDupColPos : list nat)
| AggregateNode.

Record PlanNode := mkPlanNode {
  node_id : NodeId;
  node : RelNode;
  dependencies_ : list NodeId
}.

(** [node->addDependency(dep)]. *)
Definition addDependency (n dep : PlanNode) : PlanNode :=
  mkPlanNode (node_id n) (node n) (dependencies_ n ++ [node_id dep])%list.

(** [StoragePlan]: the nodes in the order they were added. *)
Definition StoragePlan := list PlanNode.

Definition addNode (plan : StoragePlan) (n : PlanNode) : StoragePlan :=
  (plan ++ [n])%list.

Inductive Status :=
| IndexNotFound
| StatusError (msg : string).

(** [IndexManager::getEdgeIndex] and [getTagIndex]; [None] is a status that
    is not ok. *)
Record IndexManager := mkIndexManager {
  getEdgeIndex : Z -> Z -> option IndexItem;
  getTagIndex : Z -> Z -> option IndexItem
}.

(** The members of the lookup processor that [buildPlan] reads or writes.
    [next_node] is the identifier the next created node receives. *)
Record LookupProcessor := mkLookupProcessor {
  spaceId_ : Z;
  planContext_ : PlanContext;
  contexts_ : list IndexQueryContext;
  yieldCols_ : list string;
  schemas_ : list Schema;
  deDupColPos_ : list nat;
  filterItems_ : gmap Z (StorageExpressionContext * Expression);
  next_node : NodeId
}.

Definition set_filterItems (p : LookupProcessor)
    (m : gmap Z (StorageExpressionContext * Expression)) : LookupProcessor :=
  mkLookupProcessor (spaceId_ p) (planContext_ p) (contexts_ p) (yieldCols_ p)
    (schemas_ p) (deDupColPos_ p) m (next_node p).

Definition set_next_node (p : LookupProcessor) (n : NodeId) : LookupProcessor :=
  mkLookupProcessor (spaceId_ p) (planContext_ p) (contexts_ p) (yieldCols_ p)
    (schemas_ p) (deDupColPos_ p) (filterItems_ p) n.

(** [std::make_unique<Node>(...)]: a node with a fresh identifier and no
    dependency yet. *)
Definition make_node (p : LookupProcessor) (n : RelNode)
  : PlanNode * LookupProcessor :=
  (mkPlanNode (next_node p) n [], set_next_node p (S (next_node p))).

(** ** The four plan builders

    Each returns the output node, which may be a null pointer for the
    caller, the plan with the nodes below it added, and the processor. *)

Definition buildPlanBasic (ctx : IndexQueryContext) (plan : StoragePlan)
    (hasNullableCol : bool) (fields : list ColumnDef) (p : LookupProcessor)
  : option PlanNode * StoragePlan * LookupProcessor :=
  let indexId := ctx_index_id ctx in
  let colHints := get_column_hints ctx in
  let '(indexScan, p) := make_node p (IndexScanNode indexId colHints) in
  let '(output, p) :=
    make_node p (IndexOutputNode (node_id indexScan)
                   (FromIndexScan hasNullableCol fields)) in
  let output := addDependency output indexScan in
  let plan := addNode plan indexScan in
  (Some output, plan, p).

Definition buildPlanWithData (ctx : IndexQueryContext) (plan : StoragePlan)
    (p : LookupProcessor) : option PlanNode * StoragePlan * LookupProcessor :=
  let indexId := ctx_index_id ctx in
  let colHints := get_column_hints ctx in
  let '(indexScan, p) := make_node p (IndexScanNode indexId colHints) in
  if isEdge_ (planContext_ p) then
    let '(edge, p) :=
      make_node p (IndexEdgeNode (node_id indexScan) (schemas_ p)
                     (edgeName_ (planContext_ p))) in
    let edge := addDependency edge indexScan in
    let '(output, p) := make_node p (IndexOutputNode (node_id edge) FromEdge) in
    let output := addDependency output edge in
    let plan := addNode plan indexScan in
    let plan := addNode plan edge in
    (Some output, plan, p)
  else
    let '(vertex, p) :=
      make_node p (IndexVertexNode (node_id indexScan) (schemas_ p)
                     (tagName_ (planContext_ p))) in
    let vertex := addDependency vertex indexScan in
    let '(output, p) := make_node p (IndexOutputNode (node_id vertex) FromVertex) in
    let output := addDependency output vertex in
    let plan := addNode plan indexScan in
    let plan := addNode plan vertex in
    (Some output, plan, p).

Definition buildPlanWithFilter (ctx : IndexQueryContext) (plan : StoragePlan)
    (exprCtx : StorageExpressionContext) (exp : Expression) (p : LookupProcessor)
  : option PlanNode * StoragePlan * LookupProcessor :=
  let indexId := ctx_index_id ctx in
  let colHints := get_column_hints ctx in
  let '(indexScan, p) := make_node p (IndexScanNode indexId colHints) in
  let '(filter, p) :=
    make_node p (IndexFilterNode (node_id indexScan) exprCtx exp
                   (Some (isEdge_ (planContext_ p)))) in
  let filter := addDependency filter indexScan in
  let '(output, p) :=
    make_node p (IndexOutputNode (node_id filter) (FromFilter (Some true))) in
  let output := addDependency output filter in
  let plan := addNode plan indexScan in
  let plan := addNode plan filter in
  (Some output, plan, p).

Definition buildPlanWithDataAndFilter (ctx : IndexQueryContext)
    (plan : StoragePlan) (exprCtx : StorageExpressionContext) (exp : Expression)
    (p : LookupProcessor) : option PlanNode * StoragePlan * LookupProcessor :=
  let indexId := ctx_index_id ctx in
  let colHints := get_column_hints ctx in
  let '(indexScan, p) := make_node p (IndexScanNode indexId colHints) in
  if isEdge_ (planContext_ p) then
    let '(edge, p) :=
      make_node p (IndexEdgeNode (node_id indexScan) (schemas_ p)
                     (edgeName_ (planContext_ p))) in
    let edge := addDependency edge indexScan in
    let '(filter, p) :=
      make_node p (IndexFilterNode (node_id edge) exprCtx exp None) in
    let filter := addDependency filter edge in
    let '(output, p) :=
      make_node p (IndexOutputNode (node_id filter) (FromFilter None)) in
    let output := addDependency output filter in
    let plan := addNode plan indexScan in
    let plan := addNode plan edge in
    let plan := addNode plan filter in
    (Some output, plan, p)
  else
    let '(vertex, p) :=
      make_node p (IndexVertexNode (node_id indexScan) (schemas_ p)
                     (tagName_ (planContext_ p))) in
    let vertex := addDependency vertex indexScan in
    let '(filter, p) :=
      make_node p (IndexFilterNode (node_id vertex) exprCtx exp None) in
    let filter := addDependency filter vertex in
    let '(output, p) :=
      make_node p (IndexOutputNode (node_id filter) (FromFilter None)) in
    let output := addDependency output filter in
    let plan := addNode plan indexScan in
    let plan := addNode plan vertex in
    let plan := addNode plan filter in
    (Some output, plan, p).

(** ** LookupBaseProcessor::buildPlan *)

Definition propsInKey `{CommonBase} : list string :=
  [kVid; kTag; kSrc; kType; kRank; kDst].

(** The loop over the yield columns: key columns are skipped, the first
    column that is not an index field sets [needData] and ends the loop. *)
Fixpoint yield_needs_data `{CommonBase} (yieldCols : list string)
    (fields : list ColumnDef) : bool :=
  match yieldCols with
  | [] => false
  | yieldCol :: rest =>
      if name_in yieldCol propsInKey then yield_needs_data rest fields
      else if negb (existsb (fun columnDef => String.eqb yieldCol (col_name columnDef))
                            fields)
      then true
      else yield_needs_data rest fields
  end.

(** The filter field is set and is not the empty string. *)
Definition filter_present (ctx : IndexQueryContext) : bool :=
  match filter_ref ctx with
  | Some f => negb (String.eqb f "")
  | None => false
  end.

Definition get_filter (ctx : IndexQueryContext) : string :=
  default "" (filter_ref ctx).

(** [filterItems_.emplace(filterId, item)]: an entry already stored under
    the key is kept. *)
Definition filterItems_emplace (filterId : Z)
    (item : StorageExpressionContext * Expression)
    (m : gmap Z (StorageExpressionContext * Expression))
  : gmap Z (StorageExpressionContext * Expression) :=
  match m !! filterId with
  | Some _ => m
  | None => <[filterId := item]> m
  end.

(** The body of the loop over the contexts.  The result is the error
    status that ends [buildPlan], or the DeDup node, the plan and the
    filter counter after this context. *)
Definition buildPlan_context `{CommonBase} (indexMan : IndexManager)
    (ctx : IndexQueryContext) (deDup : PlanNode) (plan : StoragePlan)
    (filterId : Z) (p : LookupProcessor)
  : (Status + (PlanNode * StoragePlan * Z)) * LookupProcessor :=
  let indexId := ctx_index_id ctx in
  let needFilter := filter_present ctx in
  (* Check whether a data node is required. *)
  let index :=
    if isEdge_ (planContext_ p)
    then getEdgeIndex indexMan (spaceId_ p) indexId
    else getTagIndex indexMan (spaceId_ p) indexId in
  match index with
  | None => (inl IndexNotFound, p)
  | Some indexItem =>
      let fields := get_fields indexItem in
      (* check nullable column *)
      let hasNullableCol := existsb col_nullable fields in
      let needData := yield_needs_data (yieldCols_ p) fields in
      (* Check WHERE clause contains columns that ware not indexed *)
      let '(needData, needFilter) :=
        if filter_present ctx then
          let filter := Expression_decode (get_filter ctx) in
          let isFieldsOutsideIndex := isOutsideIndex filter indexItem in
          if isFieldsOutsideIndex then (true, true) else (needData, needFilter)
        else (needData, needFilter) in
      let built : (Status + (option PlanNode * StoragePlan * Z)) * LookupProcessor :=
        if negb needData && negb needFilter then
          let '(out, plan, p) := buildPlanBasic ctx plan hasNullableCol fields p in
          (inr (out, plan, filterId), p)
        else if needData && negb needFilter then
          let '(out, plan, p) := buildPlanWithData ctx plan p in
          (inr (out, plan, filterId), p)
        else if negb needData && needFilter then
          let expr := Expression_decode (get_filter ctx) in
          let exprCtx :=
            FieldContext (vIdLen_ (planContext_ p)) (isIntId_ (planContext_ p))
                         hasNullableCol fields in
          let items := filterItems_emplace filterId (exprCtx, expr) (filterItems_ p) in
          let p := set_filterItems p items in
          (* [filterItems_[filterId]]: the entry stored under the key *)
          let item := default (exprCtx, expr) (items !! filterId) in
          let '(out, plan, p) :=
            buildPlanWithFilter ctx plan (fst item) (snd item) p in
          (inr (out, plan, filterId + 1), p)
        else
          let expr := Expression_decode (get_filter ctx) in
          (* Need to get columns in data, expr ctx need to be aware of schema *)
          let schemaName :=
            if isEdge_ (planContext_ p) then edgeName_ (planContext_ p)
            else tagName_ (planContext_ p) in
          match last (schemas_ p) with
          | None => (inl (StatusError "Schema not found"), p)
          | Some schema =>
              let exprCtx :=
                SchemaContext (vIdLen_ (planContext_ p)) (isIntId_ (planContext_ p))
                              schemaName schema (isEdge_ (planContext_ p)) in
              let items :=
                filterItems_emplace filterId (exprCtx, expr) (filterItems_ p) in
              let p := set_filterItems p items in
              let item := default (exprCtx, expr) (items !! filterId) in
              let '(out, plan, p) :=
                buildPlanWithDataAndFilter ctx plan (fst item) (snd item) p in
              (inr (out, plan, filterId + 1), p)
          end in
      match built with
      | (inl st, p) => (inl st, p)
      | (inr (None, _, _), p) => (inl (StatusError "Index scan plan error"), p)
      | (inr (Some out, plan, filterId), p) =>
          let deDup := addDependency deDup out in
          let plan := addNode plan out in
          (inr (deDup, plan, filterId), p)
      end
  end.

Fixpoint buildPlan_contexts `{CommonBase} (indexMan : IndexManager)
    (ctxs : list IndexQueryContext) (deDup : PlanNode) (plan : StoragePlan)
    (filterId : Z) (p : LookupProcessor)
  : (Status + (PlanNode * StoragePlan * Z)) * LookupProcessor :=
  match ctxs with
  | [] => (inr (deDup, plan, filterId), p)
  | ctx :: rest =>
      match buildPlan_context indexMan ctx deDup plan filterId p with
      | (inl st, p) => (inl st, p)
      | (inr (deDup, plan, filterId), p) =>
          buildPlan_contexts indexMan rest deDup plan filterId p
      end
  end.

Definition buildPlan `{CommonBase} (indexMan : IndexManager) (p : LookupProcessor)
  : (Status + StoragePlan) * LookupProcessor :=
  let plan : StoragePlan := [] in
  let '(IndexAggr, p) := make_node p AggregateNode in
  let '(deDup, p) := make_node p (DeDupNode (deDupColPos_ p)) in
  let filterId := 0 in
  match buildPlan_contexts indexMan (contexts_ p) deDup plan filterId p with
  | (inl st, p) => (inl st, p)
  | (inr (deDup, plan, _), p) =>
      let IndexAggr := addDependency IndexAggr deDup in
      let plan := addNode plan deDup in
      let plan := addNode plan IndexAggr in
      (inr plan, p)
  end.

(** ** Vocabulary of the properties *)

(** *** Expressions *)

(** [occurs e x]: [x] is [e] or occurs anywhere inside it. *)
Inductive occurs : Expression -> Expression -> Prop :=
| occurs_here e : occurs e e
| occurs_unary k o x : occurs o x -> occurs (UnaryExpression k o) x
| occurs_arith_l k l r x : occurs l x -> occurs (ArithmeticExpression k l r) x
| occurs_arith_r k l r x : occurs r x -> occurs (ArithmeticExpression k l r) x
| occurs_rel_l k l r x : occurs l x -> occurs (RelationalExpression k l r) x
| occurs_rel_r k l r x : occurs r x -> occurs (RelationalExpression k l r) x
| occurs_logical k ops o x :
    In o ops -> occurs o x -> occurs (LogicalExpression k ops) x
| occurs_call name args a x :
    In a args -> occurs a x -> occurs (FunctionCallExpression name args) x.

Definition is_and_or (k : LogicalKind) : bool :=
  match k with
  | kLogicalAnd | kLogicalOr => true
  | kLogicalXor => false
  end.

(** The relational kinds listed in the [switch] of [isOutsideIndex]. *)
Definition is_compared (k : RelationalKind) : bool :=
  match k with
  | kRelLE | kRelIn | kRelGE | kRelEQ | kRelLT | kRelGT | kRelNE | kRelNotIn => true
  | _ => false
  end.

(** [reached e x]: [x] is [e], or lies below it under AND/OR nodes and the
    listed comparisons only. *)
Inductive reached : Expression -> Expression -> Prop :=
| reached_here e : reached e e
| reached_rel_l k l r x :
    is_compared k = true -> reached l x -> reached (RelationalExpression k l r) x
| reached_rel_r k l r x :
    is_compared k = true -> reached r x -> reached (RelationalExpression k l r) x
| reached_logical k ops o x :
    is_and_or k = true -> In o ops -> reached o x ->
    reached (LogicalExpression k ops) x.

Definition is_schema_prop (k : PropertyKind) : bool :=
  match k with
  | kTagProperty | kEdgeProperty => true
  | _ => false
  end.

Definition is_edge_key (k : PropertyKind) : bool :=
  match k with
  | kEdgeSrc | kEdgeType | kEdgeRank | kEdgeDst => true
  | _ => false
  end.

Definition field_names (index : IndexItem) : list string :=
  List.map col_name (get_fields index).

(** A property leaf is served by the index: a tag or edge property names an
    index field, an edge-key leaf carries one of the four key names. *)
Definition leaf_inside `{CommonBase} (index : IndexItem) (k : PropertyKind)
    (prop : string) : Prop :=
  (is_schema_prop k = true -> In prop (field_names index)) /\
  (is_edge_key k = true -> In prop [kSrc; kType; kRank; kDst]).

(** *** Plans *)

Inductive NodeTag :=
| TScan | TEdge | TVertex | TFilter | TOutput | TDeDup | TAggregate.

Definition tag_of (n : RelNode) : NodeTag :=
  match n with
  | IndexScanNode _ _ => TScan
  | IndexEdgeNode _ _ _ => TEdge
  | IndexVertexNode _ _ _ => TVertex
  | IndexFilterNode _ _ _ _ => TFilter
  | IndexOutputNode _ _ => TOutput
  | DeDupNode _ => TDeDup
  | AggregateNode => TAggregate
  end.

(** [chain plan id tags]: following the dependency edges down from node
    [id] meets exactly one dependency at each step, and the kinds of the
    nodes met are [tags], read from the bottom of the chain up to [id]. *)
Inductive chain (plan : StoragePlan) : NodeId -> list NodeTag -> Prop :=
| chain_source n :
    In n plan -> dependencies_ n = [] ->
    chain plan (node_id n) [tag_of (node n)]
| chain_step n d tags :
    In n plan -> dependencies_ n = [d] -> chain plan d tags ->
    chain plan (node_id n) (tags ++ [tag_of (node n)])%list.

(** The members of the processor that the builders leave alone. *)
Definition same_request (p p' : LookupProcessor) : Prop :=
  spaceId_ p' = spaceId_ p /\ planContext_ p' = planContext_ p /\
  contexts_ p' = contexts_ p /\ yieldCols_ p' = yieldCols_ p /\
  schemas_ p' = schemas_ p /\ deDupColPos_ p' = deDupColPos_ p.

(** What the nodes created for one context look like: fresh consecutive
    identifiers from [first] on, no DeDup or Aggregate node, dependencies on
    nodes of the same block or later ones only. *)
Definition block_ok (first : nat) (nodes : list PlanNode) : Prop :=
  List.map node_id nodes = seq first (length nodes) /\
  List.Forall (fun n => tag_of (node n) <> TDeDup /\ tag_of (node n) <> TAggregate /\
                        List.Forall (fun d => (first <= d)%nat) (dependencies_ n))
              nodes.

(** The shape table of the specification. *)
Definition shape (needData needFilter isEdge : bool) : list NodeTag :=
  let fetch := if isEdge then TEdge else TVertex in
  match needData, needFilter with
  | false, false => [TScan; TOutput]
  | true, false => [TScan; fetch; TOutput]
  | false, true => [TScan; TFilter; TOutput]
  | true, true => [TScan; fetch; TFilter; TOutput]
  end.

(** The index a context is planned against. *)
Definition index_of (indexMan : IndexManager) (p : LookupProcessor)
    (ctx : IndexQueryContext) : option IndexItem :=
  if isEdge_ (planContext_ p)
  then getEdgeIndex indexMan (spaceId_ p) (ctx_index_id ctx)
  else getTagIndex indexMan (spaceId_ p) (ctx_index_id ctx).

(** [needData] in the words of the specification: some return column is
    neither a key column nor an index field, or the filter refers to a
    property outside the index. *)
Definition spec_needData `{CommonBase} (yieldCols : list string)
    (index : IndexItem) (ctx : IndexQueryContext) : bool :=
  existsb (fun col => negb (name_in col propsInKey)
                      && negb (name_in col (field_names index))) yieldCols
  || (filter_present ctx
      && isOutsideIndex (Expression_decode (get_filter ctx)) index).

(** [needFilter] in the words of the specification: a non-empty filter is
    present, promoted to true when the filter refers outside the index. *)
Definition spec_needFilter `{CommonBase} (index : IndexItem)
    (ctx : IndexQueryContext) : bool :=
  filter_present ctx
  || (filter_present ctx
      && isOutsideIndex (Expression_decode (get_filter ctx)) index).

(** *** Index checks *)

(** Some CHANGE or DROP item alters a column that an existing index lists. *)
Definition conflicts (items : list IndexItem) (alterItems : list AlterSchemaItem)
  : Prop :=
  exists index tagItem tCol iCol,
    In index items /\ In tagItem alterItems /\
    (get_op tagItem = cpp2.CHANGE \/ get_op tagItem = cpp2.DROP) /\
    In tCol (get_columns (get_schema tagItem)) /\
    In iCol (get_fields index) /\
    col_name tCol = col_name iCol.

Definition is_add (op : cpp2.AlterSchemaOp) : bool :=
  match op with
  | cpp2.ADD => true
  | _ => false
  end.

(** Position [j] holds the same name on both sides. *)
Definition same_name_at (fields : list IndexFieldDef) (itemFields : list ColumnDef)
    (j : nat) : Prop :=
  field_name <$> (fields !! j) = col_name <$> (itemFields !! j).

(** The names of [fields] and of the fields of the item agree at every
    position below [length fields]. *)
Definition names_match (fields : list IndexFieldDef) (item : IndexItem) : Prop :=
  forall i, (i < length fields)%nat ->
    field_name <$> (fields !! i) = col_name <$> (get_fields item !! i).

(** The field names of the item are a proper prefix of those of [fields]. *)
Definition strictly_extends (fields : list IndexFieldDef) (item : IndexItem)
  : Prop :=
  (length (get_fields item) < length fields)%nat /\
  forall i, (i < length (get_fields item))%nat ->
    field_name <$> (fields !! i) = col_name <$> (get_fields item !! i).

(** *** The id allocator *)

(** The engine serves every coming call. *)
Definition healthy (s : NebulaStore) : Prop :=
  Forall (fun o => o = None) (outcomes s).

(** The counter as the allocator reads it: 0 when the key is absent. *)
Definition stored_id (s : NebulaStore) : option Z :=
  match kv s !! kIdKey with
  | None => Some 0
  | Some val => decodeInt32 val
  end.


(** *** DropSpace *)

(** The keys of the store that start with a prefix. *)
Definition keys_under (prefix : string) (m : gmap string string) : list string :=
  iter_keys (List.filter (fun e => String.prefix prefix (fst e)) (map_to_list m)).

(** The keys [DropSpaceProcessor::process] hands to the removal for the
    space [name] with identifier [id], in the order it collects them. *)
Definition dropped_keys `{MetaServiceUtils} (name : string) (id : Z)
    (m : gmap string string) : list string :=
  (keys_under (partPrefix id) m ++ [indexSpaceKey name] ++ [spaceKey id]
   ++ keys_under (roleSpacePrefix id) m ++ keys_under (roleSpacePrefix id) m
   ++ [statisKey id])%list.

(** *** Snapshots *)

(** The (space, host) pairs of an enumeration, in the order the nested
    loops visit them. *)
Definition pairs_of (spacesHosts : list (Z * list HostAddr)) : list (Z * HostAddr) :=
  flat_map (fun sh => List.map (pair (fst sh)) (snd sh)) spacesHosts.

Definition create_requests (name : string) (pairs : list (Z * HostAddr))
  : list RpcCall :=
  List.map (fun sh => RpcCreateSnapshot (fst sh) name (snd sh)) pairs.


Definition blocking_requests (sign : EngineSignType) (pairs : list (Z * HostAddr))
  : list RpcCall :=
  List.map (fun sh => RpcBlockingWrites (fst sh) sign (snd sh)) pairs.

(** How far a run of [createSnapshot] gets through the pairs when it starts
    with the requests [log] already sent: through all of them when every
    host answers ([true]), otherwise up to and including the first host that
    does not ([false]).  The last argument is what has been sent at the end. *)
Inductive create_run (client : AdminClient) (name : string)
    (log : list RpcCall) (pairs : list (Z * HostAddr))
  : bool -> list RpcCall -> Prop :=
| create_run_all :
    create_run client name log pairs true
               (log ++ create_requests name pairs)%list
| create_run_stop done sh rest :
    pairs = (done ++ sh :: rest)%list ->
    rpc_createSnapshot client (log ++ create_requests name done)%list
                       (fst sh) name (snd sh) = None ->
    create_run client name log pairs false
               (log ++ create_requests name (done ++ [sh]))%list.

Definition is_block_off (c : RpcCall) : bool :=
  match c with
  | RpcBlockingWrites _ BLOCK_OFF _ => true
  | _ => false
  end.

(** ** A concrete codec and concrete names

    Keys are a textual prefix followed by raw little-endian identifiers;
    these instances are used to run the processors on concrete stores. *)

Definition drop_bytes (n : nat) (s : string) : string :=
  String.substring n (String.length s - n) s.

Definition encode_host (h : HostAddr) : string :=
  String (ascii_of_nat (String.length (host h))) (host h +:+ encodeInt32 (port h)).

Fixpoint parse_hosts (fuel : nat) (val : string) : list HostAddr :=
  match fuel with
  | O => []
  | S fuel' =>
      match val with
      | EmptyString => []
      | String len rest =>
          let n := nat_of_ascii len in
          let after := drop_bytes n rest in
          match decodeInt32 after with
          | None => []
          | Some pt =>
              mkHostAddr (String.substring 0 n rest) pt
              :: parse_hosts fuel' (drop_bytes 4 after)
          end
      end
  end.

Definition join_hosts (hosts : list HostAddr) : string :=
  fold_right (fun h acc => host h +:+ "," +:+ acc) "" hosts.

(** Modelled from the spec: [MetaServiceUtils] is not among the sources;
    keys are a textual prefix followed by the identifiers as raw
    little-endian bytes.  The prefix texts and the layout of the values are
    those of this instance only; [export] is what the meta export answers. *)
Definition layout_codec (export : option (list string)) : MetaServiceUtils := {|
  partPrefix0 := "__parts__";
  partPrefix := fun id => "__parts__" +:+ encodeInt32 id;
  parsePartVal := fun val => parse_hosts (String.length val) val;
  parsePartKeySpaceId := fun key => default 0 (decodeInt32 (drop_bytes 9 key));
  spacePrefix := "__spaces__";
  spaceKey := fun id => "__spaces__" +:+ encodeInt32 id;
  spaceId := fun key => default 0 (decodeInt32 (drop_bytes 10 key));
  indexSpaceKey := fun name => "__index__" +:+ encodeInt32 1 +:+ name;
  roleSpacePrefix := fun id => "__roles__" +:+ encodeInt32 id;
  listenerPrefix := fun id => "__listener__" +:+ encodeInt32 id;
  statisKey := fun id => "__statis__" +:+ encodeInt32 id;
  snapshotKey := fun name => "__snapshots__" +:+ name;
  snapshotVal := fun status hosts =>
    (match status with VALID => "V" | INVALID => "I" end) +:+ hosts;
  rebuildIndexStatusPrefix := "__rebuild_index_status__";
  lastUpdateTimeKey := "__last_update_time__";
  lastUpdateTimeVal := fun now => encodeInt32 now;
  SpaceDesc := string;
  parseSpace := fun val => val;
  backup := fun _ _ _ _ => export;
  toHostsStr := join_hosts
|}.

Definition common_names (decode : string -> Expression) : CommonBase := {|
  kVid := "_vid";
  kTag := "_tag";
  kSrc := "_src";
  kType := "_type";
  kRank := "_rank";
  kDst := "_dst";
  Expression_decode := decode
|}.

(** ** Concrete worlds

    One space "S" with id 1, one part placed on two hosts, one role, one
    listener and the statistics of the space. *)

Definition host1 : HostAddr := mkHostAddr "h1" 9779.
Definition host2 : HostAddr := mkHostAddr "h2" 9779.

Definition demo_table (c : MetaServiceUtils) : gmap string string :=
  <[indexSpaceKey "S" := encodeInt32 1]>
  (<[spaceKey 1 := "desc"]>
  (<[partPrefix 1 +:+ encodeInt32 1 := encode_host host1 +:+ encode_host host2]>
  (<[roleSpacePrefix 1 +:+ "alice" := "ADMIN"]>
  (<[listenerPrefix 1 +:+ encodeInt32 1 := "listener"]>
  (<[statisKey 1 := "stats"]> ∅))))).

Definition demo_store (c : MetaServiceUtils) : NebulaStore :=
  mkStore (demo_table c) [] true.

Definition demo_backup_state (c : MetaServiceUtils) : BackupState :=
  mkBackupState (mkProcessor (demo_store c) cpp2.E_UNKNOWN 0) ∅ [] None.

(** The codec whose meta export succeeds, and the one whose export fails. *)
Definition exporting_codec : MetaServiceUtils := layout_codec (Some ["meta.sst"]).
Definition failing_export_codec : MetaServiceUtils := layout_codec None.

(** Every host answers every request. *)
Definition steady_client : AdminClient :=
  mkAdminClient (fun _ _ _ _ => Some "/data/cp") (fun _ _ _ _ => true)
                (fun _ _ _ _ => true).

(** Host "h2" refuses BLOCK_ON. *)
Definition block_refusing_client : AdminClient :=
  mkAdminClient
    (fun _ _ _ _ => Some "/data/cp")
    (fun _ _ _ _ => true)
    (fun _ _ sign h =>
       negb (EngineSignType_eqb sign BLOCK_ON && String.eqb (host h) "h2")).


Definition both_hosts_active (s : NebulaStore)
  : ErrorOr cpp2.ErrorCode (list HostAddr) := inr [host1; host2].

(** The filter [c3 + 1 > 2] and an index on [(c1, c2)]. *)
Definition c3_plus_one_gt_two : Expression :=
  RelationalExpression kRelGT
    (ArithmeticExpression kAdd (PropertyExpression kTagProperty "c3")
                          (ConstantExpression 1))
    (ConstantExpression 2).

(** The filter [c1 == 1 AND c2 == 1]. *)
Definition c1_and_c2_eq_one : Expression :=
  LogicalExpression kLogicalAnd
    [RelationalExpression kRelEQ (PropertyExpression kTagProperty "c1")
                          (ConstantExpression 1);
     RelationalExpression kRelEQ (PropertyExpression kTagProperty "c2")
                          (ConstantExpression 1)].

Definition index_c1_c2 : IndexItem :=
  mkIndexItem 1 "i12" (tag_id 1) [mkColumnDef "c1" false; mkColumnDef "c2" false].

(** A tag [(c1, c2, c3)] with an index on [(c1, c2)], and the four lookups
    of the planner's own examples: filter on indexed columns or on [c3],
    yield of indexed columns or of [c3]. *)
Definition demo_indexMan : IndexManager :=
  mkIndexManager (fun _ _ => None)
                 (fun _ id => if Z.eqb id 1 then Some index_c1_c2 else None).

Definition demo_decode (encoded : string) : Expression :=
  if String.eqb encoded "c3>1"
  then RelationalExpression kRelGT (PropertyExpression kTagProperty "c3")
                            (ConstantExpression 1)
  else c1_and_c2_eq_one.

Definition demo_names : CommonBase := common_names demo_decode.

Definition demo_lookup (yieldCols : list string) (filters : list (option string))
  : LookupProcessor :=
  mkLookupProcessor 1
    (mkPlanContext false "" "t" 8 false)
    (List.map (fun f => mkIndexQueryContext 1 [mkIndexColumnHint "c1" PREFIX] f)
              filters)
    yieldCols
    [mkSchema [mkColumnDef "c1" false; mkColumnDef "c2" false;
               mkColumnDef "c3" false]]
    [] ∅ 0%nat.

(** The lookup that yields [c3], once without a filter and once with the
    filter [c3 > 1], and the plan built for it. *)
Definition demo_fetch_lookup : LookupProcessor :=
  demo_lookup ["c3"] [None; Some "c3>1"].

Definition demo_fetch_plan : StoragePlan :=
  match fst (@buildPlan demo_names demo_indexMan demo_fetch_lookup) with
  | inr plan => plan
  | inl _ => []
  end.

Definition plain_names : CommonBase := common_names (fun _ => c1_and_c2_eq_one).

(** ** BaseProcessor: single-step writes and existence checks *)

(** [KVStore::asyncRemove], with the wait for its callback. *)
Definition engine_remove (key : string) (s : NebulaStore)
  : kvstore.ResultCode * NebulaStore :=
  match next_outcome s with
  | (Some f, s') => (fault_code f, s')
  | (None, s') => (kvstore.SUCCEEDED, set_kv s' (delete key (kv s')))
  end.

Definition doPut (data : list (string * string)) (p : Processor) : Processor :=
  let '(code, s') := engine_multiPut data (kvstore_ p) in
  onFinished (handleErrorCode (MetaCommon_to code) (set_store p s')).

Definition doRemove (key : string) (p : Processor) : Processor :=
  let '(code, s') := engine_remove key (kvstore_ p) in
  onFinished (handleErrorCode (MetaCommon_to code) (set_store p s')).

Definition doMultiRemove (keys : list string) (p : Processor) : Processor :=
  let '(code, s') := engine_multiRemove keys (kvstore_ p) in
  onFinished (handleErrorCode (MetaCommon_to code) (set_store p s')).

Definition spaceExist `{MetaServiceUtils} (spaceId : Z) (s : NebulaStore)
  : cpp2.ErrorCode * NebulaStore :=
  let spaceKey := spaceKey spaceId in
  let '(ret, s') := doGet spaceKey s in
  match ret with
  | inr _ => (cpp2.SUCCEEDED, s')
  | inl e => (e, s')
  end.

Definition hostExist (hostKey : string) (s : NebulaStore)
  : cpp2.ErrorCode * NebulaStore :=
  let '(ret, s') := doGet hostKey s in
  match ret with
  | inr _ => (cpp2.SUCCEEDED, s')
  | inl e => (e, s')
  end.

(** The value a batch write leaves under a key: that of the last pair with
    this key. *)
Definition last_written (data : list (string * string)) (k : string)
  : option string :=
  snd <$> List.find (fun e => String.eqb (fst e) k) (rev data).

(** *** Host enumerations *)

(** A [std::set<HostAddr>] as a list: strictly ascending. *)
Definition hosts_sorted (l : list HostAddr) : Prop :=
  StronglySorted (fun a b => HostAddr_ltb a b = true) l.

(** A [std::map<GraphSpaceID, std::set<HostAddr>>] as a list: keys strictly
    ascending, every value a set. *)
Definition enumeration_sorted (m : list (Z * list HostAddr)) : Prop :=
  StronglySorted (fun a b => fst a < fst b) m /\
  List.Forall (fun e => hosts_sorted (snd e) /\ snd e <> []) m.

(** The part entry [(k, v)] is taken into the enumeration restricted to
    [spaces]: an empty restriction takes every space. *)
Definition part_selected `{MetaServiceUtils} (spaces : gset Z) (k : string) : Prop :=
  spaces = ∅ \/ parsePartKeySpaceId k ∈ spaces.

(** The enumeration [getSpacesHosts] computes from a table, restricted to
    [spaces]. *)
Definition enumerate `{MetaServiceUtils} (table : gmap string string)
    (spaces : gset Z) : list (Z * list HostAddr) :=
  fold_left (getSpacesHosts_entry spaces)
            (List.filter (fun e => String.prefix partPrefix0 (fst e))
                         (map_to_list table)) [].

(** Every request of [calls] is accepted by its host, when sent after [log]
    and the requests before it. *)
Fixpoint all_accepted (client : AdminClient) (log calls : list RpcCall) : bool :=
  match calls with
  | [] => true
  | c :: rest =>
      match c with
      | RpcBlockingWrites s sign h => rpc_blockingWrites client log s sign h
      | RpcDropSnapshot s name h => rpc_dropSnapshot client log s name h
      | RpcCreateSnapshot s name h =>
          bool_decide (is_Some (rpc_createSnapshot client log s name h))
      end
      && all_accepted client (log ++ [c]) rest
  end.

(** The hosts an enumeration lists for a space. *)
Definition hosts_of (s : Z) (spacesHosts : list (Z * list HostAddr))
  : list HostAddr :=
  flat_map snd (List.filter (fun sh => Z.eqb (fst sh) s) spacesHosts).

(** What a checkpoint list records: the hosts, and for each the directory
    its host answered with. *)
Definition recorded (client : AdminClient) (name : string)
    (info : gmap Z (list CheckpointInfo)) : Prop :=
  forall s c, In c (default [] (info !! s)) ->
    exists log, rpc_createSnapshot client log s name (cp_host c) = Some (cp_dir c).

(** *** Plan layout *)

(** Every node comes after the nodes it depends on: a dependency of a node
    is the identifier of a node added to the plan earlier. *)
Definition dependencies_first (plan : StoragePlan) : Prop :=
  forall pre n post, plan = (pre ++ n :: post)%list ->
    forall d, In d (dependencies_ n) -> exists m, In m pre /\ node_id m = d.

(** The same, read along the list: [seen] holds the identifiers of the
    nodes met so far. *)
Fixpoint ordered_from (seen : list NodeId) (plan : StoragePlan) : Prop :=
  match plan with
  | [] => True
  | n :: rest =>
      (forall d, In d (dependencies_ n) -> In d seen) /\
      ordered_from (node_id n :: seen) rest
  end.

(** What a filter node carries. *)
Definition filter_of (n : PlanNode) : option (StorageExpressionContext * Expression) :=
  match node n with
  | IndexFilterNode _ exprCtx exp _ => Some (exprCtx, exp)
  | _ => None
  end.

(** The number of nodes the planner creates for a context. *)
Definition context_nodes `{CommonBase} (indexMan : IndexManager)
    (p : LookupProcessor) (ctx : IndexQueryContext) : nat :=
  match index_of indexMan p ctx with
  | Some index =>
      length (shape (spec_needData (yieldCols_ p) index ctx)
                    (spec_needFilter index ctx) (isEdge_ (planContext_ p)))
  | None => 0
  end.

(** ** LookupBaseProcessor::requestCheck *)

Module storage.
(** The codes of the storage service that the lookup processor returns. *)
Inductive ErrorCode :=
| SUCCEEDED
| E_SPACE_NOT_FOUND
| E_EDGE_NOT_FOUND
| E_TAG_NOT_FOUND
| E_INVALID_OPERATION
| E_UNKNOWN.

Definition ErrorCode_eqb (a b : ErrorCode) : bool :=
  match a, b with
  | SUCCEEDED, SUCCEEDED | E_SPACE_NOT_FOUND, E_SPACE_NOT_FOUND
  | E_EDGE_NOT_FOUND, E_EDGE_NOT_FOUND | E_TAG_NOT_FOUND, E_TAG_NOT_FOUND
  | E_INVALID_OPERATION, E_INVALID_OPERATION | E_UNKNOWN, E_UNKNOWN => true
  | _, _ => false
  end.
End storage.

Record IndexSpec := mkIndexSpec {
  get_contexts : list IndexQueryContext;
  get_is_edge : bool;
  get_tag_or_edge_id : Z
}.

Record LookupIndexRequest := mkLookupIndexRequest {
  get_space_id : Z;
  get_indices : IndexSpec;
  return_columns_ref : option (list string)   (* [None]: no value *)
}.

(** [SchemaManager], as the processor uses it; [None] is a status that is
    not ok. *)
Record SchemaManager := mkSchemaManager {
  toEdgeName : Z -> Z -> option string;
  getAllVerEdgeSchema : Z -> option (gmap Z (list Schema));
  toTagName : Z -> Z -> option string;
  getAllVerTagSchema : Z -> option (gmap Z (list Schema))
}.

(** Modelled from the spec: [QueryUtils::toReturnColType] is not among the
    sources; the key-kind columns are vid, tag, src, type, rank and dst,
    every other column is [kOther]. *)
Definition is_key_column `{CommonBase} (col : string) : bool :=
  name_in col [kVid; kTag; kSrc; kType; kRank; kDst].

(** The loop over the yield columns, from position [i] on. *)
Fixpoint requestCheck_columns `{CommonBase} (yieldCols : list string) (i : nat)
    (colNames : list string) (deDupColPos : list nat)
  : list string * list nat :=
  match yieldCols with
  | [] => (colNames, deDupColPos)
  | col :: rest =>
      let colNames := (colNames ++ [col])%list in
      let deDupColPos :=
        if is_key_column col then (deDupColPos ++ [i])%list else deDupColPos in
      requestCheck_columns rest (S i) colNames deDupColPos
  end.

(** [getSpaceVidLen] belongs to the storage base processor, which is not
    among the sources: it answers with a code and, on success, sets the vid
    length and the integer-id flag of the space.  [colNames] is
    [resultDataSet_.colNames].  Of the plan context only the members the
    planner reads are kept; a context just built is not for an edge and has
    empty names.  [None] is [schemas_.back()] on an empty vector. *)
Definition requestCheck `{CommonBase}
    (getSpaceVidLen : Z -> storage.ErrorCode * Z * bool)
    (schemaMan : SchemaManager) (req : LookupIndexRequest)
    (p : LookupProcessor) (colNames : list string)
  : option (storage.ErrorCode * LookupProcessor * list string) :=
  let p := mkLookupProcessor (get_space_id req) (planContext_ p) (contexts_ p)
             (yieldCols_ p) (schemas_ p) (deDupColPos_ p) (filterItems_ p)
             (next_node p) in
  let '(retCode, spaceVidLen_, isIntId) := getSpaceVidLen (spaceId_ p) in
  if negb (storage.ErrorCode_eqb retCode storage.SUCCEEDED)
  then Some (retCode, p, colNames)
  else
    let indices := get_indices req in
    let with_context (p : LookupProcessor) (c : PlanContext) :=
      mkLookupProcessor (spaceId_ p) c (contexts_ p) (yieldCols_ p) (schemas_ p)
        (deDupColPos_ p) (filterItems_ p) (next_node p) in
    let with_schemas (p : LookupProcessor) (s : list Schema) :=
      mkLookupProcessor (spaceId_ p) (planContext_ p) (contexts_ p) (yieldCols_ p)
        s (deDupColPos_ p) (filterItems_ p) (next_node p) in
    let p := with_context p (mkPlanContext (get_is_edge indices) "" ""
                               spaceVidLen_ isIntId) in
    let resolved : option (option storage.ErrorCode * LookupProcessor) :=
      if isEdge_ (planContext_ p) then
        let edgeType := get_tag_or_edge_id indices in
        match toEdgeName schemaMan (spaceId_ p) edgeType with
        | None => Some (Some storage.E_EDGE_NOT_FOUND, p)
        | Some edgeName =>
            let c := planContext_ p in
            let p := with_context p (mkPlanContext (isEdge_ c) edgeName (tagName_ c)
                                       (vIdLen_ c) (isIntId_ c)) in
            match getAllVerEdgeSchema schemaMan (spaceId_ p) with
            | None => Some (Some storage.E_EDGE_NOT_FOUND, p)
            | Some allEdges =>
                match allEdges !! edgeType with
                | None => Some (Some storage.E_EDGE_NOT_FOUND, p)
                | Some schemas =>
                    let p := with_schemas p schemas in
                    match last (schemas_ p) with
                    | None => None
                    | Some _ => Some (None, p)
                    end
                end
            end
        end
      else
        let tagId := get_tag_or_edge_id indices in
        match toTagName schemaMan (spaceId_ p) tagId with
        | None => Some (Some storage.E_TAG_NOT_FOUND, p)
        | Some tagName =>
            let c := planContext_ p in
            let p := with_context p (mkPlanContext (isEdge_ c) (edgeName_ c) tagName
                                       (vIdLen_ c) (isIntId_ c)) in
            match getAllVerTagSchema schemaMan (spaceId_ p) with
            | None => Some (Some storage.E_TAG_NOT_FOUND, p)
            | Some allTags =>
                match allTags !! tagId with
                | None => Some (Some storage.E_TAG_NOT_FOUND, p)
                | Some schemas =>
                    let p := with_schemas p schemas in
                    match last (schemas_ p) with
                    | None => None
                    | Some _ => Some (None, p)
                    end
                end
            end
        end in
    match resolved with
    | None => None
    | Some (Some e, p) => Some (e, p, colNames)
    | Some (None, p) =>
        if (Nat.eqb (length (get_contexts indices)) 0
            || negb (bool_decide (is_Some (return_columns_ref req)))
            || Nat.eqb (length (default [] (return_columns_ref req))) 0)%bool
        then Some (storage.E_INVALID_OPERATION, p, colNames)
        else
          let p := mkLookupProcessor (spaceId_ p) (planContext_ p)
                     (get_contexts indices) (yieldCols_ p) (schemas_ p)
                     (deDupColPos_ p) (filterItems_ p) (next_node p) in
          (* setup yield columns. *)
          let p :=
            match return_columns_ref req with
            | Some cols =>
                mkLookupProcessor (spaceId_ p) (planContext_ p) (contexts_ p) cols
                  (schemas_ p) (deDupColPos_ p) (filterItems_ p) (next_node p)
            | None => p
            end in
          let '(colNames, deDupColPos) :=
            requestCheck_columns (yieldCols_ p) 0 colNames (deDupColPos_ p) in
          let p := mkLookupProcessor (spaceId_ p) (planContext_ p) (contexts_ p)
                     (yieldCols_ p) (schemas_ p) deDupColPos (filterItems_ p)
                     (next_node p) in
          Some (storage.SUCCEEDED, p, colNames)
    end.

(** ** ListHostsProcessor: hosts and their heartbeat status *)

Inductive ListHostType := LIST_ALLOC | LIST_GRAPH | LIST_META | LIST_STORAGE.

Inductive HostRole :=
| ROLE_GRAPH | ROLE_META | ROLE_STORAGE | ROLE_LISTENER | ROLE_UNKNOWN.

Definition HostRole_eqb (a b : HostRole) : bool :=
  match a, b with
  | ROLE_GRAPH, ROLE_GRAPH | ROLE_META, ROLE_META | ROLE_STORAGE, ROLE_STORAGE
  | ROLE_LISTENER, ROLE_LISTENER | ROLE_UNKNOWN, ROLE_UNKNOWN => true
  | _, _ => false
  end.

Inductive HostStatus := ONLINE | OFFLINE.

Definition toHostRole (type : ListHostType) : HostRole :=
  match type with
  | LIST_GRAPH => ROLE_GRAPH
  | LIST_META => ROLE_META
  | LIST_STORAGE => ROLE_STORAGE
  | _ => ROLE_UNKNOWN
  end.

Record HostInfo := mkHostInfo {
  lastHBTimeInMilliSec_ : Z;     (* int64_t *)
  role_ : HostRole;
  gitInfoSha_ : string
}.

Record HostItem := mkHostItem {
  item_hostAddr : HostAddr;
  item_role : HostRole;
  item_git_info_sha : string;
  item_status : HostStatus
}.

(** The gflags the processor reads: two [int32] and one [uint32]. *)
Record Flags := mkFlags {
  heartbeat_interval_secs : Z;   (* int32 *)
  expired_time_factor : Z;       (* uint32 *)
  removed_threshold_sec : Z      (* int32 *)
}.

(** The host table codec and the raft view of the meta partition, which are
    not among the sources. *)
Class HostRegistry := {
  hostPrefix : string;
  parseHostKey : string -> HostAddr;
  HostInfo_decode : string -> HostInfo;
  (* kvstore_->part(kDefaultSpaceId, kDefaultPartId), then peers() *)
  metaPeers : NebulaStore -> ErrorOr kvstore.ResultCode (list HostAddr);
  getStoreAddrFromRaftAddr : HostAddr -> HostAddr;
  gitInfoSha : string
}.

(** Two's-complement wrap-around of a 64-bit signed integer, and the value
    of an integer converted to [uint32_t]. *)
Definition wrap64 (z : Z) : Z := (z + 2 ^ 63) mod 2 ^ 64 - 2 ^ 63.
Definition to_uint32 (z : Z) : Z := z mod 2 ^ 32.

(** [now - info.lastHBTimeInMilliSec_], an [int64_t]. *)
Definition heartbeat_age (now : Z) (info : HostInfo) : Z :=
  wrap64 (now - lastHBTimeInMilliSec_ info).

(** [FLAGS_removed_threshold_sec * 1000], an [int]. *)
Definition removed_threshold_ms (flags : Flags) : Z :=
  wrap32 (removed_threshold_sec flags * 1000).

(** [FLAGS_heartbeat_interval_secs * FLAGS_expired_time_factor * 1000]: the
    [int32] operand is converted to [uint32_t] and so is the product. *)
Definition expired_threshold_ms (flags : Flags) : Z :=
  to_uint32 (to_uint32 (to_uint32 (heartbeat_interval_secs flags)
                        * expired_time_factor flags) * 1000).

(** The nested test on the age of a heartbeat: the status of the host, or
    [None] when its key is queued for removal. *)
Definition host_status (flags : Flags) (now : Z) (info : HostInfo)
  : option HostStatus :=
  if Z.ltb (heartbeat_age now info) (removed_threshold_ms flags) then
    (* If meta didn't receive heartbeat with 2 periods, regard hosts as offline. *)
    if Z.ltb (heartbeat_age now info) (expired_threshold_ms flags)
    then Some ONLINE
    else Some OFFLINE
  else None.

(** The flags hold values of their types and the two products do not
    overflow. *)
Definition thresholds_fit (flags : Flags) : Prop :=
  0 <= heartbeat_interval_secs flags < 2 ^ 31 /\
  0 <= expired_time_factor flags < 2 ^ 32 /\
  0 <= removed_threshold_sec flags < 2 ^ 31 /\
  heartbeat_interval_secs flags * expired_time_factor flags * 1000 < 2 ^ 32 /\
  removed_threshold_sec flags * 1000 < 2 ^ 31.

(** [removeExpiredHosts]: the removal is asynchronous and its code is only
    logged; it is taken as applied when the call returns. *)
Definition removeExpiredHosts (removeHostsKey : list string) (s : NebulaStore)
  : NebulaStore :=
  if Nat.eqb (length removeHostsKey) 0 then s
  else snd (engine_multiRemove removeHostsKey s).

Section ListHosts.
Context `{HostRegistry}.
Variable flags : Flags.

Definition allMetaHostsStatus (hostItems_ : list HostItem) (s : NebulaStore)
  : cpp2.ErrorCode * list HostItem :=
  match metaPeers s with
  | inl e => (MetaCommon_to e, hostItems_)
  | inr metaPeers =>
      (* transform raft port to servre port *)
      let metaPeers := List.map getStoreAddrFromRaftAddr metaPeers in
      (cpp2.SUCCEEDED,
       (hostItems_ ++
        List.map (fun host => mkHostItem host ROLE_META gitInfoSha ONLINE)
                 metaPeers)%list)
  end.

(** The body of the loop over the host table. *)
Definition allHostsWithStatus_entry (role : HostRole) (now : Z)
    (acc : list HostItem * list string) (e : string * string)
  : list HostItem * list string :=
  let '(hostItems_, removeHostsKey) := acc in
  let info := HostInfo_decode (snd e) in
  if negb (HostRole_eqb (role_ info) role) then acc
  else
    let host := parseHostKey (fst e) in
    match host_status flags now info with
    | Some status =>
        ((hostItems_ ++ [mkHostItem host (role_ info) (gitInfoSha_ info) status])%list,
         removeHostsKey)
    | None => (hostItems_, (removeHostsKey ++ [fst e])%list)
    end.

(** [now] is what [WallClock::fastNowInMilliSec] returns.  The items are
    appended in the order the iterator yields the hosts. *)
Definition allHostsWithStatus (role : HostRole) (now : Z)
    (hostItems_ : list HostItem) (s : NebulaStore)
  : cpp2.ErrorCode * list HostItem * NebulaStore :=
  if HostRole_eqb role ROLE_META
  then let '(code, items) := allMetaHostsStatus hostItems_ s in (code, items, s)
  else
    let '(ret, s') := doPrefix hostPrefix s in
    match ret with
    | inl retCode =>
        let retCode :=
          if negb (cpp2.ErrorCode_eqb retCode cpp2.E_LEADER_CHANGED)
          then cpp2.E_NO_HOSTS else retCode in
        (retCode, hostItems_, s')
    | inr iter =>
        let '(hostItems_, removeHostsKey) :=
          fold_left (allHostsWithStatus_entry role now) iter (hostItems_, []) in
        (cpp2.SUCCEEDED, hostItems_, removeExpiredHosts removeHostsKey s')
    end.
End ListHosts.

(** The host record [(k, v)] belongs to [role] and its heartbeat is too old
    to keep. *)
Definition expired_host `{HostRegistry} (flags : Flags) (role : HostRole) (now : Z)
    (e : string * string) : Prop :=
  role_ (HostInfo_decode (snd e)) = role /\
  host_status flags now (HostInfo_decode (snd e)) = None.

(** The item listed for the host record [(k, v)], if any. *)
Definition listed_item `{HostRegistry} (flags : Flags) (role : HostRole) (now : Z)
    (e : string * string) : option HostItem :=
  if HostRole_eqb (role_ (HostInfo_decode (snd e))) role then
    (fun status => mkHostItem (parseHostKey (fst e)) (role_ (HostInfo_decode (snd e)))
                     (gitInfoSha_ (HostInfo_decode (snd e))) status)
    <$> host_status flags now (HostInfo_decode (snd e))
  else None.

(** ** Further concrete worlds *)

Definition demo_processor : Processor :=
  mkProcessor (demo_store exporting_codec) cpp2.E_UNKNOWN 0.

(** The backup of every space of the concrete store with every host
    answering, and the state it ends in. *)
Definition demo_backup_result : BackupState :=
  default (demo_backup_state exporting_codec)
    (@CreateBackupProcessor_process exporting_codec steady_client both_hosts_active
       "T" (mkCreateBackupReq None) (demo_backup_state exporting_codec)).

(** The concrete store with an index rebuild in progress. *)
Definition rebuilding_state : BackupState :=
  @mkBackupState exporting_codec
    (mkProcessor
       (mkStore (<["__rebuild_index_status__" +:+ encodeInt32 1 := "RUNNING"]>
                   (demo_table exporting_codec)) [] true)
       cpp2.E_UNKNOWN 0) ∅ [] None.

(** The drop of the space "S" and the state it ends in. *)
Definition demo_drop_result : Processor :=
  default demo_processor
    (@DropSpaceProcessor_process exporting_codec (mkDropSpaceReq "S" false) 1000
       demo_processor).

Definition index_c1_c2_c3 : IndexItem :=
  mkIndexItem 2 "i123" (tag_id 1)
    [mkColumnDef "c1" false; mkColumnDef "c2" false; mkColumnDef "c3" false].

(** The schema manager of the tag with id 1, named "t", and a lookup
    request on it that returns the vertex id and [c3]. *)
Definition demo_schemaMan : SchemaManager :=
  mkSchemaManager
    (fun _ _ => None) (fun _ => None)
    (fun _ id => if Z.eqb id 1 then Some "t" else None)
    (fun _ => Some {[ 1 := [mkSchema [mkColumnDef "c1" false; mkColumnDef "c2" false;
                                       mkColumnDef "c3" false]] ]}).

Definition demo_request : LookupIndexRequest :=
  mkLookupIndexRequest 1
    (mkIndexSpec [mkIndexQueryContext 1 [mkIndexColumnHint "c1" PREFIX] None] false 1)
    (Some ["_vid"; "c3"; "_tag"]).

Definition fresh_lookup : LookupProcessor :=
  mkLookupProcessor 0 (mkPlanContext false "" "" 0 false) [] [] [] [] ∅ 0%nat.

Definition demo_checked_lookup : LookupProcessor :=
  match @requestCheck demo_names (fun _ => (storage.SUCCEEDED, 8, false))
          demo_schemaMan demo_request fresh_lookup [] with
  | Some (_, p, _) => p
  | None => fresh_lookup
  end.

(** A host table: keys are a textual prefix and the host name, values a
    role letter followed by the last heartbeat as an int32 of seconds. *)
Definition demo_hosts : HostRegistry := {|
  hostPrefix := "__hosts__";
  parseHostKey := fun key => mkHostAddr (drop_bytes 9 key) 9779;
  HostInfo_decode := fun val =>
    mkHostInfo (1000 * default 0 (decodeInt32 (drop_bytes 1 val)))
               (if String.prefix "S" val then ROLE_STORAGE else ROLE_GRAPH) "sha";
  metaPeers := fun _ => inr [];
  getStoreAddrFromRaftAddr := fun h => h;
  gitInfoSha := "sha"
|}.

Definition default_flags : Flags := mkFlags 10 5 86400.

(** Three storage hosts that sent their last heartbeat 20 seconds, 100
    seconds and two days before [now = 200000] seconds, and a graph host. *)
Definition demo_host_store : NebulaStore :=
  mkStore (<["__hosts__a" := "S" +:+ encodeInt32 199980]>
          (<["__hosts__b" := "S" +:+ encodeInt32 199900]>
          (<["__hosts__c" := "S" +:+ encodeInt32 27200]>
          (<["__hosts__g" := "G" +:+ encodeInt32 199990]> ∅)))) [] true.

(** * Properties *)

Local Open Scope list_scope.

(** ** The index consistency checker *)

Lemma find_col_In tCol indexCols :
  find_col tCol indexCols = true <->
  exists iCol, In iCol indexCols /\ col_name tCol = col_name iCol.
Proof.
  unfold find_col. rewrite existsb_exists.
  split; intros [iCol [Hin Heq]]; exists iCol; split; auto.
  - now apply String.eqb_eq.
  - now apply String.eqb_eq.
Qed.

Lemma indexCheck_cols_In tagCols indexCols :
  indexCheck_cols tagCols indexCols = true <->
  exists tCol iCol, In tCol tagCols /\ In iCol indexCols /\
                    col_name tCol = col_name iCol.
Proof.
  induction tagCols as [|tCol rest IH]; simpl.
  - split; [discriminate | intros (? & ? & [] & _)].
  - destruct (find_col tCol indexCols) eqn:Hf.
    + split; [intros _ | reflexivity].
      apply find_col_In in Hf as (iCol & Hin & Heq).
      exists tCol, iCol. auto.
    + rewrite IH. split.
      * intros (t & i & Ht & Hi & Heq). exists t, i. auto.
      * intros (t & i & [<- | Ht] & Hi & Heq).
        -- assert (find_col tCol indexCols = true) by (apply find_col_In; eauto).
           congruence.
        -- exists t, i. auto.
Qed.

Lemma is_change_or_drop_iff op :
  is_change_or_drop op = true <-> op = cpp2.CHANGE \/ op = cpp2.DROP.
Proof. destruct op; simpl; intuition congruence. Qed.

Lemma indexCheck_alters_In index alterItems :
  indexCheck_alters index alterItems = true <->
  exists tagItem tCol iCol,
    In tagItem alterItems /\
    (get_op tagItem = cpp2.CHANGE \/ get_op tagItem = cpp2.DROP) /\
    In tCol (get_columns (get_schema tagItem)) /\
    In iCol (get_fields index) /\ col_name tCol = col_name iCol.
Proof.
  induction alterItems as [|a rest IH]; simpl.
  - split; [discriminate | intros (? & ? & ? & [] & _)].
  - destruct (is_change_or_drop (get_op a)) eqn:Hop.
    + destruct (indexCheck_cols _ _) eqn:Hc.
      * split; [intros _ | reflexivity].
        apply indexCheck_cols_In in Hc as (t & i & Ht & Hi & Heq).
        apply is_change_or_drop_iff in Hop.
        exists a, t, i. auto 10.
      * rewrite IH. split.
        -- intros (x & t & i & Hx & H'). exists x, t, i. auto.
        -- intros (x & t & i & [<- | Hx] & Hk & Ht & Hi & Heq).
           ++ assert (indexCheck_cols (get_columns (get_schema a)) (get_fields index) = true)
                by (apply indexCheck_cols_In; eauto).
              congruence.
           ++ exists x, t, i. auto.
    + rewrite IH. split.
      * intros (x & t & i & Hx & H'). exists x, t, i. auto.
      * intros (x & t & i & [<- | Hx] & Hk & H').
        -- apply is_change_or_drop_iff in Hk. congruence.
        -- exists x, t, i. auto.
Qed.

Lemma indexCheck_conflict items alterItems :
  indexCheck items alterItems = cpp2.E_CONFLICT <-> conflicts items alterItems.
Proof.
  unfold conflicts. induction items as [|index rest IH]; simpl.
  - split; [discriminate | intros (? & ? & ? & ? & [] & _)].
  - destruct (indexCheck_alters index alterItems) eqn:Ha.
    + split; [intros _ | reflexivity].
      apply indexCheck_alters_In in Ha as (x & t & i & H').
      exists index, x, t, i. intuition.
    + rewrite IH. split.
      * intros (ix & x & t & i & Hix & H'). exists ix, x, t, i. auto.
      * intros (ix & x & t & i & [<- | Hix] & H').
        -- assert (indexCheck_alters index alterItems = true)
             by (apply indexCheck_alters_In; eauto).
           congruence.
        -- exists ix, x, t, i. auto.
Qed.

Lemma indexCheck_codes items alterItems :
  indexCheck items alterItems = cpp2.SUCCEEDED \/
  indexCheck items alterItems = cpp2.E_CONFLICT.
Proof.
  induction items as [|index rest IH]; simpl; auto.
  destruct (indexCheck_alters index alterItems); auto.
Qed.

Lemma indexCheck_alters_skip_add index alterItems :
  indexCheck_alters index alterItems =
  indexCheck_alters index (List.filter (fun a => negb (is_add (get_op a))) alterItems).
Proof.
  induction alterItems as [|a rest IH]; simpl; auto.
  destruct (get_op a) eqn:Hop; simpl; rewrite ?Hop; simpl; rewrite <- ?IH; auto.
Qed.

(** C7: [indexCheck] answers SUCCEEDED exactly when no CHANGE or DROP item
    alters a column that some existing index lists, and E_CONFLICT exactly
    when one does; ADD items never cause a rejection: dropping them from the
    alter items leaves the answer unchanged. *)
Theorem indexCheck_spec (items : list IndexItem) (alterItems : list AlterSchemaItem) :
  (indexCheck items alterItems = cpp2.SUCCEEDED <-> ~ conflicts items alterItems) /\
  (indexCheck items alterItems = cpp2.E_CONFLICT <-> conflicts items alterItems) /\
  indexCheck items alterItems =
  indexCheck items (List.filter (fun a => negb (is_add (get_op a))) alterItems).
Proof.
  split; [|split].
  - rewrite <- indexCheck_conflict.
    destruct (indexCheck_codes items alterItems) as [-> | ->]; split; congruence.
  - apply indexCheck_conflict.
  - induction items as [|index rest IH]; simpl; auto.
    rewrite <- indexCheck_alters_skip_add, IH. reflexivity.
Qed.

(** The two checks of the index-consistency scenario: an index over
    [(a, b)] against a DROP of [(b, c)], then against an ADD of [d]. *)
Example indexCheck_drop_conflicts :
  indexCheck [mkIndexItem 1 "I" (tag_id 1) [mkColumnDef "a" false; mkColumnDef "b" false]]
             [mkAlterSchemaItem cpp2.DROP
                (mkSchema [mkColumnDef "b" false; mkColumnDef "c" false])]
  = cpp2.E_CONFLICT.
Proof. reflexivity. Qed.

Example indexCheck_add_passes :
  indexCheck [mkIndexItem 1 "I" (tag_id 1) [mkColumnDef "a" false; mkColumnDef "b" false]]
             [mkAlterSchemaItem cpp2.ADD (mkSchema [mkColumnDef "d" false])]
  = cpp2.SUCCEEDED.
Proof. reflexivity. Qed.

Section CheckIndexExistLoop.
Variable fields : list IndexFieldDef.
Variable itemFields : list ColumnDef.

Local Notation "'same_name' j" := (same_name_at fields itemFields j) (at level 10, j at level 9).

Lemma same_name_test i f c :
  fields !! i = Some f -> itemFields !! i = Some c ->
  (negb (String.eqb (field_name f) (col_name c)) = false <-> same_name i).
Proof.
  intros Hf Hc. unfold same_name_at. rewrite Hf, Hc. simpl.
  rewrite negb_false_iff, String.eqb_eq. split; congruence.
Qed.

Lemma loop_outcome fuel : forall i,
  (i + fuel = length fields)%nat ->
  match checkIndexExist_loop fields itemFields fuel i with
  | Some true =>
      (0 < fuel)%nat /\ forall j, (i <= j < length fields)%nat -> same_name j
  | Some false =>
      fuel = O \/
      exists j, (i <= j < length fields)%nat /\ (j < length itemFields)%nat /\
                ~ same_name j /\
                forall j', (i <= j' < j)%nat -> same_name j'
  | None =>
      exists j, (i <= j < length fields)%nat /\ (length itemFields <= j)%nat /\
                forall j', (i <= j' < j)%nat -> same_name j'
  end.
Proof.
  induction fuel as [|fuel IH]; intros i Hi; simpl.
  - now left.
  - destruct (fields !! i) as [f|] eqn:Hf.
    2:{ apply lookup_ge_None in Hf. lia. }
    destruct (itemFields !! i) as [c|] eqn:Hc.
    2:{ apply lookup_ge_None in Hc. exists i. split; [lia|]. split; [lia|].
        intros j' ?. lia. }
    assert (Hlt : (i < length itemFields)%nat) by (eapply lookup_lt_Some; eauto).
    destruct (negb (String.eqb (field_name f) (col_name c))) eqn:Hne.
    + right. exists i. split; [lia|]. split; [lia|]. split.
      * intros Hs. apply (same_name_test i f c Hf Hc) in Hs. congruence.
      * intros j' ?. lia.
    + apply (same_name_test i f c Hf Hc) in Hne.
      destruct (Nat.eqb i (length fields - 1)) eqn:Hlast.
      * apply Nat.eqb_eq in Hlast. split; [lia|].
        intros j Hj. assert (j = i) by lia. now subst.
      * apply Nat.eqb_neq in Hlast.
        specialize (IH (S i) ltac:(lia)).
        destruct (checkIndexExist_loop fields itemFields fuel (S i)) as [[|]|].
        -- destruct IH as [_ IH]. split; [lia|].
           intros j Hj. destruct (Nat.eq_dec j i) as [->|]; auto. apply IH. lia.
        -- right. destruct IH as [-> | (j & Hj & Hjl & Hn & Hbefore)]; [lia|].
           exists j. split; [lia|]. split; [lia|]. split; [auto|].
           intros j' Hj'. destruct (Nat.eq_dec j' i) as [->|]; auto.
           apply Hbefore. lia.
        -- destruct IH as (j & Hj & Hjl & Hbefore).
           exists j. split; [lia|]. split; [lia|].
           intros j' Hj'. destruct (Nat.eq_dec j' i) as [->|]; auto.
           apply Hbefore. lia.
Qed.
End CheckIndexExistLoop.

Lemma checkIndexExist_outcome fields item :
  match checkIndexExist fields item with
  | Some true => names_match fields item
  | Some false =>
      exists j, (j < length fields)%nat /\ (j < length (get_fields item))%nat /\
                field_name <$> (fields !! j) <> col_name <$> (get_fields item !! j)
  | None => strictly_extends fields item
  end.
Proof.
  unfold checkIndexExist.
  destruct (Nat.eqb (length fields) 0) eqn:He.
  - apply Nat.eqb_eq in He. intros i Hi. lia.
  - apply Nat.eqb_neq in He.
    pose proof (loop_outcome fields (get_fields item) (length fields) 0%nat eq_refl) as L.
    destruct (checkIndexExist_loop _ _ _ _) as [[|]|].
    + destruct L as [_ L]. intros i Hi. apply L. lia.
    + destruct L as [L | (j & Hj & Hjl & Hn & _)]; [lia|].
      exists j. split; [lia|]. split; auto.
    + destruct L as (j & Hj & Hjl & Hbefore).
      split; [lia|]. intros i Hi. apply Hbefore. lia.
Qed.

Lemma names_match_not_extends fields item :
  names_match fields item -> ~ strictly_extends fields item.
Proof.
  intros Hm [Hlen _].
  specialize (Hm (length (get_fields item)) Hlen).
  rewrite (lookup_ge_None_2 (get_fields item)) in Hm by lia.
  destruct (lookup_lt_is_Some_2 fields _ Hlen) as [f Hf].
  rewrite Hf in Hm. discriminate.
Qed.

(** C8: when [fields] is no longer than the fields of the item,
    [checkIndexExist] answers true for empty [fields], and otherwise true
    exactly when the names agree at every position of [fields], false when
    they do not. *)
Theorem checkIndexExist_spec (fields : list IndexFieldDef) (item : IndexItem) :
  (length fields <= length (get_fields item))%nat ->
  (fields = [] -> checkIndexExist fields item = Some true) /\
  (checkIndexExist fields item = Some true <-> names_match fields item) /\
  (checkIndexExist fields item = Some false <-> ~ names_match fields item).
Proof.
  intros Hlen.
  pose proof (checkIndexExist_outcome fields item) as O.
  split; [intros ->; reflexivity|].
  destruct (checkIndexExist fields item) as [[|]|].
  - split; split; intros; try congruence; try tauto.
  - destruct O as (j & Hj & Hjl & Hne).
    assert (~ names_match fields item) by (intros Hm; apply Hne, Hm; auto).
    split; split; intros; try congruence; try tauto.
  - destruct O as [Hlt _]. lia.
Qed.

Lemma checkIndexExist_spec_witness :
  let fields := [mkIndexFieldDef "a" None; mkIndexFieldDef "b" None] in
  let item := mkIndexItem 7 "i" (tag_id 2)
                [mkColumnDef "a" false; mkColumnDef "b" false; mkColumnDef "c" false] in
  (fields = [] -> checkIndexExist fields item = Some true) /\
  (checkIndexExist fields item = Some true <-> names_match fields item) /\
  (checkIndexExist fields item = Some false <-> ~ names_match fields item).
Proof.
  apply (checkIndexExist_spec
           [mkIndexFieldDef "a" None; mkIndexFieldDef "b" None]
           (mkIndexItem 7 "i" (tag_id 2)
              [mkColumnDef "a" false; mkColumnDef "b" false; mkColumnDef "c" false])).
  simpl. lia.
Defined.

Example checkIndexExist_empty item : checkIndexExist [] item = Some true.
Proof. reflexivity. Qed.

(** C10: the loop of [checkIndexExist] indexes the fields of the item
    without looking at their number.  When [fields] is no longer than the
    fields of the item no access leaves the vector; the condition cannot be
    dropped: the call reads past the end exactly when the names of the item
    are a proper prefix of the names of [fields], the first access out of
    bounds being the one at position [length (get_fields item)]. *)
Theorem checkIndexExist_bounds (fields : list IndexFieldDef) (item : IndexItem) :
  ((length fields <= length (get_fields item))%nat ->
   checkIndexExist fields item <> None) /\
  (checkIndexExist fields item = None <-> strictly_extends fields item).
Proof.
  pose proof (checkIndexExist_outcome fields item) as O.
  assert (Hiff : checkIndexExist fields item = None <-> strictly_extends fields item).
  { destruct (checkIndexExist fields item) as [[|]|].
    - split; [discriminate|]. intros E. now apply names_match_not_extends in E.
    - split; [discriminate|]. intros [Hlt Hall].
      destruct O as (j & Hj & Hjl & Hne). exfalso. apply Hne, Hall. auto.
    - split; auto. }
  split; auto.
  intros Hlen Hn. apply Hiff in Hn. destruct Hn. lia.
Qed.

Lemma checkIndexExist_bounds_witness :
  checkIndexExist [mkIndexFieldDef "a" None; mkIndexFieldDef "b" None]
                  (mkIndexItem 7 "i" (tag_id 2) [mkColumnDef "a" false]) = None /\
  checkIndexExist [mkIndexFieldDef "a" None]
                  (mkIndexItem 7 "i" (tag_id 2) [mkColumnDef "a" false]) <> None.
Proof.
  split.
  - apply (proj2 (checkIndexExist_bounds
                    [mkIndexFieldDef "a" None; mkIndexFieldDef "b" None]
                    (mkIndexItem 7 "i" (tag_id 2) [mkColumnDef "a" false]))).
    split; [simpl; lia|].
    intros i Hi. simpl in Hi. assert (i = O) by lia. subst. reflexivity.
  - apply (proj1 (checkIndexExist_bounds
                    [mkIndexFieldDef "a" None]
                    (mkIndexItem 7 "i" (tag_id 2) [mkColumnDef "a" false]))).
    simpl. lia.
Defined.

(** ** The id allocator *)

Lemma Z_of_byte_of_Z z : Z_of_byte (byte_of_Z z) = z mod 256.
Proof.
  unfold Z_of_byte, byte_of_Z.
  assert (0 <= z mod 256 < 256) by (apply Z.mod_pos_bound; lia).
  rewrite N_ascii_embedding by lia.
  lia.
Qed.

Lemma decode_encode v :
  INT32_MIN <= v <= INT32_MAX -> decodeInt32 (encodeInt32 v) = Some v.
Proof.
  unfold INT32_MIN, INT32_MAX, decodeInt32, encodeInt32. intros Hv.
  rewrite !Z_of_byte_of_Z. f_equal. unfold wrap32.
  change (2 ^ 8) with 256. change (2 ^ 16) with 65536.
  change (2 ^ 24) with 16777216. change (2 ^ 32) with 4294967296 in *.
  change (2 ^ 31) with 2147483648 in *.
  Z.to_euclidean_division_equations. lia.
Qed.

Lemma wrap32_id v : INT32_MIN <= v <= INT32_MAX -> wrap32 v = v.
Proof.
  unfold INT32_MIN, INT32_MAX, wrap32. intros Hv.
  change (2 ^ 32) with 4294967296 in *.
  change (2 ^ 31) with 2147483648 in *.
  Z.to_euclidean_division_equations. lia.
Qed.

Lemma next_outcome_kv s o s' : next_outcome s = (o, s') -> kv s' = kv s.
Proof.
  unfold next_outcome. destruct (outcomes s); intros [= <- <-]; reflexivity.
Qed.

Lemma next_outcome_healthy s :
  healthy s -> exists s', next_outcome s = (None, s') /\ healthy s' /\ kv s' = kv s.
Proof.
  unfold healthy, next_outcome. intros Hh.
  destruct (outcomes s) as [|o rest] eqn:Ho.
  - exists s. rewrite Ho. auto.
  - inversion Hh; subst. eexists. split; [reflexivity|]. simpl. auto.
Qed.

Lemma fault_code_not_ok f :
  kvstore.ResultCode_eqb (fault_code f) kvstore.SUCCEEDED = false /\
  kvstore.ResultCode_eqb (fault_code f) kvstore.ERR_KEY_NOT_FOUND = false.
Proof. destruct f; auto. Qed.











(** The first call on a fresh store. *)
Example autoIncrementId_fresh :
  fst <$> autoIncrementId (mkStore ∅ [] true) = Some (inr 1).
Proof. reflexivity. Qed.

(** At INT32_MAX the stored counter wraps around. *)
Example autoIncrementId_wraps :
  fst <$> autoIncrementId (mkStore {[ kIdKey := encodeInt32 INT32_MAX ]} [] true)
  = Some (inr INT32_MIN).
Proof. vm_compute. reflexivity. Qed.

(** ** isOutsideIndex *)

Section ExpressionInduction.
Variable P : Expression -> Prop.
Hypothesis Hconst : forall v, P (ConstantExpression v).
Hypothesis Hunary : forall k o, P o -> P (UnaryExpression k o).
Hypothesis Harith : forall k l r, P l -> P r -> P (ArithmeticExpression k l r).
Hypothesis Hrel : forall k l r, P l -> P r -> P (RelationalExpression k l r).
Hypothesis Hlogical : forall k ops, List.Forall P ops -> P (LogicalExpression k ops).
Hypothesis Hprop : forall k prop, P (PropertyExpression k prop).
Hypothesis Hcall : forall name args, List.Forall P args -> P (FunctionCallExpression name args).

Fixpoint Expression_nested_ind (e : Expression) : P e :=
  let fix all (l : list Expression) : List.Forall P l :=
    match l with
    | [] => @List.Forall_nil _ P
    | x :: rest => @List.Forall_cons _ P x rest (Expression_nested_ind x) (all rest)
    end in
  match e with
  | ConstantExpression v => Hconst v
  | UnaryExpression k o => Hunary k o (Expression_nested_ind o)
  | ArithmeticExpression k l r =>
      Harith k l r (Expression_nested_ind l) (Expression_nested_ind r)
  | RelationalExpression k l r =>
      Hrel k l r (Expression_nested_ind l) (Expression_nested_ind r)
  | LogicalExpression k ops => Hlogical k ops (all ops)
  | PropertyExpression k prop => Hprop k prop
  | FunctionCallExpression name args => Hcall name args (all args)
  end.
End ExpressionInduction.

Lemma name_in_In name names : name_in name names = true <-> In name names.
Proof.
  unfold name_in. rewrite existsb_exists. split.
  - intros (x & Hin & Heq). apply String.eqb_eq in Heq. now subst.
  - intros Hin. exists name. split; auto. apply String.eqb_refl.
Qed.

Lemma find_field_In propName index :
  find_field propName (get_fields index) = true <-> In propName (field_names index).
Proof.
  unfold find_field, field_names. rewrite existsb_exists, in_map_iff. split.
  - intros (f & Hin & Heq). apply String.eqb_eq in Heq. eauto.
  - intros (f & Heq & Hin). exists f. split; auto. now apply String.eqb_eq.
Qed.

Section IsOutsideIndex.
Context `{CommonBase}.

Lemma isOutsideIndex_leaf index k prop :
  isOutsideIndex (PropertyExpression k prop) index = false <->
  leaf_inside index k prop.
Proof.
  unfold leaf_inside.
  destruct k; cbn [isOutsideIndex is_schema_prop is_edge_key];
    rewrite ?negb_false_iff, ?find_field_In, ?name_in_In;
    unfold propsInEdgeKey; intuition congruence.
Qed.

Lemma reached_leaf_only k prop x :
  reached (PropertyExpression k prop) x -> x = PropertyExpression k prop.
Proof. inversion 1; reflexivity. Qed.

(** The answer is [false] exactly when every property leaf the recursion
    reaches is served by the index. *)
Lemma isOutsideIndex_false_iff e index :
  isOutsideIndex e index = false <->
  forall k prop, reached e (PropertyExpression k prop) -> leaf_inside index k prop.
Proof.
  induction e as [v|k o IHo|k l r IHl IHr|k l r IHl IHr|k ops IHops|k prop|name args IHargs]
    using Expression_nested_ind.
  - split; [|reflexivity]. intros _ k prop Hr. inversion Hr.
  - split; [|reflexivity]. intros _ k' prop Hr. inversion Hr.
  - split; [|reflexivity]. intros _ k' prop Hr. inversion Hr.
  - destruct (is_compared k) eqn:Hk.
    + assert (Hunf : isOutsideIndex (RelationalExpression k l r) index =
                     isOutsideIndex l index || isOutsideIndex r index).
      { destruct k; try discriminate; simpl;
          destruct (isOutsideIndex l index), (isOutsideIndex r index); reflexivity. }
      rewrite Hunf, orb_false_iff, IHl, IHr. split.
      * intros [Hl Hr] k' prop Hreach. inversion Hreach; subst; eauto.
      * intros Hall. split; intros k' prop Hreach.
        -- apply Hall. now apply reached_rel_l.
        -- apply Hall. now apply reached_rel_r.
    + assert (Hunf : isOutsideIndex (RelationalExpression k l r) index = false)
        by (destruct k; try discriminate; reflexivity).
      rewrite Hunf. split; [|reflexivity].
      intros _ k' prop Hreach. inversion Hreach; subst; congruence.
  - destruct (is_and_or k) eqn:Hk.
    + assert (Hunf : isOutsideIndex (LogicalExpression k ops) index =
                     existsb (fun expr => isOutsideIndex expr index) ops)
        by (destruct k; try discriminate; reflexivity).
      rewrite Hunf. split.
      * intros Hnone k' prop Hreach. inversion Hreach; subst.
        rewrite List.Forall_forall in IHops.
        apply (IHops o); auto.
        destruct (isOutsideIndex o index) eqn:Ho; auto.
        assert (existsb (fun expr => isOutsideIndex expr index) ops = true)
          by (apply existsb_exists; eauto).
        congruence.
      * intros Hall.
        destruct (existsb _ ops) eqn:Hex; auto.
        apply existsb_exists in Hex as (o & Hin & Ho).
        rewrite List.Forall_forall in IHops.
        assert (isOutsideIndex o index = false); [|congruence].
        apply (IHops o Hin). intros k' prop Hreach.
        apply Hall. eapply reached_logical; eauto.
    + assert (Hunf : isOutsideIndex (LogicalExpression k ops) index = false)
        by (destruct k; try discriminate; reflexivity).
      rewrite Hunf. split; [|reflexivity].
      intros _ k' prop Hreach. inversion Hreach; subst; congruence.
  - rewrite isOutsideIndex_leaf. split.
    + intros Hin k' prop' Hreach. apply reached_leaf_only in Hreach.
      now inversion Hreach; subst.
    + intros Hall. apply Hall. constructor.
  - split; [|reflexivity]. intros _ k' prop Hr. inversion Hr.
Qed.

(** C4, as amended: when [isOutsideIndex] answers false, every tag or edge
    property leaf that lies below the filter under AND/OR nodes and the
    listed comparisons only names an index field, and every edge-key leaf so
    placed carries one of the four key names. *)
Theorem isOutsideIndex_reached_inside (e : Expression) (index : IndexItem) :
  isOutsideIndex e index = false ->
  forall k prop, reached e (PropertyExpression k prop) -> leaf_inside index k prop.
Proof. apply isOutsideIndex_false_iff. Qed.

End IsOutsideIndex.

Lemma isOutsideIndex_reached_inside_witness :
  @leaf_inside plain_names index_c1_c2 kTagProperty "c1".
Proof.
  apply (@isOutsideIndex_reached_inside plain_names c1_and_c2_eq_one index_c1_c2).
  - reflexivity.
  - eapply reached_logical; [reflexivity | left; reflexivity |].
    apply reached_rel_l; [reflexivity | apply reached_here].
Defined.

(** C4, as stated, fails: the property [c3] occurs inside the filter
    [c3 + 1 > 2] under an arithmetic node, the answer for the index on
    [(c1, c2)] is false, and [c3] is not a field of that index. *)
Lemma isOutsideIndex_misses_nested_property :
  @isOutsideIndex plain_names
     c3_plus_one_gt_two index_c1_c2 = false /\
  occurs c3_plus_one_gt_two (PropertyExpression kTagProperty "c3") /\
  ~ In "c3" (field_names index_c1_c2).
Proof.
  split; [reflexivity|]. split.
  - apply occurs_rel_l, occurs_arith_l, occurs_here.
  - simpl. intros [E | [E | []]]; discriminate.
Qed.

(** ** Snapshots and backups *)

Section SnapshotLoops.
Variable client : AdminClient.
Variable name : string.



Lemma createSnapshot_hosts_run space hs : forall info log,
  match createSnapshot_hosts client name space hs info log with
  | (Some _, log') => create_run client name log (List.map (pair space) hs) true log'
  | (None, log') => create_run client name log (List.map (pair space) hs) false log'
  end.
Proof.
  induction hs as [|h rest IH]; intros info log; simpl.
  - replace log with (log ++ create_requests name [])%list at 2
      by (simpl; apply app_nil_r).
    constructor.
  - destruct (rpc_createSnapshot client log space name h) as [dir|] eqn:Hrpc.
    + specialize (IH (<[space := (default [] (info !! space) ++ [mkCheckpointInfo h dir])%list]> info)
                     (log ++ [RpcCreateSnapshot space name h])%list).
      destruct (createSnapshot_hosts client name space rest _ _) as [[info'|] log'].
      * inversion IH; subst. rewrite <- app_assoc. simpl.
        apply (create_run_all client name log ((space, h) :: List.map (pair space) rest)).
      * inversion IH as [| done sh rest' Hp Hfail]; subst.
        rewrite <- app_assoc in Hfail |- *. simpl in *.
        apply (create_run_stop client name log _ ((space, h) :: done) sh rest').
        -- simpl. now rewrite Hp.
        -- exact Hfail.
    + apply (create_run_stop client name log _ [] (space, h) (List.map (pair space) rest)).
      * reflexivity.
      * simpl. now rewrite app_nil_r.
Qed.

Lemma create_requests_app a b :
  create_requests name (a ++ b) = (create_requests name a ++ create_requests name b)%list.
Proof. apply List.map_app. Qed.

Lemma create_run_app log pairs1 pairs2 log1 b log2 :
  create_run client name log pairs1 true log1 ->
  create_run client name log1 pairs2 b log2 ->
  create_run client name log (pairs1 ++ pairs2) b log2.
Proof.
  intros H1 H2. inversion H1; subst. inversion H2 as [|done sh rest Hp Hfail]; subst.
  - rewrite <- app_assoc, <- create_requests_app. constructor.
  - rewrite <- app_assoc, <- create_requests_app in Hfail.
    rewrite <- app_assoc, <- create_requests_app.
    replace (pairs1 ++ done ++ [sh])%list with ((pairs1 ++ done) ++ [sh])%list
      by now rewrite <- app_assoc.
    apply (create_run_stop client name log _ (pairs1 ++ done) sh rest); auto.
    now rewrite <- app_assoc.
Qed.

Lemma create_run_more log pairs1 pairs2 log1 :
  create_run client name log pairs1 false log1 ->
  create_run client name log (pairs1 ++ pairs2) false log1.
Proof.
  inversion 1 as [|done sh rest Hp Hfail]; subst.
  apply (create_run_stop client name log _ done sh (rest ++ pairs2)); auto.
  now rewrite <- app_assoc.
Qed.

Lemma createSnapshot_spaces_run spacesHosts : forall info log,
  match createSnapshot_spaces client name spacesHosts info log with
  | (Some _, log') => create_run client name log (pairs_of spacesHosts) true log'
  | (None, log') => create_run client name log (pairs_of spacesHosts) false log'
  end.
Proof.
  induction spacesHosts as [|[space hs] rest IH]; intros info log; simpl.
  - replace log with (log ++ create_requests name [])%list at 2
      by (simpl; apply app_nil_r).
    constructor.
  - pose proof (createSnapshot_hosts_run space hs info log) as Hh.
    destruct (createSnapshot_hosts client name space hs info log) as [[info'|] log'].
    + specialize (IH info' log').
      destruct (createSnapshot_spaces client name rest info' log') as [[info''|] log''];
        eapply create_run_app; eauto.
    + now apply create_run_more.
Qed.

(** Blocking requests: what a pass sends is a list of requests of its sign. *)
Lemma blockingWrites_hosts_log sign space hs : forall ret log,
  exists sentNow,
    snd (blockingWrites_hosts client sign space hs ret log) = (log ++ sentNow)%list /\
    Forall (fun c => exists s h, c = RpcBlockingWrites s sign h) sentNow /\
    (sign = BLOCK_OFF ->
     sentNow = blocking_requests BLOCK_OFF (List.map (pair space) hs)).
Proof.
  induction hs as [|h rest IH]; intros ret log; simpl.
  - exists []. rewrite app_nil_r. repeat split; auto. 
  - destruct (rpc_blockingWrites client log space sign h); simpl.
    + destruct (IH ret (log ++ [RpcBlockingWrites space sign h])%list)
        as (more & -> & Hall & Hoff).
      exists (RpcBlockingWrites space sign h :: more).
      rewrite <- app_assoc. repeat split; eauto.
      intros E. subst sign. now rewrite (Hoff eq_refl).
    + destruct sign; simpl.
      * exists [RpcBlockingWrites space BLOCK_ON h]. repeat split; eauto.
        discriminate.
      * destruct (IH cpp2.E_BLOCK_WRITE_FAILURE
                     (log ++ [RpcBlockingWrites space BLOCK_OFF h])%list)
          as (more & -> & Hall & Hoff).
        exists (RpcBlockingWrites space BLOCK_OFF h :: more).
        rewrite <- app_assoc. repeat split; eauto.
        intros _. now rewrite (Hoff eq_refl).
Qed.

Lemma blockingWrites_spaces_log sign spacesHosts : forall ret log,
  exists sentNow,
    snd (blockingWrites_spaces client sign spacesHosts ret log) = (log ++ sentNow)%list /\
    Forall (fun c => exists s h, c = RpcBlockingWrites s sign h) sentNow /\
    (sign = BLOCK_OFF ->
     sentNow = blocking_requests BLOCK_OFF (pairs_of spacesHosts)).
Proof.
  induction spacesHosts as [|[space hs] rest IH]; intros ret log; simpl.
  - exists []. rewrite app_nil_r. repeat split; auto.
  - destruct (blockingWrites_hosts_log sign space hs ret log) as (s1 & H1 & A1 & O1).
    destruct (blockingWrites_hosts client sign space hs ret log) as [ret' log'].
    simpl in H1. subst log'.
    destruct (IH ret' (log ++ s1)%list) as (s2 & H2 & A2 & O2).
    exists (s1 ++ s2)%list. rewrite H2, <- app_assoc. repeat split.
    + apply Forall_app; auto.
    + intros E. rewrite (O1 E), (O2 E). unfold blocking_requests.
      now rewrite List.map_app.
Qed.

End SnapshotLoops.

Section SnapshotOps.
Context `{MetaServiceUtils}.
Variable client : AdminClient.

Lemma engine_prefix_kv prefix s :
  kv (snd (engine_prefix prefix s)) = kv s.
Proof.
  unfold engine_prefix, next_outcome.
  destruct (outcomes s) as [|[f|] rest]; reflexivity.
Qed.

Lemma getSpacesHosts_frame sn r sn1 :
  getSpacesHosts sn = (r, sn1) ->
  kv (kv_ sn1) = kv (kv_ sn) /\ spaces_ sn1 = spaces_ sn /\ sent sn1 = sent sn.
Proof.
  unfold getSpacesHosts.
  pose proof (engine_prefix_kv partPrefix0 (kv_ sn)) as Hkv.
  destruct (engine_prefix partPrefix0 (kv_ sn)) as [[kvRet iter] s'].
  simpl in Hkv.
  destruct (negb _); intros [= <- <-]; simpl; auto.
Qed.


Lemma createSnapshot_stops name sn spacesHosts sn1 :
  getSpacesHosts sn = (inr spacesHosts, sn1) ->
  exists res sn',
    createSnapshot client name sn = (res, sn') /\
    create_run client name (sent sn) (pairs_of spacesHosts) (ok res) (sent sn') /\
    (ok res = false -> res = inl cpp2.E_RPC_FAILURE) /\
    kv_ sn' = kv_ sn1 /\ spaces_ sn' = spaces_ sn.
Proof.
  intros Hg. unfold createSnapshot. rewrite Hg.
  destruct (getSpacesHosts_frame _ _ _ Hg) as (_ & Hsp & Hsent).
  pose proof (createSnapshot_spaces_run client name spacesHosts ∅ (sent sn1)) as Hrun.
  destruct (createSnapshot_spaces client name spacesHosts ∅ (sent sn1)) as [[info|] log'];
    eexists _, _; (split; [reflexivity|]); simpl; rewrite <- Hsent;
    repeat split; auto; discriminate.
Qed.

Lemma createSnapshot_frame name sn res sn' :
  createSnapshot client name sn = (res, sn') ->
  kv (kv_ sn') = kv (kv_ sn) /\ spaces_ sn' = spaces_ sn /\
  exists pairs, sent sn' = (sent sn ++ create_requests name pairs)%list.
Proof.
  intros Hc. destruct (getSpacesHosts sn) as [[e|spacesHosts] sn1] eqn:Hg.
  - unfold createSnapshot in Hc. rewrite Hg in Hc. injection Hc as <- <-.
    destruct (getSpacesHosts_frame _ _ _ Hg) as (? & ? & ?).
    repeat split; auto. exists []. simpl. now rewrite app_nil_r.
  - destruct (createSnapshot_stops name sn spacesHosts sn1 Hg)
      as (res' & sn'' & Hc' & Hrun & _ & Hkv & Hsp).
    rewrite Hc in Hc'. injection Hc' as <- <-.
    destruct (getSpacesHosts_frame _ _ _ Hg) as (Hkv1 & _ & _).
    rewrite Hkv. repeat split; auto.
    inversion Hrun; eauto.
Qed.

Lemma blockingWrites_frame sign sn ret sn' :
  blockingWrites client sign sn = (ret, sn') ->
  kv (kv_ sn') = kv (kv_ sn) /\ spaces_ sn' = spaces_ sn /\
  exists sentNow,
    sent sn' = (sent sn ++ sentNow)%list /\
    Forall (fun c => exists s h, c = RpcBlockingWrites s sign h) sentNow.
Proof.
  unfold blockingWrites.
  destruct (getSpacesHosts sn) as [[e|spacesHosts] sn1] eqn:Hg;
    destruct (getSpacesHosts_frame _ _ _ Hg) as (Hkv & Hsp & Hsent).
  - intros [= <- <-]. repeat split; auto. exists []. now rewrite app_nil_r.
  - destruct (blockingWrites_spaces_log client sign spacesHosts cpp2.SUCCEEDED (sent sn1))
      as (sentNow & Hlog & Hall & _).
    destruct (blockingWrites_spaces client sign spacesHosts cpp2.SUCCEEDED (sent sn1))
      as [ret' log'].
    simpl in Hlog. subst log'. intros [= <- <-]. simpl.
    repeat split; auto. exists sentNow. now rewrite <- Hsent.
Qed.

Lemma blockingWrites_off_pass sn spacesHosts sn1 :
  getSpacesHosts sn = (inr spacesHosts, sn1) ->
  sent (snd (blockingWrites client BLOCK_OFF sn)) =
  (sent sn ++ blocking_requests BLOCK_OFF (pairs_of spacesHosts))%list.
Proof.
  intros Hg. unfold blockingWrites. rewrite Hg.
  destruct (getSpacesHosts_frame _ _ _ Hg) as (_ & _ & Hsent).
  destruct (blockingWrites_spaces_log client BLOCK_OFF spacesHosts cpp2.SUCCEEDED (sent sn1))
    as (sentNow & Hlog & _ & Hoff).
  destruct (blockingWrites_spaces client BLOCK_OFF spacesHosts cpp2.SUCCEEDED (sent sn1))
    as [ret' log'].
  simpl in *. now rewrite Hlog, (Hoff eq_refl), Hsent.
Qed.

End SnapshotOps.



Ltac bk_simpl :=
  cbv beta iota zeta delta
    [store_of with_store with_base snapshot_of with_snapshot setSpaces
     bk_handleErrorCode bk_onFinished set_store handleErrorCode onFinished
     base snap_spaces rpcs resp_meta kvstore_ resp_code finished
     kv_ spaces_ sent] in *.

Section BackupProcess.
Context `{MetaServiceUtils}.
Variable client : AdminClient.
Variable getActiveHosts : NebulaStore -> ErrorOr cpp2.ErrorCode (list HostAddr).

Lemma doPrefix_kv key s : kv (snd (doPrefix key s)) = kv s.
Proof.
  unfold doPrefix. pose proof (engine_prefix_kv key s) as Hkv.
  destruct (engine_prefix key s) as [[code iter] s']. simpl in Hkv.
  now destruct (negb _).
Qed.

Lemma isIndexRebuilding_kv s : kv (snd (isIndexRebuilding s)) = kv s.
Proof.
  unfold isIndexRebuilding.
  pose proof (doPrefix_kv rebuildIndexStatusPrefix s) as Hkv.
  destruct (doPrefix rebuildIndexStatusPrefix s) as [[e|iter] s']; auto.
Qed.

Lemma doMultiGet_kv keys s : kv (snd (doMultiGet keys s)) = kv s.
Proof.
  unfold doMultiGet, engine_multiGet, next_outcome.
  destruct (outcomes s) as [|[f|] rest]; simpl;
    try destruct (negb _); try reflexivity.
Qed.

Lemma spaceNameToId_kv backupSpaces s : kv (snd (spaceNameToId backupSpaces s)) = kv s.
Proof.
  unfold spaceNameToId. destruct backupSpaces as [names|].
  - pose proof (doMultiGet_kv (List.map indexSpaceKey names) s) as Hkv.
    destruct (doMultiGet _ s) as [[e|values] s1]; simpl in *; auto.
    destruct (decode_ids values ∅) as [sp|]; simpl; auto.
    destruct (bool_decide (sp = ∅)); auto.
  - pose proof (doPrefix_kv spacePrefix s) as Hkv.
    destruct (doPrefix spacePrefix s) as [[e|iter] s1]; simpl in *; auto.
    destruct (bool_decide _); auto.
Qed.

(** C6: when write blocking and checkpoint creation succeed and the meta
    export fails, the request completes once, with E_BACKUP_FAILURE; nothing
    is sent and the store handle is not used after the checkpoint step, no
    BLOCK_OFF request is among those sent during the call, and the store is
    left as it was, so no snapshot record is committed. *)
Theorem export_failure_keeps_writes_blocked
    (timestamp : string) (req : CreateBackupReq) (st : BackupState)
    (s1 s2 : NebulaStore) (hosts : list HostAddr) (spaces : gset Z)
    (sn4 sn5 : Snapshot) (info : gmap Z (list CheckpointInfo)) :
  leader (store_of st) = true ->
  isIndexRebuilding (store_of st) = (inr false, s1) ->
  getActiveHosts s1 = inr hosts -> hosts <> [] ->
  spaceNameToId (get_spaces req) s1 = (Some (inr spaces), s2) ->
  blockingWrites client BLOCK_ON (mkSnapshot s2 spaces (rpcs st))
    = (cpp2.SUCCEEDED, sn4) ->
  createSnapshot client ("BACKUP_" +:+ timestamp) sn4 = (inr info, sn5) ->
  backup (kv_ sn5) spaces ("BACKUP_" +:+ timestamp) (get_spaces req) = None ->
  exists st',
    CreateBackupProcessor_process client getActiveHosts timestamp req st = Some st' /\
    resp_code (base st') = cpp2.E_BACKUP_FAILURE /\
    finished (base st') = S (finished (base st)) /\
    rpcs st' = sent sn5 /\
    store_of st' = kv_ sn5 /\
    (exists sentNow,
        rpcs st' = (rpcs st ++ sentNow)%list /\
        Forall (fun c => is_block_off c = false) sentNow) /\
    kv (store_of st') = kv (store_of st) /\
    resp_meta st' = resp_meta st.
Proof.
  destruct st as [[store0 code0 fin0] spaces0 rpcs0 meta0]. bk_simpl.
  intros Hleader Hidx Hact Hne Hsp Hon Hcp Hexp.
  pose proof (isIndexRebuilding_kv store0) as K1. rewrite Hidx in K1.
  pose proof (spaceNameToId_kv (get_spaces req) s1) as K2. rewrite Hsp in K2.
  destruct (blockingWrites_frame client _ _ _ _ Hon) as (K3 & S3 & on & L3 & A3).
  destruct (createSnapshot_frame client _ _ _ _ Hcp) as (K4 & S4 & pairs & L4).
  destruct sn4 as [kv4 sp4 sent4]. destruct sn5 as [kv5 sp5 sent5].
  unfold CreateBackupProcessor_process. bk_simpl.
  rewrite Hleader. cbn [negb]. rewrite Hidx. bk_simpl.
  rewrite Hact.
  destruct hosts as [|h0 hs]; [congruence|]. cbn [length Nat.eqb].
  rewrite Hsp. bk_simpl. rewrite Hon. cbn [cpp2.ErrorCode_eqb negb]. bk_simpl.
  rewrite Hcp. bk_simpl. rewrite Hexp.
  eexists. split; [reflexivity|]. bk_simpl. simpl in *.
  repeat split; auto.
  - exists (on ++ create_requests ("BACKUP_" +:+ timestamp) pairs)%list.
    split.
    + rewrite L4, L3. now rewrite app_assoc.
    + apply Forall_app. split.
      * eapply List.Forall_impl; [|exact A3]. intros c (sp & h & ->). reflexivity.
      * unfold create_requests. apply List.Forall_map, List.Forall_forall.
        reflexivity.
  - congruence.
Qed.

(** C2: what the processor does when BLOCK_ON fails on some host.  The
    request completes once, with E_BLOCK_WRITE_FAILURE, after a BLOCK_OFF
    pass; the store is left as it was: the INVALID record placed in [data]
    is never written, so none is left behind under the snapshot key. *)
Theorem block_on_failure_leaves_no_record
    (timestamp : string) (req : CreateBackupReq) (st : BackupState)
    (s1 s2 : NebulaStore) (hosts : list HostAddr) (spaces : gset Z)
    (sn4 : Snapshot) :
  leader (store_of st) = true ->
  isIndexRebuilding (store_of st) = (inr false, s1) ->
  getActiveHosts s1 = inr hosts -> hosts <> [] ->
  spaceNameToId (get_spaces req) s1 = (Some (inr spaces), s2) ->
  blockingWrites client BLOCK_ON (mkSnapshot s2 spaces (rpcs st))
    = (cpp2.E_BLOCK_WRITE_FAILURE, sn4) ->
  exists st',
    CreateBackupProcessor_process client getActiveHosts timestamp req st = Some st' /\
    resp_code (base st') = cpp2.E_BLOCK_WRITE_FAILURE /\
    finished (base st') = S (finished (base st)) /\
    rpcs st' = sent (snd (blockingWrites client BLOCK_OFF sn4)) /\
    (forall spacesHosts sn',
        getSpacesHosts sn4 = (inr spacesHosts, sn') ->
        rpcs st' = sent sn4 ++ blocking_requests BLOCK_OFF (pairs_of spacesHosts)) /\
    kv (store_of st') = kv (store_of st) /\
    (kv (store_of st) !! snapshotKey ("BACKUP_" +:+ timestamp) = None ->
     kv (store_of st') !! snapshotKey ("BACKUP_" +:+ timestamp) = None).
Proof.
  destruct st as [[store0 code0 fin0] spaces0 rpcs0 meta0]. bk_simpl.
  intros Hleader Hidx Hact Hne Hsp Hon.
  pose proof (isIndexRebuilding_kv store0) as K1. rewrite Hidx in K1.
  pose proof (spaceNameToId_kv (get_spaces req) s1) as K2. rewrite Hsp in K2.
  destruct (blockingWrites_frame client _ _ _ _ Hon) as (K3 & _ & _).
  destruct sn4 as [kv4 sp4 sent4].
  destruct (blockingWrites client BLOCK_OFF (mkSnapshot kv4 sp4 sent4))
    as [ret6 sn6] eqn:Hoff.
  destruct (blockingWrites_frame client _ _ _ _ Hoff) as (K6 & _ & _).
  assert (Hkv : kv (kv_ sn6) = kv store0) by (simpl in *; congruence).
  unfold CreateBackupProcessor_process. bk_simpl.
  rewrite Hleader. cbn [negb]. rewrite Hidx. bk_simpl.
  rewrite Hact.
  destruct hosts as [|h0 hs]; [congruence|]. cbn [length Nat.eqb].
  rewrite Hsp. bk_simpl. rewrite Hon. cbn [cpp2.ErrorCode_eqb negb]. bk_simpl.
  rewrite Hoff.
  eexists. split; [reflexivity|]. bk_simpl. cbn [snd].
  repeat split; auto.
  - intros spacesHosts sn' Hg.
    pose proof (blockingWrites_off_pass client _ _ _ Hg) as Hpass.
    rewrite Hoff in Hpass. exact Hpass.
  - intros Habs. now rewrite Hkv.
Qed.
End BackupProcess.

Lemma export_failure_keeps_writes_blocked_witness :
  exists st',
    @CreateBackupProcessor_process failing_export_codec steady_client
       both_hosts_active "T" (mkCreateBackupReq None)
       (demo_backup_state failing_export_codec) = Some st' /\
    resp_code (base st') = cpp2.E_BACKUP_FAILURE /\
    finished (base st') = 1%nat /\
    rpcs st' = [RpcBlockingWrites 1 BLOCK_ON host1;
                RpcBlockingWrites 1 BLOCK_ON host2;
                RpcCreateSnapshot 1 "BACKUP_T" host1;
                RpcCreateSnapshot 1 "BACKUP_T" host2].
Proof.
  destruct (@export_failure_keeps_writes_blocked failing_export_codec
              steady_client both_hosts_active "T" (mkCreateBackupReq None)
              (demo_backup_state failing_export_codec)
              (demo_store failing_export_codec) (demo_store failing_export_codec)
              [host1; host2] {[ 1 ]}
              (mkSnapshot (demo_store failing_export_codec) {[ 1 ]}
                 [RpcBlockingWrites 1 BLOCK_ON host1;
                  RpcBlockingWrites 1 BLOCK_ON host2])
              (mkSnapshot (demo_store failing_export_codec) {[ 1 ]}
                 [RpcBlockingWrites 1 BLOCK_ON host1;
                  RpcBlockingWrites 1 BLOCK_ON host2;
                  RpcCreateSnapshot 1 "BACKUP_T" host1;
                  RpcCreateSnapshot 1 "BACKUP_T" host2])
              {[ 1 := [mkCheckpointInfo host1 "/data/cp";
                       mkCheckpointInfo host2 "/data/cp"] ]})
    as (st' & Hrun & Hcode & Hfin & Hsent & _).
  - reflexivity.
  - vm_compute. reflexivity.
  - reflexivity.
  - discriminate.
  - vm_compute. reflexivity.
  - vm_compute. reflexivity.
  - vm_compute. reflexivity.
  - reflexivity.
  - exists st'. split; [exact Hrun|]. split; [exact Hcode|]. split; [exact Hfin|].
    exact Hsent.
Defined.

Lemma block_on_failure_leaves_no_record_witness :
  exists st',
    @CreateBackupProcessor_process exporting_codec block_refusing_client
       both_hosts_active "T" (mkCreateBackupReq None)
       (demo_backup_state exporting_codec) = Some st' /\
    resp_code (base st') = cpp2.E_BLOCK_WRITE_FAILURE /\
    finished (base st') = 1%nat /\
    kv (store_of st') !! @snapshotKey exporting_codec "BACKUP_T" = None.
Proof.
  destruct (@block_on_failure_leaves_no_record exporting_codec
              block_refusing_client both_hosts_active "T" (mkCreateBackupReq None)
              (demo_backup_state exporting_codec)
              (demo_store exporting_codec) (demo_store exporting_codec)
              [host1; host2] {[ 1 ]}
              (mkSnapshot (demo_store exporting_codec) {[ 1 ]}
                 [RpcBlockingWrites 1 BLOCK_ON host1;
                  RpcBlockingWrites 1 BLOCK_ON host2]))
    as (st' & Hrun & Hcode & Hfin & _ & _ & _ & Hnone).
  - reflexivity.
  - vm_compute. reflexivity.
  - reflexivity.
  - discriminate.
  - vm_compute. reflexivity.
  - vm_compute. reflexivity.
  - exists st'. split; [exact Hrun|]. split; [exact Hcode|]. split; [exact Hfin|].
    apply Hnone. vm_compute. reflexivity.
Defined.

(** The same run evaluated: the request of the backup scenario with host
    "h2" refusing BLOCK_ON ends with no record under the snapshot key. *)
Example backup_blocking_failure_run :
  (fun st => (resp_code (base st),
              kv (store_of st) !! @snapshotKey exporting_codec "BACKUP_T"))
  <$> @CreateBackupProcessor_process exporting_codec block_refusing_client
        both_hosts_active "T" (mkCreateBackupReq None)
        (demo_backup_state exporting_codec)
  = Some (cpp2.E_BLOCK_WRITE_FAILURE, None).
Proof. vm_compute. reflexivity. Qed.

(** The happy path on the same world: the record under the snapshot key
    ends VALID. *)
Example backup_happy_path_run :
  (fun st => (resp_code (base st),
              kv (store_of st) !! @snapshotKey exporting_codec "BACKUP_T"))
  <$> @CreateBackupProcessor_process exporting_codec steady_client
        both_hosts_active "T" (mkCreateBackupReq None)
        (demo_backup_state exporting_codec)
  = Some (cpp2.SUCCEEDED, Some ("V" +:+ "h1,h2,")).
Proof. vm_compute. reflexivity. Qed.

(** ** DropSpace *)

Section HealthyEngine.
Variable s : NebulaStore.
Hypothesis Hh : healthy s.

Lemma engine_get_healthy key :
  exists s', healthy s' /\ kv s' = kv s /\
    engine_get key s =
    match kv s !! key with
    | Some v => (kvstore.SUCCEEDED, v, s')
    | None => (kvstore.ERR_KEY_NOT_FOUND, "", s')
    end.
Proof.
  unfold engine_get.
  destruct (next_outcome_healthy s Hh) as (s' & -> & Hh' & Hkv).
  exists s'. rewrite Hkv. auto.
Qed.

Lemma doPrefix_healthy key :
  exists s', healthy s' /\ kv s' = kv s /\
    doPrefix key s =
    (inr (List.filter (fun e => String.prefix key (fst e)) (map_to_list (kv s))), s').
Proof.
  unfold doPrefix, engine_prefix.
  destruct (next_outcome_healthy s Hh) as (s' & -> & Hh' & Hkv).
  exists s'. rewrite Hkv. auto.
Qed.

Lemma engine_multiRemove_healthy keys :
  exists s', healthy s' /\
    kv s' = fold_left (fun m k => delete k m) keys (kv s) /\
    engine_multiRemove keys s = (kvstore.SUCCEEDED, s').
Proof.
  unfold engine_multiRemove.
  destruct (next_outcome_healthy s Hh) as (s' & -> & Hh' & Hkv).
  eexists. split; [|split; [|reflexivity]]; simpl; auto. now rewrite Hkv.
Qed.

Lemma engine_multiPut_healthy data :
  exists s', healthy s' /\
    kv s' = fold_left (fun m e => <[fst e := snd e]> m) data (kv s) /\
    engine_multiPut data s = (kvstore.SUCCEEDED, s').
Proof.
  unfold engine_multiPut.
  destruct (next_outcome_healthy s Hh) as (s' & -> & Hh' & Hkv).
  eexists. split; [|split; [|reflexivity]]; simpl; auto. now rewrite Hkv.
Qed.
End HealthyEngine.

Lemma fold_delete_other (keys : list string) : forall (m : gmap string string) k,
  ~ In k keys -> fold_left (fun m k => delete k m) keys m !! k = m !! k.
Proof.
  induction keys as [|k0 rest IH]; intros m k Hk; simpl; auto.
  rewrite IH by (intros Hin; apply Hk; now right).
  apply lookup_delete_ne. intros ->. apply Hk. now left.
Qed.

Lemma fold_delete_absent (keys : list string) : forall (m : gmap string string) k,
  m !! k = None -> fold_left (fun m k => delete k m) keys m !! k = None.
Proof.
  induction keys as [|k0 rest IH]; intros m k Hk; simpl; auto.
  apply IH. rewrite lookup_delete. now destruct (decide (k0 = k)).
Qed.

Lemma fold_delete_member (keys : list string) : forall (m : gmap string string) k,
  In k keys -> fold_left (fun m k => delete k m) keys m !! k = None.
Proof.
  induction keys as [|k0 rest IH]; intros m k Hk; simpl; [contradiction|].
  destruct (String.string_dec k0 k) as [->|Hne].
  - apply fold_delete_absent, lookup_delete_eq.
  - apply IH. destruct Hk; [contradiction|assumption].
Qed.

Lemma keys_under_prefix prefix (m : gmap string string) k :
  In k (keys_under prefix m) <-> is_Some (m !! k) /\ String.prefix prefix k = true.
Proof.
  unfold keys_under, iter_keys. rewrite in_map_iff. split.
  - intros ([k' v] & <- & Hin).
    apply List.filter_In in Hin as [Hin Hp]. split; [|exact Hp].
    apply list_elem_of_In, elem_of_map_to_list in Hin. eauto.
  - intros ([v Hv] & Hp). exists (k, v). split; [reflexivity|].
    apply List.filter_In. split; [|exact Hp].
    now apply list_elem_of_In, elem_of_map_to_list.
Qed.

Section DropSpace.
Context `{MetaServiceUtils}.

(** The run of the processor on an engine that serves every call, for a
    space whose name is registered: the removal commits, the update time is
    written and the request succeeds. *)
Lemma DropSpace_healthy_run (req : DropSpaceReq) (now : Z) (p : Processor) (id : Z) :
  healthy (kvstore_ p) ->
  kv (kvstore_ p) !! indexSpaceKey (get_space_name req) = Some (encodeInt32 id) ->
  INT32_MIN <= id <= INT32_MAX ->
  exists p',
    DropSpaceProcessor_process req now p = Some p' /\
    resp_code p' = cpp2.SUCCEEDED /\
    finished p' = S (finished p) /\
    kv (kvstore_ p') =
      <[lastUpdateTimeKey := lastUpdateTimeVal now]>
        (fold_left (fun m k => delete k m)
           (dropped_keys (get_space_name req) id (kv (kvstore_ p)))
           (kv (kvstore_ p))).
Proof.
  intros Hh Hidx Hid.
  destruct p as [store0 code0 fin0]. cbn [kvstore_ finished] in *.
  unfold DropSpaceProcessor_process, getSpaceId, doGet.
  cbn [kvstore_].
  destruct (engine_get_healthy store0 Hh (indexSpaceKey (get_space_name req)))
    as (s1 & Hh1 & K1 & ->).
  rewrite Hidx. cbn [kvstore.ResultCode_eqb negb]. rewrite (decode_encode id Hid).
  unfold set_store. cbn [kvstore_ resp_code finished].
  destruct (doPrefix_healthy s1 Hh1 (partPrefix id)) as (s2 & Hh2 & K2 & ->).
  destruct (doPrefix_healthy s2 Hh2 (roleSpacePrefix id)) as (s3 & Hh3 & K3 & ->).
  destruct (doPrefix_healthy s3 Hh3 (roleSpacePrefix id)) as (s4 & Hh4 & K4 & ->).
  unfold doSyncMultiRemoveAndUpdate. cbn [kvstore_].
  match goal with
  | |- context [engine_multiRemove ?keys s4] =>
      destruct (engine_multiRemove_healthy s4 Hh4 keys) as (s5 & Hh5 & K5 & ->)
  end.
  cbn [kvstore.ResultCode_eqb negb].
  unfold LastUpdateTimeMan_update, set_store. cbn [kvstore_ resp_code finished].
  destruct (engine_multiPut_healthy s5 Hh5 [(lastUpdateTimeKey, lastUpdateTimeVal now)])
    as (s6 & Hh6 & K6 & ->).
  eexists. split; [reflexivity|].
  unfold onFinished, handleErrorCode. cbn [kvstore_ resp_code finished MetaCommon_to].
  repeat split.
  rewrite K6, K5, K4, K3, K2, K1. cbn [fold_left fst snd].
  unfold dropped_keys, keys_under. cbn [app].
  now rewrite <- !app_assoc.
Qed.

(** The cascade the processor does perform: part, index, space, role and
    statistics keys of the space are gone afterwards. *)
Lemma DropSpace_removes_cascade
    (req : DropSpaceReq) (now : Z) (p : Processor) (id : Z) (k : string) :
  healthy (kvstore_ p) ->
  kv (kvstore_ p) !! indexSpaceKey (get_space_name req) = Some (encodeInt32 id) ->
  INT32_MIN <= id <= INT32_MAX ->
  String.prefix (partPrefix id) k = true \/
  String.prefix (roleSpacePrefix id) k = true \/
  k = indexSpaceKey (get_space_name req) \/ k = spaceKey id \/ k = statisKey id ->
  k <> lastUpdateTimeKey ->
  exists p',
    DropSpaceProcessor_process req now p = Some p' /\
    kv (kvstore_ p') !! k = None.
Proof.
  intros Hh Hidx Hid Hk Hn.
  destruct (DropSpace_healthy_run req now p id Hh Hidx Hid) as (p' & Hrun & _ & _ & Hkv).
  exists p'. split; [exact Hrun|].
  rewrite Hkv, lookup_insert_ne by congruence.
  destruct (kv (kvstore_ p) !! k) as [v|] eqn:Hv; [|now apply fold_delete_absent].
  apply fold_delete_member. unfold dropped_keys.
  rewrite !in_app_iff, !keys_under_prefix. simpl. rewrite Hv.
  destruct Hk as [Hp | [Hr | [-> | [-> | ->]]]]; eauto 10.
Qed.

(** C1: what [DropSpaceProcessor::process] does to listener keys.  On an
    engine that serves every call, dropping a registered space commits the
    removal and succeeds, and a key under [listenerPrefix id] that is not
    one of the keys collected from the part and role prefixes or added one
    by one is still in the store afterwards: the loop announced as deleting
    the listener data iterates the role prefix a second time. *)
Theorem DropSpace_keeps_listener_keys
    (req : DropSpaceReq) (now : Z) (p : Processor) (id : Z) (k v : string) :
  healthy (kvstore_ p) ->
  kv (kvstore_ p) !! indexSpaceKey (get_space_name req) = Some (encodeInt32 id) ->
  INT32_MIN <= id <= INT32_MAX ->
  kv (kvstore_ p) !! k = Some v ->
  String.prefix (listenerPrefix id) k = true ->
  String.prefix (partPrefix id) k = false ->
  String.prefix (roleSpacePrefix id) k = false ->
  k <> indexSpaceKey (get_space_name req) -> k <> spaceKey id ->
  k <> statisKey id -> k <> lastUpdateTimeKey ->
  exists p',
    DropSpaceProcessor_process req now p = Some p' /\
    resp_code p' = cpp2.SUCCEEDED /\
    finished p' = S (finished p) /\
    kv (kvstore_ p') !! k = Some v.
Proof.
  intros Hh Hidx Hid Hk Hlst Hpart Hrole Hn1 Hn2 Hn3 Hn4.
  destruct (DropSpace_healthy_run req now p id Hh Hidx Hid)
    as (p' & Hrun & Hcode & Hfin & Hkv).
  exists p'. repeat split; auto.
  rewrite Hkv, lookup_insert_ne by congruence.
  rewrite fold_delete_other; [exact Hk|].
  unfold dropped_keys. rewrite !in_app_iff, !keys_under_prefix. simpl.
  intuition congruence.
Qed.
End DropSpace.

Lemma DropSpace_keeps_listener_keys_witness :
  exists p',
    @DropSpaceProcessor_process exporting_codec (mkDropSpaceReq "S" false) 1000
       (mkProcessor (demo_store exporting_codec) cpp2.E_UNKNOWN 0) = Some p' /\
    resp_code p' = cpp2.SUCCEEDED /\
    finished p' = 1%nat /\
    kv (kvstore_ p') !! (@listenerPrefix exporting_codec 1 +:+ encodeInt32 1)
      = Some "listener".
Proof.
  apply (@DropSpace_keeps_listener_keys exporting_codec (mkDropSpaceReq "S" false)
           1000 (mkProcessor (demo_store exporting_codec) cpp2.E_UNKNOWN 0) 1).
  - constructor.
  - vm_compute. reflexivity.
  - unfold INT32_MIN, INT32_MAX. lia.
  - vm_compute. reflexivity.
  - vm_compute. reflexivity.
  - vm_compute. reflexivity.
  - vm_compute. reflexivity.
  - vm_compute. discriminate.
  - vm_compute. discriminate.
  - vm_compute. discriminate.
  - vm_compute. discriminate.
Defined.

(** The run on the space "S" of the concrete store: the part, index, space,
    role and statistics keys are gone, the listener key is not. *)
Example DropSpace_run :
  exists p',
    @DropSpaceProcessor_process exporting_codec (mkDropSpaceReq "S" false) 1000
       (mkProcessor (demo_store exporting_codec) cpp2.E_UNKNOWN 0) = Some p' /\
    resp_code p' = cpp2.SUCCEEDED /\ finished p' = 1%nat /\
    kv (kvstore_ p') !! (@partPrefix exporting_codec 1 +:+ encodeInt32 1) = None /\
    kv (kvstore_ p') !! @indexSpaceKey exporting_codec "S" = None /\
    kv (kvstore_ p') !! @spaceKey exporting_codec 1 = None /\
    kv (kvstore_ p') !! (@roleSpacePrefix exporting_codec 1 +:+ "alice") = None /\
    kv (kvstore_ p') !! @statisKey exporting_codec 1 = None /\
    kv (kvstore_ p') !! (@listenerPrefix exporting_codec 1 +:+ encodeInt32 1)
      = Some "listener".
Proof.
  eexists. split; [vm_compute; reflexivity|].
  vm_compute. repeat split; reflexivity.
Qed.

(** ** The lookup plan *)

Section PlanChains.
Variable plan : StoragePlan.

Lemma chain_mono plan' id tags :
  (forall n, In n plan -> In n plan') ->
  chain plan id tags -> chain plan' id tags.
Proof.
  intros Hsub. induction 1 as [n Hin Hd | n d tags Hin Hd _ IH].
  - apply chain_source; auto.
  - eapply chain_step; eauto.
Qed.

Lemma chain2 a b :
  In a plan -> In b plan ->
  dependencies_ a = [] -> dependencies_ b = [node_id a] ->
  chain plan (node_id b) [tag_of (node a); tag_of (node b)].
Proof.
  intros Ia Ib Da Db.
  apply (chain_step plan b (node_id a) [tag_of (node a)]); auto.
  now apply chain_source.
Qed.

Lemma chain3 a b c :
  In a plan -> In b plan -> In c plan ->
  dependencies_ a = [] -> dependencies_ b = [node_id a] ->
  dependencies_ c = [node_id b] ->
  chain plan (node_id c) [tag_of (node a); tag_of (node b); tag_of (node c)].
Proof.
  intros Ia Ib Ic Da Db Dc.
  apply (chain_step plan c (node_id b) [tag_of (node a); tag_of (node b)]); auto.
  now apply chain2.
Qed.

Lemma chain4 a b c d :
  In a plan -> In b plan -> In c plan -> In d plan ->
  dependencies_ a = [] -> dependencies_ b = [node_id a] ->
  dependencies_ c = [node_id b] -> dependencies_ d = [node_id c] ->
  chain plan (node_id d)
        [tag_of (node a); tag_of (node b); tag_of (node c); tag_of (node d)].
Proof.
  intros Ia Ib Ic Id Da Db Dc Dd.
  apply (chain_step plan d (node_id c)
           [tag_of (node a); tag_of (node b); tag_of (node c)]); auto.
  now apply chain3.
Qed.
End PlanChains.

Ltac solve_chain :=
  cbn [shape orb andb node_id];
  match goal with
  | |- chain [?a; ?b] _ _ => apply (chain2 _ a b)
  | |- chain [?a; ?b; ?c] _ _ => apply (chain3 _ a b c)
  | |- chain [?a; ?b; ?c; ?d] _ _ => apply (chain4 _ a b c d)
  end; simpl; auto 6.

Ltac solve_block :=
  split; [reflexivity|];
  repeat (apply List.Forall_cons || apply List.Forall_nil);
  cbn [node tag_of dependencies_];
  (split; [discriminate|]); (split; [discriminate|]);
  repeat (apply List.Forall_cons || apply List.Forall_nil); lia.

Section BuildPlan.
Context `{CommonBase}.
Variable indexMan : IndexManager.

Lemma yield_needs_data_spec yieldCols index :
  yield_needs_data yieldCols (get_fields index) =
  existsb (fun col => negb (name_in col propsInKey)
                      && negb (name_in col (field_names index))) yieldCols.
Proof.
  assert (Hfind : forall col,
    existsb (fun columnDef => String.eqb col (col_name columnDef)) (get_fields index)
    = name_in col (field_names index)).
  { intros col. unfold name_in, field_names.
    induction (get_fields index) as [|c rest IH]; simpl; auto. now rewrite IH. }
  induction yieldCols as [|col rest IH]; cbn [yield_needs_data existsb]; auto.
  rewrite Hfind, IH.
  destruct (name_in col propsInKey), (name_in col (field_names index)); reflexivity.
Qed.

Lemma buildPlan_context_ok ctx deDup plan filterId p deDup' plan' filterId' p' :
  buildPlan_context indexMan ctx deDup plan filterId p
    = (inr (deDup', plan', filterId'), p') ->
  exists index block out,
    index_of indexMan p ctx = Some index /\
    plan' = plan ++ block /\
    last block = Some out /\
    deDup' = addDependency deDup out /\
    chain block (node_id out)
          (shape (spec_needData (yieldCols_ p) index ctx)
                 (spec_needFilter index ctx) (isEdge_ (planContext_ p))) /\
    block_ok (next_node p) block /\
    next_node p' = (next_node p + length block)%nat /\
    same_request p p'.
Proof.
  unfold buildPlan_context, index_of, spec_needData, spec_needFilter.
  destruct (if isEdge_ (planContext_ p) then _ else _) as [index|] eqn:Hidx;
    [|discriminate].
  intros Hb. exists index.
  rewrite <- yield_needs_data_spec.
  destruct (filter_present ctx) eqn:Hfp;
    destruct (yield_needs_data (yieldCols_ p) (get_fields index)) eqn:Hy;
    destruct (isOutsideIndex (Expression_decode (get_filter ctx)) index) eqn:Ho;
    destruct (isEdge_ (planContext_ p)) eqn:He;
    destruct (last (schemas_ p)) as [schema|] eqn:Hs;
    cbn [negb andb orb] in Hb;
    unfold buildPlanBasic, buildPlanWithData, buildPlanWithFilter,
      buildPlanWithDataAndFilter, make_node, set_next_node, set_filterItems,
      addDependency, addNode in Hb;
    cbn [next_node planContext_ schemas_ node_id node dependencies_ fst snd
         spaceId_ contexts_ yieldCols_ deDupColPos_ filterItems_ app] in Hb;
    rewrite ?He, ?Hs in Hb;
    cbn [next_node planContext_ schemas_ node_id node dependencies_ fst snd
         spaceId_ contexts_ yieldCols_ deDupColPos_ filterItems_ app] in Hb;
    try discriminate;
    injection Hb as <- <- <- <-.
  all: rewrite <- ?app_assoc; cbn [app].
  all: eexists _, _; split; [reflexivity|]; split; [reflexivity|];
       split; [reflexivity|]; split; [reflexivity|].
  all: split; [solve_chain|].
  all: split; [solve_block|].
  all: split; [cbn [next_node length]; lia|].
  all: repeat split.
Qed.

Lemma same_request_refl p : same_request p p.
Proof. repeat split. Qed.

Lemma same_request_trans p1 p2 p3 :
  same_request p1 p2 -> same_request p2 p3 -> same_request p1 p3.
Proof.
  unfold same_request. intros (A1 & A2 & A3 & A4 & A5 & A6) (B1 & B2 & B3 & B4 & B5 & B6).
  repeat split; congruence.
Qed.

Lemma block_ok_app first b1 b2 :
  block_ok first b1 -> block_ok (first + length b1) b2 -> block_ok first (b1 ++ b2).
Proof.
  intros [I1 F1] [I2 F2]. split.
  - rewrite List.map_app, length_app, seq_app, I1, I2. reflexivity.
  - apply List.Forall_app. split; auto.
    eapply List.Forall_impl; [|exact F2].
    intros n (T1 & T2 & D). repeat split; auto.
    eapply List.Forall_impl; [|exact D]. intros d Hd. simpl in Hd. lia.
Qed.

Lemma block_ok_member first block n :
  block_ok first block -> In n block ->
  (first <= node_id n < first + length block)%nat.
Proof.
  intros [I _] Hin.
  assert (Hid : In (node_id n) (List.map node_id block)) by now apply in_map.
  rewrite I in Hid. apply in_seq in Hid. lia.
Qed.

Lemma buildPlan_contexts_ok ctxs :
  forall deDup plan filterId p deDup' plan' filterId' p',
  buildPlan_contexts indexMan ctxs deDup plan filterId p
    = (inr (deDup', plan', filterId'), p') ->
  exists new outs,
    plan' = plan ++ new /\
    deDup' = mkPlanNode (node_id deDup) (node deDup) (dependencies_ deDup ++ outs) /\
    Forall2 (fun out ctx =>
               exists index,
                 index_of indexMan p ctx = Some index /\
                 chain new out
                   (shape (spec_needData (yieldCols_ p) index ctx)
                          (spec_needFilter index ctx)
                          (isEdge_ (planContext_ p))))
            outs ctxs /\
    Forall (fun out => (next_node p <= out)%nat) outs /\
    block_ok (next_node p) new /\
    next_node p' = (next_node p + length new)%nat /\
    same_request p p'.
Proof.
  induction ctxs as [|ctx rest IH];
    intros deDup plan filterId p deDup' plan' filterId' p'; cbn [buildPlan_contexts].
  - intros [= <- <- <- <-]. exists [], [].
    rewrite !app_nil_r. destruct deDup.
    repeat split; auto using same_request_refl; try constructor; simpl; lia.
  - destruct (buildPlan_context indexMan ctx deDup plan filterId p)
      as [[st | [[deDup1 plan1] filterId1]] p1] eqn:Hctx; [discriminate|].
    intros Hrest.
    destruct (buildPlan_context_ok _ _ _ _ _ _ _ _ _ Hctx)
      as (index & block & out & Hidx & -> & Hlast & -> & Hchain & Hblock & Hnext & Hsame).
    destruct (IH _ _ _ _ _ _ _ _ Hrest)
      as (new & outs & -> & -> & Hall & Hge & Hnew & Hnext' & Hsame').
    assert (Hout : In out block).
    { apply last_Some in Hlast as [l' ->]. apply in_or_app. right. now left. }
    pose proof (block_ok_member _ _ _ Hblock Hout) as Hrange.
    exists (block ++ new), (node_id out :: outs).
    split; [now rewrite app_assoc|].
    split; [cbn [addDependency node_id node dependencies_];
            now rewrite <- app_assoc|].
    destruct Hsame as (E1 & E2 & E3 & E4 & E5 & E6).
    split; [|split; [|split; [|split]]].
    + constructor.
      * exists index. split; auto.
        eapply chain_mono; [|exact Hchain]. intros n Hn. apply in_or_app; auto.
      * eapply List.Forall2_impl; [|exact Hall].
        intros o c (ix & Hix & Hch). exists ix.
        unfold index_of in *. rewrite E1, E2, E4 in *. split; auto.
        eapply chain_mono; [|exact Hch]. intros n Hn. apply in_or_app; auto.
    + constructor; [lia|].
      eapply List.Forall_impl; [|exact Hge]. intros o Ho. simpl in Ho. lia.
    + apply block_ok_app; auto. now rewrite <- Hnext.
    + rewrite length_app. lia.
    + eapply same_request_trans; [|exact Hsame']. repeat split; auto.
Qed.

Lemma buildPlan_context_total ctx deDup plan filterId p index schema :
  index_of indexMan p ctx = Some index ->
  last (schemas_ p) = Some schema ->
  exists r p',
    buildPlan_context indexMan ctx deDup plan filterId p = (inr r, p') /\
    same_request p p'.
Proof.
  unfold buildPlan_context, index_of. intros -> Hs.
  destruct (filter_present ctx);
    destruct (yield_needs_data (yieldCols_ p) (get_fields index));
    destruct (isOutsideIndex (Expression_decode (get_filter ctx)) index);
    destruct (isEdge_ (planContext_ p)) eqn:He;
    cbn [negb andb orb];
    unfold buildPlanBasic, buildPlanWithData, buildPlanWithFilter,
      buildPlanWithDataAndFilter, make_node, set_next_node, set_filterItems,
      addDependency, addNode;
    cbn [next_node planContext_ schemas_ node_id node dependencies_ fst snd
         spaceId_ contexts_ yieldCols_ deDupColPos_ filterItems_ app];
    rewrite ?He, ?Hs;
    cbn [next_node planContext_ schemas_ node_id node dependencies_ fst snd
         spaceId_ contexts_ yieldCols_ deDupColPos_ filterItems_ app];
    eexists _, _; (split; [reflexivity|]); repeat split.
Qed.

Lemma buildPlan_contexts_total ctxs schema :
  forall deDup plan filterId p,
  Forall (fun ctx => is_Some (index_of indexMan p ctx)) ctxs ->
  last (schemas_ p) = Some schema ->
  exists r p', buildPlan_contexts indexMan ctxs deDup plan filterId p = (inr r, p').
Proof.
  induction ctxs as [|ctx rest IH]; intros deDup plan filterId p Hall Hs;
    cbn [buildPlan_contexts].
  - eauto.
  - inversion Hall as [|? ? [index Hidx] Hrest]; subst.
    destruct (buildPlan_context_total ctx deDup plan filterId p index schema Hidx Hs)
      as ([[deDup1 plan1] filterId1] & p1 & -> & (E1 & E2 & E3 & E4 & E5 & E6)).
    apply IH.
    + eapply List.Forall_impl; [|exact Hrest].
      intros c Hc. unfold index_of in *. now rewrite E1, E2.
    + now rewrite E5.
Qed.

End BuildPlan.


(** The nodes of a plan with their identifiers, kinds and dependencies. *)
Example buildPlan_fetch_shapes :
  (List.map (fun n => (node_id n, tag_of (node n), dependencies_ n)))
  <$> (match fst (@buildPlan demo_names demo_indexMan
                     demo_fetch_lookup) with
       | inr plan => Some plan
       | inl _ => None
       end)
  = Some [(2, TScan, []); (3, TVertex, [2]); (4, TOutput, [3]);
          (5, TScan, []); (6, TVertex, [5]); (7, TFilter, [6]); (8, TOutput, [7]);
          (1, TDeDup, [4; 8]); (0, TAggregate, [1])]%nat.
Proof. vm_compute. reflexivity. Qed.

Example buildPlan_index_only_shapes :
  (List.map (fun n => (node_id n, tag_of (node n), dependencies_ n)))
  <$> (match fst (@buildPlan demo_names demo_indexMan
                     (demo_lookup ["c1"; "c2"] [Some "c1c2"; None])) with
       | inr plan => Some plan
       | inl _ => None
       end)
  = Some [(2, TScan, []); (3, TFilter, [2]); (4, TOutput, [3]);
          (5, TScan, []); (6, TOutput, [5]);
          (1, TDeDup, [4; 6]); (0, TAggregate, [1])]%nat.
Proof. vm_compute. reflexivity. Qed.

(** * Further properties *)


(** ** The int32 codec *)

Lemma decodeInt32_app_encode v rest :
  decodeInt32 (encodeInt32 v +:+ rest) = Some (wrap32 v).
Proof.
  unfold decodeInt32, encodeInt32. cbv beta iota zeta delta [append].
  rewrite !Z_of_byte_of_Z. f_equal. unfold wrap32.
  change (2 ^ 8) with 256. change (2 ^ 16) with 65536.
  change (2 ^ 24) with 16777216. change (2 ^ 32) with 4294967296 in *.
  change (2 ^ 31) with 2147483648 in *.
  Z.to_euclidean_division_equations. lia.
Qed.

Lemma wrap32_range v : INT32_MIN <= wrap32 v <= INT32_MAX.
Proof.
  unfold INT32_MIN, INT32_MAX, wrap32.
  change (2 ^ 32) with 4294967296 in *.
  change (2 ^ 31) with 2147483648 in *.
  Z.to_euclidean_division_equations. lia.
Qed.

(** X1: the 4-byte little-endian image of an int32 that the processors store
    in values and keys.  Decoding an encoded integer, whatever follows it,
    gives back the integer reduced to the int32 range; the image is always
    4 bytes long; and two integers have the same image exactly when they
    agree modulo 2^32. *)
Theorem int32_codec_round_trip (v : Z) (rest : string) :
  decodeInt32 (encodeInt32 v +:+ rest) = Some (wrap32 v) /\
  String.length (encodeInt32 v) = 4%nat /\
  INT32_MIN <= wrap32 v <= INT32_MAX /\
  encodeInt32 (wrap32 v) = encodeInt32 v /\
  (forall w, encodeInt32 v = encodeInt32 w <-> wrap32 v = wrap32 w).
Proof.
  split; [apply decodeInt32_app_encode|].
  split; [reflexivity|].
  split; [apply wrap32_range|].
  assert (Hre : forall u, encodeInt32 (wrap32 u) = encodeInt32 u).
  { intros u. unfold encodeInt32. f_equal; [|f_equal; [|f_equal; [|f_equal]]];
      f_equal; unfold wrap32;
      change (2 ^ 8) with 256; change (2 ^ 16) with 65536;
      change (2 ^ 24) with 16777216; change (2 ^ 32) with 4294967296;
      change (2 ^ 31) with 2147483648;
      Z.to_euclidean_division_equations; lia. }
  split; [apply Hre|].
  intros w. split.
  - intros E.
    pose proof (decodeInt32_app_encode v "") as Dv.
    pose proof (decodeInt32_app_encode w "") as Dw.
    rewrite E in Dv. congruence.
  - intros E. rewrite <- (Hre v), <- (Hre w), E. reflexivity.
Qed.

(** ** The id allocator: effects *)

Lemma decodeInt32_None val :
  decodeInt32 val = None <-> (String.length val < 4)%nat.
Proof.
  unfold decodeInt32.
  destruct val as [|b0 [|b1 [|b2 [|b3 rest]]]]; simpl; split;
    try reflexivity; try lia; try discriminate; auto.
Qed.

Lemma MetaCommon_to_fault f :
  MetaCommon_to (fault_code f) = cpp2.E_LEADER_CHANGED \/
  MetaCommon_to (fault_code f) = cpp2.E_STORE_FAILURE.
Proof. destruct f; auto. Qed.

(** X2: the three ways [autoIncrementId] ends.  When it returns an id, the
    table differs from the one before only under [kIdKey], which now holds
    the image of the id, the id is an int32 and reading the counter gives
    it back.  When it returns an error, the table is unchanged and the
    code is E_LEADER_CHANGED or E_STORE_FAILURE.  It reads past its buffer
    only when the stored counter is shorter than 4 bytes. *)
Theorem autoIncrementId_effects (s : NebulaStore) :
  match autoIncrementId s with
  | Some (inr id, s') =>
      kv s' = <[kIdKey := encodeInt32 id]> (kv s) /\
      INT32_MIN <= id <= INT32_MAX /\
      stored_id s' = Some id
  | Some (inl e, s') =>
      kv s' = kv s /\ (e = cpp2.E_LEADER_CHANGED \/ e = cpp2.E_STORE_FAILURE)
  | None =>
      exists val, kv s !! kIdKey = Some val /\ (String.length val < 4)%nat
  end.
Proof.
  unfold autoIncrementId, engine_get.
  destruct (next_outcome s) as [[f|] s1] eqn:Hn;
    pose proof (next_outcome_kv _ _ _ Hn) as K1.
  - destruct (fault_code_not_ok f) as [-> ->]. cbn [negb].
    split; [exact K1 | apply MetaCommon_to_fault].
  - assert (Hput : forall id0, INT32_MIN <= id0 <= INT32_MAX ->
      match (let '(ret', s2) := engine_multiPut [(kIdKey, encodeInt32 id0)] s1 in
             if negb (kvstore.ResultCode_eqb ret' kvstore.SUCCEEDED)
             then Some (inl (MetaCommon_to ret'), s2)
             else Some (inr id0, s2)) with
      | Some (inr id, s') =>
          kv s' = <[kIdKey := encodeInt32 id]> (kv s) /\
          INT32_MIN <= id <= INT32_MAX /\ stored_id s' = Some id
      | Some (inl e, s') =>
          kv s' = kv s /\ (e = cpp2.E_LEADER_CHANGED \/ e = cpp2.E_STORE_FAILURE)
      | None => False
      end).
    { intros id0 Hid. unfold engine_multiPut.
      destruct (next_outcome s1) as [[f|] s2] eqn:Hn2;
        pose proof (next_outcome_kv _ _ _ Hn2) as K2.
      - destruct (fault_code_not_ok f) as [-> _]. cbn [negb].
        split; [congruence | apply MetaCommon_to_fault].
      - unfold stored_id.
        cbn [kvstore.ResultCode_eqb negb set_kv kv fold_left fst snd].
        rewrite K2, K1. split; [reflexivity|]. split; [exact Hid|].
        rewrite lookup_insert_eq.
        now apply decode_encode. }
    destruct (kv s1 !! kIdKey) as [val|] eqn:Hval.
    + cbn [kvstore.ResultCode_eqb negb].
      destruct (decodeInt32 val) as [v|] eqn:Hdec.
      * specialize (Hput (wrap32 (v + 1)) (wrap32_range _)).
        destruct (engine_multiPut _ s1) as [ret' s2].
        destruct (negb _); exact Hput.
      * exists val. rewrite <- K1. split; [exact Hval|].
        now apply decodeInt32_None.
    + cbn [kvstore.ResultCode_eqb negb].
      specialize (Hput 1 ltac:(unfold INT32_MIN, INT32_MAX; lia)).
      destruct (engine_multiPut _ s1) as [ret' s2].
      destruct (negb _); exact Hput.
Qed.

(** ** BaseProcessor: writes *)

Lemma find_app_last {A} (f : A -> bool) l x :
  List.find f (l ++ [x]) =
  match List.find f l with
  | Some y => Some y
  | None => if f x then Some x else None
  end.
Proof.
  induction l as [|a l IH]; simpl; [reflexivity|].
  destruct (f a); auto.
Qed.

Lemma fold_insert_lookup (data : list (string * string)) :
  forall (m : gmap string string) k,
  fold_left (fun m e => <[fst e := snd e]> m) data m !! k =
  match last_written data k with
  | Some v => Some v
  | None => m !! k
  end.
Proof.
  unfold last_written.
  induction data as [|[k0 v0] rest IH]; intros m k; simpl; [reflexivity|].
  rewrite IH, find_app_last.
  destruct (List.find _ (rev rest)) as [[k1 v1]|]; simpl; [reflexivity|].
  destruct (String.eqb_spec k0 k) as [->|Hne]; simpl.
  - apply lookup_insert_eq.
  - now apply lookup_insert_ne.
Qed.

Lemma doGet_kv key s : kv (snd (doGet key s)) = kv s.
Proof.
  unfold doGet, engine_get.
  destruct (next_outcome s) as [[f|] s1] eqn:Hn;
    pose proof (next_outcome_kv _ _ _ Hn) as K1.
  - destruct (fault_code_not_ok f) as [-> _]. exact K1.
  - destruct (kv s1 !! key); exact K1.
Qed.

Lemma doGet_healthy s key :
  healthy s ->
  exists s', healthy s' /\ kv s' = kv s /\
    doGet key s =
    (match kv s !! key with
     | Some v => inr v
     | None => inl cpp2.E_NOT_FOUND
     end, s').
Proof.
  intros Hh. unfold doGet.
  destruct (engine_get_healthy s Hh key) as (s' & Hh' & Hkv & ->).
  exists s'. split; [exact Hh'|]. split; [exact Hkv|].
  destruct (kv s !! key); reflexivity.
Qed.

(** X3: on an engine without faults [doPut] answers SUCCEEDED, finishes the
    request once, and a [doGet] of any key afterwards finds the value of
    the last pair of the batch with that key, or what the key held before
    when the batch does not mention it. *)
Theorem doPut_read_back (data : list (string * string)) (p : Processor)
    (k : string) :
  healthy (kvstore_ p) ->
  resp_code (doPut data p) = cpp2.SUCCEEDED /\
  finished (doPut data p) = S (finished p) /\
  fst (doGet k (kvstore_ (doPut data p))) =
    match last_written data k with
    | Some v => inr v
    | None =>
        match kv (kvstore_ p) !! k with
        | Some v => inr v
        | None => inl cpp2.E_NOT_FOUND
        end
    end.
Proof.
  intros Hh. destruct p as [s code fin]. unfold doPut. cbn [kvstore_] in *.
  destruct (engine_multiPut_healthy s Hh data) as (s' & Hh' & Hkv & ->).
  cbn [onFinished handleErrorCode set_store kvstore_ resp_code finished MetaCommon_to].
  split; [reflexivity|]. split; [reflexivity|].
  destruct (doGet_healthy s' k Hh') as (s'' & _ & _ & ->). cbn [fst].
  rewrite Hkv, fold_insert_lookup.
  destruct (last_written data k); reflexivity.
Qed.

Lemma engine_remove_healthy s key :
  healthy s ->
  exists s', healthy s' /\ kv s' = delete key (kv s) /\
    engine_remove key s = (kvstore.SUCCEEDED, s').
Proof.
  intros Hh. unfold engine_remove.
  destruct (next_outcome_healthy s Hh) as (s' & -> & Hh' & Hkv).
  eexists. split; [|split; [|reflexivity]]; simpl; auto. now rewrite Hkv.
Qed.

(** X4: on an engine without faults [doMultiRemove] and [doRemove] answer
    SUCCEEDED and finish the request once; afterwards [hostExist] and
    [spaceExist] answer E_NOT_FOUND for every removed key, and the answer
    of [hostExist] for any other key is what it was before. *)
Theorem removed_keys_are_not_found `{MetaServiceUtils}
    (keys : list string) (key : string) (p : Processor) :
  healthy (kvstore_ p) ->
  (resp_code (doMultiRemove keys p) = cpp2.SUCCEEDED /\
   finished (doMultiRemove keys p) = S (finished p) /\
   (forall k, In k keys ->
      fst (hostExist k (kvstore_ (doMultiRemove keys p))) = cpp2.E_NOT_FOUND) /\
   (forall id, In (spaceKey id) keys ->
      fst (spaceExist id (kvstore_ (doMultiRemove keys p))) = cpp2.E_NOT_FOUND) /\
   (forall k, ~ In k keys ->
      fst (hostExist k (kvstore_ (doMultiRemove keys p))) =
      fst (hostExist k (kvstore_ p)))) /\
  (resp_code (doRemove key p) = cpp2.SUCCEEDED /\
   finished (doRemove key p) = S (finished p) /\
   fst (hostExist key (kvstore_ (doRemove key p))) = cpp2.E_NOT_FOUND /\
   (forall k, k <> key ->
      fst (hostExist k (kvstore_ (doRemove key p))) =
      fst (hostExist k (kvstore_ p)))).
Proof.
  intros Hh. destruct p as [s code fin]. cbn [kvstore_ finished] in *.
  assert (Hexist : forall s0, healthy s0 -> forall k,
    fst (hostExist k s0) =
    match kv s0 !! k with Some _ => cpp2.SUCCEEDED | None => cpp2.E_NOT_FOUND end).
  { intros s0 Hh0 k. unfold hostExist.
    destruct (doGet_healthy s0 k Hh0) as (s1 & _ & _ & ->).
    destruct (kv s0 !! k); reflexivity. }
  split.
  - unfold doMultiRemove. cbn [kvstore_].
    destruct (engine_multiRemove_healthy s Hh keys) as (s' & Hh' & Hkv & ->).
    cbn [onFinished handleErrorCode set_store kvstore_ resp_code finished
         MetaCommon_to].
    split; [reflexivity|]. split; [reflexivity|]. split; [|split].
    + intros k Hk. rewrite (Hexist s' Hh'), Hkv, fold_delete_member; auto.
    + intros id Hk. unfold spaceExist.
      destruct (doGet_healthy s' (spaceKey id) Hh') as (s1 & _ & _ & ->).
      rewrite Hkv, fold_delete_member; auto.
    + intros k Hk. rewrite (Hexist s' Hh'), (Hexist s Hh), Hkv, fold_delete_other; auto.
  - unfold doRemove. cbn [kvstore_].
    destruct (engine_remove_healthy s key Hh) as (s' & Hh' & Hkv & ->).
    cbn [onFinished handleErrorCode set_store kvstore_ resp_code finished
         MetaCommon_to].
    split; [reflexivity|]. split; [reflexivity|]. split.
    + rewrite (Hexist s' Hh'), Hkv, lookup_delete_eq. reflexivity.
    + intros k Hk. rewrite (Hexist s' Hh'), (Hexist s Hh), Hkv, lookup_delete_ne; auto.
Qed.

(** X5: on an engine without faults, after [doSyncPut] has stored the image
    of an int32 id under [indexSpaceKey name], [getSpaceId name] returns
    that id, and a name whose key is a different one and was absent is
    still answered with E_NOT_FOUND. *)
Theorem getSpaceId_reads_registration `{MetaServiceUtils}
    (name : string) (id : Z) (s : NebulaStore) :
  healthy s -> INT32_MIN <= id <= INT32_MAX ->
  exists s',
    doSyncPut [(indexSpaceKey name, encodeInt32 id)] s = (cpp2.SUCCEEDED, s') /\
    fst (getSpaceId name s') = Some (inr id) /\
    (forall other,
       indexSpaceKey other <> indexSpaceKey name ->
       kv s !! indexSpaceKey other = None ->
       fst (getSpaceId other s') = Some (inl cpp2.E_NOT_FOUND)).
Proof.
  intros Hh Hid. unfold doSyncPut.
  destruct (engine_multiPut_healthy s Hh [(indexSpaceKey name, encodeInt32 id)])
    as (s' & Hh' & Hkv & ->).
  cbn [fold_left fst snd] in Hkv.
  exists s'. split; [reflexivity|]. split.
  - unfold getSpaceId.
    destruct (doGet_healthy s' (indexSpaceKey name) Hh') as (s1 & _ & _ & ->).
    rewrite Hkv, lookup_insert_eq. cbn [fst]. now rewrite decode_encode.
  - intros other Hne Habs. unfold getSpaceId.
    destruct (doGet_healthy s' (indexSpaceKey other) Hh') as (s1 & _ & _ & ->).
    rewrite Hkv, lookup_insert_ne, Habs by congruence. reflexivity.
Qed.

(** X6: [doSyncPutAndUpdate] and [doSyncMultiRemoveAndUpdate] finish the
    request exactly once.  When they answer SUCCEEDED the table is the
    written (removed) one with the last-update time stamped on it.  When
    they answer an error the table is either untouched or holds the data
    change without the stamp; the latter happens whenever the data step
    commits and the time step meets an engine fault: the two steps are not
    one atomic operation. *)
Theorem composite_writes_not_atomic `{MetaServiceUtils}
    (data : list (string * string)) (keys : list string) (now : Z)
    (p : Processor) :
  let written := fold_left (fun m e => <[fst e := snd e]> m) data (kv (kvstore_ p)) in
  let removed := fold_left (fun m k => delete k m) keys (kv (kvstore_ p)) in
  let stamp m := <[lastUpdateTimeKey := lastUpdateTimeVal now]> m in
  let p1 := doSyncPutAndUpdate data now p in
  let p2 := doSyncMultiRemoveAndUpdate keys now p in
  (finished p1 = S (finished p) /\
   (resp_code p1 = cpp2.SUCCEEDED /\ kv (kvstore_ p1) = stamp written \/
    resp_code p1 <> cpp2.SUCCEEDED /\
    (kv (kvstore_ p1) = kv (kvstore_ p) \/ kv (kvstore_ p1) = written)) /\
   (forall f rest, outcomes (kvstore_ p) = None :: Some f :: rest ->
      resp_code p1 <> cpp2.SUCCEEDED /\ kv (kvstore_ p1) = written)) /\
  (finished p2 = S (finished p) /\
   (resp_code p2 = cpp2.SUCCEEDED /\ kv (kvstore_ p2) = stamp removed \/
    resp_code p2 <> cpp2.SUCCEEDED /\
    (kv (kvstore_ p2) = kv (kvstore_ p) \/ kv (kvstore_ p2) = removed)) /\
   (forall f rest, outcomes (kvstore_ p) = None :: Some f :: rest ->
      resp_code p2 <> cpp2.SUCCEEDED /\ kv (kvstore_ p2) = removed)).
Proof.
  destruct p as [[m outs ld] code fin]. cbv zeta. cbn [kvstore_ finished kv outcomes].
  assert (Hne : forall f, MetaCommon_to (fault_code f) <> cpp2.SUCCEEDED)
    by (intros []; discriminate).
  unfold doSyncPutAndUpdate, doSyncMultiRemoveAndUpdate, LastUpdateTimeMan_update,
    engine_multiPut, engine_multiRemove, next_outcome.
  cbn [kvstore_ outcomes kv leader].
  destruct outs as [|[f|] [|[g|] rest]];
    repeat (cbn [kvstore.ResultCode_eqb negb set_store set_kv kvstore_ outcomes kv leader
                 onFinished handleErrorCode resp_code finished fold_left fst snd
                 MetaCommon_to fault_code];
            try match goal with
                | |- context [fault_code ?f] => is_var f; destruct f
                end);
    (split; (split; [reflexivity|]; split;
             [first [left; split; [reflexivity|reflexivity]
                    | right; split; [discriminate|]; first [left; reflexivity | right; reflexivity]]
             | intros f' rest' E;
               first [ discriminate E
                     | injection E as <-; intros; split; [discriminate | reflexivity] ] ])).
Qed.

(** ** DropSpace: the other paths *)

Lemma doGet_error key s e s' : doGet key s = (inl e, s') -> e <> cpp2.SUCCEEDED.
Proof.
  unfold doGet, engine_get.
  destruct (next_outcome s) as [[f|] s1].
  - destruct f; intros [= <- <-]; discriminate.
  - destruct (kv s1 !! key); intros [= <- <-]; discriminate.
Qed.

Lemma doPrefix_error key s e s' : doPrefix key s = (inl e, s') -> e <> cpp2.SUCCEEDED.
Proof.
  unfold doPrefix, engine_prefix.
  destruct (next_outcome s) as [[f|] s1].
  - destruct f; intros [= <- <-]; discriminate.
  - intros [= <- <-].
Qed.

Lemma getSpaceId_kv `{MetaServiceUtils} name s :
  kv (snd (getSpaceId name s)) = kv s.
Proof.
  unfold getSpaceId. pose proof (doGet_kv (indexSpaceKey name) s) as K.
  destruct (doGet (indexSpaceKey name) s) as [[e|v] s']; exact K.
Qed.

Lemma doSyncMultiRemoveAndUpdate_frame `{MetaServiceUtils} keys now p :
  finished (doSyncMultiRemoveAndUpdate keys now p) = S (finished p) /\
  (forall k, k <> lastUpdateTimeKey ->
     kv (kvstore_ (doSyncMultiRemoveAndUpdate keys now p)) !! k = None \/
     kv (kvstore_ (doSyncMultiRemoveAndUpdate keys now p)) !! k
       = kv (kvstore_ p) !! k) /\
  (resp_code (doSyncMultiRemoveAndUpdate keys now p) = cpp2.SUCCEEDED ->
     kv (kvstore_ (doSyncMultiRemoveAndUpdate keys now p)) !! lastUpdateTimeKey
       = Some (lastUpdateTimeVal now)).
Proof.
  destruct p as [[m outs ld] code fin].
  assert (Hdel : forall k,
    fold_left (fun m k => delete k m) keys m !! k = None \/
    fold_left (fun m k => delete k m) keys m !! k = m !! k).
  { intros k. destruct (In_dec String.string_dec k keys).
    - left. now apply fold_delete_member.
    - right. now apply fold_delete_other. }
  unfold doSyncMultiRemoveAndUpdate, LastUpdateTimeMan_update,
    engine_multiPut, engine_multiRemove, next_outcome.
  cbn [kvstore_ outcomes kv leader].
  destruct outs as [|[f|] [|[g|] rest]];
    repeat (cbn [kvstore.ResultCode_eqb negb set_store set_kv kvstore_ outcomes kv leader
                 onFinished handleErrorCode resp_code finished fold_left fst snd
                 MetaCommon_to fault_code];
            try match goal with
                | |- context [fault_code ?f] => is_var f; destruct f
                end);
    (split; [reflexivity|]; split;
     [ intros k Hk; rewrite ?lookup_insert_ne by congruence; auto
     | first [ discriminate | intros _; apply lookup_insert_eq ] ]).
Qed.

(** X7: whatever faults the engine raises, a run of
    [DropSpaceProcessor::process] finishes the request exactly once and,
    apart from the last-update time, never adds or changes a key: every
    key is either gone or holds what it held.  When the answer is
    SUCCEEDED either the last-update time has been stamped, or the request
    carried [if_exists] and the table is untouched. *)
Theorem DropSpace_only_removes `{MetaServiceUtils}
    (req : DropSpaceReq) (now : Z) (p p' : Processor) :
  DropSpaceProcessor_process req now p = Some p' ->
  finished p' = S (finished p) /\
  (forall k, k <> lastUpdateTimeKey ->
     kv (kvstore_ p') !! k = None \/
     kv (kvstore_ p') !! k = kv (kvstore_ p) !! k) /\
  (resp_code p' = cpp2.SUCCEEDED ->
     kv (kvstore_ p') !! lastUpdateTimeKey = Some (lastUpdateTimeVal now) \/
     get_if_exists req = true /\ kv (kvstore_ p') = kv (kvstore_ p)).
Proof.
  destruct p as [s code fin]. unfold DropSpaceProcessor_process.
  cbn [kvstore_ finished].
  pose proof (getSpaceId_kv (get_space_name req) s) as K1.
  unfold getSpaceId in *.
  destruct (doGet (indexSpaceKey (get_space_name req)) s) as [[e|value] s1] eqn:Hget;
    cbn [snd] in K1.
  - apply doGet_error in Hget. intros [= <-].
    cbn [onFinished handleErrorCode set_store kvstore_ resp_code finished].
    split; [reflexivity|]. split; [rewrite K1; auto|].
    destruct (cpp2.ErrorCode_eqb e cpp2.E_NOT_FOUND); [|congruence].
    destruct (get_if_exists req); [auto | congruence].
  - destruct (decodeInt32 value) as [id|]; [|discriminate].
    unfold set_store. cbn [kvstore_ resp_code finished].
    pose proof (doPrefix_kv (partPrefix id) s1) as K2.
    destruct (doPrefix (partPrefix id) s1) as [[e2|iter] s2] eqn:Hp2; cbn [snd] in K2.
    { apply doPrefix_error in Hp2. intros [= <-].
      cbn [onFinished handleErrorCode kvstore_ resp_code finished].
      split; [reflexivity|]. split; [rewrite K2, K1; auto | congruence]. }
    pose proof (doPrefix_kv (roleSpacePrefix id) s2) as K3.
    destruct (doPrefix (roleSpacePrefix id) s2) as [[e3|roleIter] s3] eqn:Hp3;
      cbn [snd] in K3.
    { apply doPrefix_error in Hp3. intros [= <-].
      cbn [onFinished handleErrorCode kvstore_ resp_code finished].
      split; [reflexivity|]. split; [rewrite K3, K2, K1; auto | congruence]. }
    pose proof (doPrefix_kv (roleSpacePrefix id) s3) as K4.
    destruct (doPrefix (roleSpacePrefix id) s3) as [[e4|lstIter] s4] eqn:Hp4;
      cbn [snd] in K4.
    { apply doPrefix_error in Hp4. intros [= <-].
      cbn [onFinished handleErrorCode kvstore_ resp_code finished].
      split; [reflexivity|]. split; [rewrite K4, K3, K2, K1; auto | congruence]. }
    intros [= <-].
    match goal with
    | |- context [doSyncMultiRemoveAndUpdate ?keys now ?q] =>
        destruct (doSyncMultiRemoveAndUpdate_frame keys now q) as (F1 & F2 & F3)
    end.
    cbn [kvstore_ finished] in *.
    split; [exact F1|]. split.
    + intros k Hk. rewrite <- K1, <- K2, <- K3, <- K4. auto.
    + intros Hc. left. auto.
Qed.

Lemma DropSpace_absent_run `{MetaServiceUtils}
    (req : DropSpaceReq) (now : Z) (p : Processor) :
  healthy (kvstore_ p) ->
  kv (kvstore_ p) !! indexSpaceKey (get_space_name req) = None ->
  exists p',
    DropSpaceProcessor_process req now p = Some p' /\
    resp_code p' = (if get_if_exists req then cpp2.SUCCEEDED else cpp2.E_NOT_FOUND) /\
    finished p' = S (finished p) /\
    kv (kvstore_ p') = kv (kvstore_ p) /\
    healthy (kvstore_ p').
Proof.
  intros Hh Habs. destruct p as [s code fin]. cbn [kvstore_ finished] in *.
  unfold DropSpaceProcessor_process, getSpaceId. cbn [kvstore_].
  destruct (doGet_healthy s (indexSpaceKey (get_space_name req)) Hh)
    as (s1 & Hh1 & K1 & ->).
  rewrite Habs. eexists. split; [reflexivity|].
  cbn [cpp2.ErrorCode_eqb onFinished handleErrorCode set_store kvstore_ resp_code
       finished].
  repeat split; auto.
Qed.

(** X8: on an engine without faults, dropping a space whose name is not
    registered leaves the table unchanged and answers E_NOT_FOUND, or
    SUCCEEDED when the request carries [if_exists]. *)
Theorem DropSpace_unknown_space `{MetaServiceUtils}
    (req : DropSpaceReq) (now : Z) (p : Processor) :
  healthy (kvstore_ p) ->
  kv (kvstore_ p) !! indexSpaceKey (get_space_name req) = None ->
  exists p',
    DropSpaceProcessor_process req now p = Some p' /\
    resp_code p' = (if get_if_exists req then cpp2.SUCCEEDED else cpp2.E_NOT_FOUND) /\
    finished p' = S (finished p) /\
    kv (kvstore_ p') = kv (kvstore_ p).
Proof.
  intros Hh Habs.
  destruct (DropSpace_absent_run req now p Hh Habs) as (p' & ? & ? & ? & ? & _).
  eauto.
Qed.

Lemma DropSpace_healthy_stays `{MetaServiceUtils}
    (req : DropSpaceReq) (now : Z) (p : Processor) (id : Z) :
  healthy (kvstore_ p) ->
  kv (kvstore_ p) !! indexSpaceKey (get_space_name req) = Some (encodeInt32 id) ->
  INT32_MIN <= id <= INT32_MAX ->
  exists p',
    DropSpaceProcessor_process req now p = Some p' /\
    healthy (kvstore_ p').
Proof.
  intros Hh Hidx Hid.
  destruct p as [store0 code0 fin0]. cbn [kvstore_ finished] in *.
  unfold DropSpaceProcessor_process, getSpaceId, doGet.
  cbn [kvstore_].
  destruct (engine_get_healthy store0 Hh (indexSpaceKey (get_space_name req)))
    as (s1 & Hh1 & K1 & ->).
  rewrite Hidx. cbn [kvstore.ResultCode_eqb negb]. rewrite (decode_encode id Hid).
  unfold set_store. cbn [kvstore_ resp_code finished].
  destruct (doPrefix_healthy s1 Hh1 (partPrefix id)) as (s2 & Hh2 & K2 & ->).
  destruct (doPrefix_healthy s2 Hh2 (roleSpacePrefix id)) as (s3 & Hh3 & K3 & ->).
  destruct (doPrefix_healthy s3 Hh3 (roleSpacePrefix id)) as (s4 & Hh4 & K4 & ->).
  unfold doSyncMultiRemoveAndUpdate. cbn [kvstore_].
  match goal with
  | |- context [engine_multiRemove ?keys s4] =>
      destruct (engine_multiRemove_healthy s4 Hh4 keys) as (s5 & Hh5 & K5 & ->)
  end.
  cbn [kvstore.ResultCode_eqb negb].
  unfold LastUpdateTimeMan_update, set_store. cbn [kvstore_ resp_code finished].
  destruct (engine_multiPut_healthy s5 Hh5 [(lastUpdateTimeKey, lastUpdateTimeVal now)])
    as (s6 & Hh6 & K6 & ->).
  eexists. split; [reflexivity|]. exact Hh6.
Qed.

(** X9: on an engine without faults, dropping a registered space twice
    succeeds the first time; the second run finds the name gone, answers
    E_NOT_FOUND (SUCCEEDED with [if_exists]) and changes nothing. *)
Theorem DropSpace_twice `{MetaServiceUtils}
    (req : DropSpaceReq) (now1 now2 : Z) (p : Processor) (id : Z) :
  healthy (kvstore_ p) ->
  kv (kvstore_ p) !! indexSpaceKey (get_space_name req) = Some (encodeInt32 id) ->
  INT32_MIN <= id <= INT32_MAX ->
  indexSpaceKey (get_space_name req) <> lastUpdateTimeKey ->
  exists p1 p2,
    DropSpaceProcessor_process req now1 p = Some p1 /\
    resp_code p1 = cpp2.SUCCEEDED /\
    DropSpaceProcessor_process req now2 p1 = Some p2 /\
    resp_code p2 = (if get_if_exists req then cpp2.SUCCEEDED else cpp2.E_NOT_FOUND) /\
    finished p2 = S (S (finished p)) /\
    kv (kvstore_ p2) = kv (kvstore_ p1).
Proof.
  intros Hh Hidx Hid Hne.
  destruct (DropSpace_healthy_run req now1 p id Hh Hidx Hid)
    as (p1 & Hrun & Hcode & Hfin & Hkv).
  destruct (DropSpace_healthy_stays req now1 p id Hh Hidx Hid) as (p1' & Hrun' & Hh1).
  rewrite Hrun in Hrun'. injection Hrun' as <-.
  assert (Habs : kv (kvstore_ p1) !! indexSpaceKey (get_space_name req) = None).
  { rewrite Hkv, lookup_insert_ne by congruence.
    apply fold_delete_member. unfold dropped_keys.
    rewrite !in_app_iff. simpl. auto. }
  destruct (DropSpace_absent_run req now2 p1 Hh1 Habs)
    as (p2 & Hrun2 & Hcode2 & Hfin2 & Hkv2 & _).
  exists p1, p2. repeat split; auto. now rewrite Hfin2, Hfin.
Qed.


(** ** Host enumeration *)

Lemma Ascii_compare_lt_trans a b c :
  Ascii.compare a b = Lt -> Ascii.compare b c = Lt -> Ascii.compare a c = Lt.
Proof.
  unfold Ascii.compare. rewrite !N.compare_lt_iff. lia.
Qed.

Lemma String_compare_refl s : String.compare s s = Eq.
Proof.
  induction s as [|a s IH]; simpl; auto.
  unfold Ascii.compare. now rewrite N.compare_refl.
Qed.

Lemma String_compare_lt_trans s1 : forall s2 s3,
  String.compare s1 s2 = Lt -> String.compare s2 s3 = Lt ->
  String.compare s1 s3 = Lt.
Proof.
  induction s1 as [|a s1 IH]; intros [|b s2] [|c s3]; simpl; auto; try discriminate.
  destruct (Ascii.compare a b) eqn:Hab; try discriminate.
  - apply Ascii.compare_eq_iff in Hab as ->.
    destruct (Ascii.compare b c) eqn:Hbc; try discriminate; auto.
    apply IH.
  - intros _. destruct (Ascii.compare b c) eqn:Hbc; try discriminate.
    + apply Ascii.compare_eq_iff in Hbc as <-. now rewrite Hab.
    + intros _. now rewrite (Ascii_compare_lt_trans a b c).
Qed.

Lemma HostAddr_ltb_irrefl a : HostAddr_ltb a a = false.
Proof.
  unfold HostAddr_ltb. rewrite String.eqb_refl. apply Z.ltb_irrefl.
Qed.

Lemma HostAddr_ltb_trans a b c :
  HostAddr_ltb a b = true -> HostAddr_ltb b c = true -> HostAddr_ltb a c = true.
Proof.
  destruct a as [ha pa], b as [hb pb], c as [hc pc]. unfold HostAddr_ltb. simpl.
  assert (Hlt : forall x y z, String.ltb x y = true -> String.ltb y z = true ->
                              String.ltb x z = true).
  { intros x y z. unfold String.ltb.
    destruct (String.compare x y) eqn:C1; try discriminate.
    destruct (String.compare y z) eqn:C2; try discriminate.
    now rewrite (String_compare_lt_trans _ _ _ C1 C2). }
  assert (Hirr : forall x, String.ltb x x = false).
  { intros x. unfold String.ltb. now rewrite String_compare_refl. }
  destruct (String.eqb_spec ha hb) as [E1|N1];
    destruct (String.eqb_spec hb hc) as [E2|N2];
    destruct (String.eqb_spec ha hc) as [E3|N3];
    try (exfalso; congruence); subst; try lia; auto.
  - intros H1 H2. pose proof (Hlt _ _ _ H1 H2) as H3.
    rewrite Hirr in H3. discriminate.
  - apply Hlt.
Qed.

Lemma HostAddr_ltb_total a b :
  HostAddr_ltb a b = false -> HostAddr_ltb b a = false -> a = b.
Proof.
  destruct a as [ha pa], b as [hb pb]. unfold HostAddr_ltb. simpl.
  destruct (String.eqb_spec ha hb) as [->|Hab].
  - rewrite String.eqb_refl. intros. f_equal. lia.
  - destruct (String.eqb_spec hb ha) as [->|_]; [contradiction|].
    unfold String.ltb. rewrite (String.compare_antisym hb ha).
    destruct (String.compare ha hb) eqn:C; simpl; try discriminate.
    apply String.compare_eq_iff in C. contradiction.
Qed.

Lemma set_emplace_In h l x : In x (set_emplace h l) <-> x = h \/ In x l.
Proof.
  induction l as [|y rest IH]; simpl; [intuition|].
  destruct (HostAddr_ltb h y) eqn:L1; simpl; [intuition|].
  destruct (HostAddr_ltb y h) eqn:L2; simpl.
  - rewrite IH. intuition.
  - pose proof (HostAddr_ltb_total _ _ L1 L2). subst y. intuition.
Qed.

Lemma set_emplace_sorted h l : hosts_sorted l -> hosts_sorted (set_emplace h l).
Proof.
  unfold hosts_sorted. induction 1 as [|y rest Hs IH Hall]; simpl.
  - repeat constructor.
  - destruct (HostAddr_ltb h y) eqn:L1.
    + constructor; [constructor; auto|].
      constructor; auto.
      eapply List.Forall_impl; [|exact Hall]. intros z Hz.
      eapply HostAddr_ltb_trans; eauto.
    + destruct (HostAddr_ltb y h) eqn:L2.
      * constructor; auto.
        apply List.Forall_forall. intros z Hz. apply set_emplace_In in Hz as [->|Hz]; auto.
        rewrite List.Forall_forall in Hall. auto.
      * constructor; auto.
Qed.

Lemma set_emplace_nonempty h l : set_emplace h l <> [].
Proof.
  destruct l as [|y rest]; simpl; [discriminate|].
  destruct (HostAddr_ltb h y); [discriminate|].
  destruct (HostAddr_ltb y h); discriminate.
Qed.

Lemma hosts_sorted_NoDup l : hosts_sorted l -> List.NoDup l.
Proof.
  induction 1 as [|y rest Hs IH Hall]; constructor; auto.
  intros Hin. rewrite List.Forall_forall in Hall. apply Hall in Hin.
  now rewrite HostAddr_ltb_irrefl in Hin.
Qed.

Lemma pairs_of_In m s h :
  In (s, h) (pairs_of m) <-> exists hs, In (s, hs) m /\ In h hs.
Proof.
  unfold pairs_of. rewrite in_flat_map. split.
  - intros ([s' hs] & Hin & Hp). simpl in Hp.
    apply in_map_iff in Hp as (h' & [= <- <-] & Hh). eauto.
  - intros (hs & Hin & Hh). exists (s, hs). split; auto. simpl.
    apply in_map_iff. eauto.
Qed.

Lemma map_emplace_pairs sp ph m s h :
  In (s, h) (pairs_of (map_emplace sp ph m)) <->
  (s = sp /\ h = ph) \/ In (s, h) (pairs_of m).
Proof.
  induction m as [|[k hs] rest IH].
  - simpl. intuition congruence.
  - cbn [map_emplace]. destruct (Z.ltb sp k) eqn:L1.
    + change (pairs_of ((sp, [ph]) :: (k, hs) :: rest))
        with ((sp, ph) :: pairs_of ((k, hs) :: rest)).
      simpl. intuition congruence.
    + destruct (Z.ltb k sp) eqn:L2.
      * change (pairs_of ((k, hs) :: ?x))
          with (List.map (pair k) hs ++ pairs_of x) in *.
        unfold pairs_of in *. cbn [flat_map fst snd].
        rewrite !in_app_iff, IH. intuition.
      * assert (k = sp) by lia. subst k.
        unfold pairs_of. cbn [flat_map fst snd].
        rewrite !in_app_iff, !in_map_iff.
        split.
        -- intros [(h' & [= <- <-] & Hin) | Hr]; auto.
           apply set_emplace_In in Hin as [->|Hin]; auto.
           right. left. eauto.
        -- intros [[-> ->] | [(h' & [= <- <-] & Hin) | Hr]]; auto.
           ++ left. exists ph. split; auto. apply set_emplace_In. auto.
           ++ left. exists h'. split; auto. apply set_emplace_In. auto.
Qed.

Lemma map_emplace_sorted sp ph m :
  enumeration_sorted m -> enumeration_sorted (map_emplace sp ph m).
Proof.
  unfold enumeration_sorted. intros [Hs Hall].
  induction Hs as [|[k hs] rest Hs IH Hlt]; simpl.
  - split; repeat constructor; simpl; auto; discriminate.
  - inversion Hall as [|? ? [Hh Hne] Hall']; subst.
    destruct (Z.ltb sp k) eqn:L1.
    + split.
      * constructor; [constructor; auto|].
        constructor; [simpl; lia|].
        eapply List.Forall_impl; [|exact Hlt]. simpl. intros; lia.
      * constructor; [|constructor; auto]. simpl. split; [repeat constructor|discriminate].
    + destruct (Z.ltb k sp) eqn:L2.
      * destruct (IH Hall') as [IH1 IH2]. split.
        -- constructor; auto.
           apply List.Forall_forall. intros [k' hs'] Hin. simpl.
           assert (Hk : In k' (List.map fst (map_emplace sp ph rest)))
             by (apply in_map_iff; exists (k', hs'); auto).
           assert (Hkeys : forall m0 x, In x (List.map fst (map_emplace sp ph m0)) ->
                                        x = sp \/ In x (List.map fst m0)).
           { clear. induction m0 as [|[k0 h0] r0 IHm]; simpl; [intuition|].
             intros x. destruct (Z.ltb sp k0); simpl; [intuition|].
             destruct (Z.ltb k0 sp); simpl; [|intuition].
             intros [->|Hx]; auto. apply IHm in Hx. intuition. }
           apply Hkeys in Hk as [->|Hk]; [lia|].
           apply in_map_iff in Hk as ([k2 h2] & <- & Hin2).
           rewrite List.Forall_forall in Hlt. apply (Hlt _ Hin2).
        -- constructor; auto.
      * split; [constructor; auto|].
        constructor; auto. simpl. split.
        -- now apply set_emplace_sorted.
        -- apply set_emplace_nonempty.
Qed.

Lemma enumeration_sorted_NoDup m :
  enumeration_sorted m -> List.NoDup (pairs_of m).
Proof.
  intros [Hs Hall]. induction Hs as [|[k hs] rest Hs IH Hlt]; simpl.
  - constructor.
  - inversion Hall as [|? ? [Hh Hne] Hall']; subst.
    unfold pairs_of. cbn [flat_map fst snd].
    apply List.NoDup_app.
    + apply List.NoDup_map_NoDup_ForallPairs; [|now apply hosts_sorted_NoDup].
      intros a b _ _ [= ->]. reflexivity.
    + now apply IH.
    + intros [s h] H1 H2.
      apply in_map_iff in H1 as (h' & [= <- <-] & _).
      apply pairs_of_In in H2 as (hs' & Hin & _).
      rewrite List.Forall_forall in Hlt. apply Hlt in Hin. simpl in Hin. lia.
Qed.

Section Enumeration.
Context `{MetaServiceUtils}.

Lemma fold_emplace_pairs sp hs : forall m s h,
  In (s, h) (pairs_of (fold_left (fun m ph => map_emplace sp ph m) hs m)) <->
  (s = sp /\ In h hs) \/ In (s, h) (pairs_of m).
Proof.
  induction hs as [|ph rest IH]; intros m s h; simpl; [intuition|].
  rewrite IH, map_emplace_pairs. intuition.
Qed.

Lemma fold_emplace_sorted sp hs : forall m,
  enumeration_sorted m ->
  enumeration_sorted (fold_left (fun m ph => map_emplace sp ph m) hs m).
Proof.
  induction hs as [|ph rest IH]; intros m Hm; simpl; auto.
  apply IH. now apply map_emplace_sorted.
Qed.

Lemma getSpacesHosts_entry_pairs spaces m e s h :
  In (s, h) (pairs_of (getSpacesHosts_entry spaces m e)) <->
  (part_selected spaces (fst e) /\ s = parsePartKeySpaceId (fst e) /\
   In h (parsePartVal (snd e))) \/
  In (s, h) (pairs_of m).
Proof.
  unfold getSpacesHosts_entry, part_selected.
  destruct (bool_decide_reflect (spaces = ∅)) as [He|He];
    destruct (bool_decide_reflect (parsePartKeySpaceId (fst e) ∈ spaces)) as [Hi|Hi];
    cbn [negb andb]; rewrite ?fold_emplace_pairs; intuition.
Qed.

Lemma getSpacesHosts_entry_sorted spaces m e :
  enumeration_sorted m -> enumeration_sorted (getSpacesHosts_entry spaces m e).
Proof.
  unfold getSpacesHosts_entry. intros Hm.
  destruct (negb _ && negb _); auto. now apply fold_emplace_sorted.
Qed.

Lemma getSpacesHosts_fold_pairs spaces iter : forall m s h,
  In (s, h) (pairs_of (fold_left (getSpacesHosts_entry spaces) iter m)) <->
  (exists e, In e iter /\ part_selected spaces (fst e) /\
             s = parsePartKeySpaceId (fst e) /\ In h (parsePartVal (snd e))) \/
  In (s, h) (pairs_of m).
Proof.
  induction iter as [|e rest IH]; intros m s h; simpl.
  - split; auto. intros [(e & [] & _) | Hm]; auto.
  - rewrite IH, getSpacesHosts_entry_pairs. split.
    + intros [(e' & Hin & Hsel) | [Hsel | Hm]]; eauto 7.
    + intros [(e' & [<- | Hin] & Hsel) | Hm]; eauto 7.
Qed.

Lemma getSpacesHosts_fold_sorted spaces iter : forall m,
  enumeration_sorted m ->
  enumeration_sorted (fold_left (getSpacesHosts_entry spaces) iter m).
Proof.
  induction iter as [|e rest IH]; intros m Hm; simpl; auto.
  apply IH. now apply getSpacesHosts_entry_sorted.
Qed.

Lemma getSpacesHosts_enumerate sn spacesHosts sn1 :
  getSpacesHosts sn = (inr spacesHosts, sn1) ->
  spacesHosts = enumerate (kv (kv_ sn)) (spaces_ sn).
Proof.
  unfold getSpacesHosts, engine_prefix, enumerate.
  destruct (next_outcome (kv_ sn)) as [[f|] s'] eqn:Hn;
    pose proof (next_outcome_kv _ _ _ Hn) as K.
  - destruct (fault_code_not_ok f) as [-> _]. discriminate.
  - cbn [kvstore.ResultCode_eqb negb]. intros [= <- _]. now rewrite K.
Qed.

Lemma enumerate_pairs table spaces s h :
  In (s, h) (pairs_of (enumerate table spaces)) <->
  exists k v,
    table !! k = Some v /\ String.prefix partPrefix0 k = true /\
    part_selected spaces k /\
    parsePartKeySpaceId k = s /\ In h (parsePartVal v).
Proof.
  unfold enumerate. rewrite getSpacesHosts_fold_pairs. split.
  - intros [([k v] & Hin & Hsel & -> & Hh) | []].
    apply List.filter_In in Hin as [Hin Hp].
    apply list_elem_of_In, elem_of_map_to_list in Hin.
    exists k, v. auto.
  - intros (k & v & Hkv & Hp & Hsel & <- & Hh). left.
    exists (k, v). split; [|auto].
    apply List.filter_In. split; [|exact Hp].
    now apply list_elem_of_In, elem_of_map_to_list.
Qed.

Lemma enumerate_sorted table spaces : enumeration_sorted (enumerate table spaces).
Proof. apply getSpacesHosts_fold_sorted. split; constructor. Qed.

(** X10: what [getSpacesHosts] enumerates.  A host is listed for a space
    exactly when some part entry of the table, of a space taken by the
    restriction [spaces_], names that space and has the host among its
    peers.  No pair is listed twice, no space has two entries and no entry
    has an empty host list. *)
Theorem getSpacesHosts_spec (sn : Snapshot)
    (spacesHosts : list (Z * list HostAddr)) (sn1 : Snapshot) :
  getSpacesHosts sn = (inr spacesHosts, sn1) ->
  (forall s h,
     In (s, h) (pairs_of spacesHosts) <->
     exists k v,
       kv (kv_ sn) !! k = Some v /\ String.prefix partPrefix0 k = true /\
       part_selected (spaces_ sn) k /\
       parsePartKeySpaceId k = s /\ In h (parsePartVal v)) /\
  List.NoDup (pairs_of spacesHosts) /\
  List.NoDup (List.map fst spacesHosts) /\
  Forall (fun sh => snd sh <> []) spacesHosts.
Proof.
  intros Hg. apply getSpacesHosts_enumerate in Hg. subst spacesHosts.
  pose proof (enumerate_sorted (kv (kv_ sn)) (spaces_ sn)) as Hsorted.
  split; [|split; [|split]].
  - intros s h. apply enumerate_pairs.
  - now apply enumeration_sorted_NoDup.
  - destruct Hsorted as [Hs _]. revert Hs.
    generalize (enumerate (kv (kv_ sn)) (spaces_ sn)).
    induction 1 as [|[k hs] rest Hs IH Hlt]; simpl; constructor; auto.
    intros Hin. apply in_map_iff in Hin as ([k' hs'] & Hk & Hin). simpl in Hk. subst k'.
    rewrite List.Forall_forall in Hlt. apply Hlt in Hin. simpl in Hin. lia.
  - destruct Hsorted as [_ Hall].
    eapply List.Forall_impl; [|exact Hall]. intros e [_ Hne]. exact Hne.
Qed.
End Enumeration.

(** ** Write blocking and checkpoints *)

Lemma all_accepted_app client a : forall log b,
  all_accepted client log (a ++ b) =
  all_accepted client log a && all_accepted client (log ++ a) b.
Proof.
  induction a as [|c rest IH]; intros log b; simpl.
  - now rewrite app_nil_r.
  - rewrite IH, <- app_assoc, andb_assoc. reflexivity.
Qed.

Section BlockingLoops.
Variable client : AdminClient.
Variable sign : EngineSignType.

Lemma blockingWrites_hosts_result space hs : forall ret log,
  exists sentNow,
    blockingWrites_hosts client sign space hs ret log =
      (if all_accepted client log sentNow then ret else cpp2.E_BLOCK_WRITE_FAILURE,
       log ++ sentNow) /\
    (forall h rest, hs = h :: rest -> In (RpcBlockingWrites space sign h) sentNow) /\
    (forall c, In c sentNow ->
       exists h, c = RpcBlockingWrites space sign h /\ In h hs) /\
    (all_accepted client log sentNow = true \/ sign = BLOCK_OFF ->
     sentNow = blocking_requests sign (List.map (pair space) hs)).
Proof.
  induction hs as [|h rest IH]; intros ret log; cbn [blockingWrites_hosts].
  - exists []. rewrite app_nil_r. simpl. repeat split; auto; try discriminate.
    intros c [].
  - destruct (rpc_blockingWrites client log space sign h) eqn:Hrpc; cbn [negb].
    + destruct (IH ret (log ++ [RpcBlockingWrites space sign h]))
        as (more & -> & _ & Hin & Hall).
      exists (RpcBlockingWrites space sign h :: more).
      cbn [all_accepted]. rewrite Hrpc, <- app_assoc. cbn [andb app].
      split; [reflexivity|]. split; [|split].
      * intros h0 rest0 [= <- <-]. now left.
      * intros c [<- | Hc]; [exists h; split; auto; now left|].
        destruct (Hin c Hc) as (h' & -> & Hh'). exists h'. split; auto. now right.
      * intros Hok. cbn [List.map blocking_requests fst snd]. f_equal. now apply Hall.
    + destruct sign eqn:Hsign; cbn [EngineSignType_eqb].
      * exists [RpcBlockingWrites space BLOCK_ON h]. cbn [all_accepted].
        rewrite Hrpc. cbn [andb]. split; [reflexivity|]. split; [|split].
        -- intros h0 rest0 [= <- <-]. now left.
        -- intros c [<- | []]. exists h. split; auto. now left.
        -- intros [Habs | Habs]; discriminate.
      * destruct (IH cpp2.E_BLOCK_WRITE_FAILURE
                     (log ++ [RpcBlockingWrites space BLOCK_OFF h]))
          as (more & -> & _ & Hin & Hall).
        exists (RpcBlockingWrites space BLOCK_OFF h :: more).
        cbn [all_accepted]. rewrite Hrpc, <- app_assoc. cbn [andb app].
        split; [now destruct (all_accepted _ _ _)|]. split; [|split].
        -- intros h0 rest0 [= <- <-]. now left.
        -- intros c [<- | Hc]; [exists h; split; auto; now left|].
           destruct (Hin c Hc) as (h' & -> & Hh'). exists h'. split; auto. now right.
        -- intros _. cbn [List.map blocking_requests fst snd]. f_equal.
           apply Hall. now right.
Qed.

Lemma blockingWrites_spaces_result spacesHosts : forall ret log,
  exists sentNow,
    blockingWrites_spaces client sign spacesHosts ret log =
      (if all_accepted client log sentNow then ret else cpp2.E_BLOCK_WRITE_FAILURE,
       log ++ sentNow) /\
    (forall s h hs, In (s, h :: hs) spacesHosts ->
       In (RpcBlockingWrites s sign h) sentNow) /\
    (forall c, In c sentNow ->
       exists s h, c = RpcBlockingWrites s sign h /\ In (s, h) (pairs_of spacesHosts)) /\
    (all_accepted client log sentNow = true \/ sign = BLOCK_OFF ->
     sentNow = blocking_requests sign (pairs_of spacesHosts)).
Proof.
  induction spacesHosts as [|[space hs] rest IH]; intros ret log;
    cbn [blockingWrites_spaces].
  - exists []. rewrite app_nil_r. simpl. repeat split; auto;
      try (intros ? ? ? []); try (intros ? []).
  - destruct (blockingWrites_hosts_result space hs ret log)
      as (s1 & -> & Hfirst1 & Hin1 & Hall1).
    destruct (IH (if all_accepted client log s1 then ret
                  else cpp2.E_BLOCK_WRITE_FAILURE) (log ++ s1))
      as (s2 & -> & Hfirst2 & Hin2 & Hall2).
    exists (s1 ++ s2). rewrite all_accepted_app, <- app_assoc.
    split; [|split; [|split]].
    + destruct (all_accepted client log s1), (all_accepted client (log ++ s1) s2);
        reflexivity.
    + intros s h hs' [[= -> ->] | Hin]; apply in_or_app.
      * left. eapply Hfirst1; eauto.
      * right. eapply Hfirst2; eauto.
    + intros c Hc. unfold pairs_of. cbn [flat_map fst snd].
      apply in_app_or in Hc as [Hc | Hc].
      * destruct (Hin1 c Hc) as (h & -> & Hh). exists space, h. split; auto.
        apply in_or_app. left. now apply in_map.
      * destruct (Hin2 c Hc) as (s & h & -> & Hh). exists s, h. split; auto.
        apply in_or_app. now right.
    + intros Hok. unfold pairs_of, blocking_requests. cbn [flat_map fst snd].
      rewrite List.map_app. f_equal.
      * apply Hall1. destruct Hok as [Hok | Hok]; auto.
        apply andb_prop in Hok as [Hok _]. auto.
      * apply Hall2. destruct Hok as [Hok | Hok]; auto.
        apply andb_prop in Hok as [_ Hok]. auto.
Qed.
End BlockingLoops.

Section SnapshotResults.
Context `{MetaServiceUtils}.
Variable client : AdminClient.

(** X11: when the enumeration succeeds, [blockingWrites] answers SUCCEEDED
    if every host it asked accepted and E_BLOCK_WRITE_FAILURE otherwise.
    The first host of every space is always asked, only enumerated
    (space, host) pairs are asked, and when all accept, or the sign is
    BLOCK_OFF, every enumerated pair is asked, in order. *)
Theorem blockingWrites_result (sign : EngineSignType) (sn : Snapshot)
    (spacesHosts : list (Z * list HostAddr)) (sn1 : Snapshot) :
  getSpacesHosts sn = (inr spacesHosts, sn1) ->
  exists sentNow,
    blockingWrites client sign sn =
      (if all_accepted client (sent sn) sentNow
       then cpp2.SUCCEEDED else cpp2.E_BLOCK_WRITE_FAILURE,
       set_sent sn1 (sent sn ++ sentNow)) /\
    (forall s h hs, In (s, h :: hs) spacesHosts ->
       In (RpcBlockingWrites s sign h) sentNow) /\
    (forall c, In c sentNow ->
       exists s h, c = RpcBlockingWrites s sign h /\ In (s, h) (pairs_of spacesHosts)) /\
    (all_accepted client (sent sn) sentNow = true \/ sign = BLOCK_OFF ->
     sentNow = blocking_requests sign (pairs_of spacesHosts)).
Proof.
  intros Hg. unfold blockingWrites. rewrite Hg.
  destruct (getSpacesHosts_frame _ _ _ Hg) as (_ & _ & ->).
  destruct (blockingWrites_spaces_result client sign spacesHosts cpp2.SUCCEEDED (sent sn))
    as (sentNow & -> & Hfirst & Hin & Hall).
  exists sentNow. auto.
Qed.

(** X12: when the engine fails the prefix scan of the enumeration,
    [createSnapshot], [dropSnapshot] and [blockingWrites] all return
    E_LEADER_CHANGED for a changed leader and E_STORE_FAILURE for any other
    fault, and send no request. *)
Theorem snapshot_enumeration_failure (name : string) (hosts : list HostAddr)
    (sign : EngineSignType) (sn : Snapshot) (f : EngineFault)
    (rest : list (option EngineFault)) :
  outcomes (kv_ sn) = Some f :: rest ->
  let code := match f with
              | LeaderChanged => cpp2.E_LEADER_CHANGED
              | _ => cpp2.E_STORE_FAILURE
              end in
  let sn' := set_kv_ sn (mkStore (kv (kv_ sn)) rest (leader (kv_ sn))) in
  createSnapshot client name sn = (inl code, sn') /\
  dropSnapshot client name hosts sn = (code, sn') /\
  blockingWrites client sign sn = (code, sn').
Proof.
  intros Hout. cbv zeta.
  unfold createSnapshot, dropSnapshot, blockingWrites, getSpacesHosts,
    engine_prefix, next_outcome.
  rewrite Hout. destruct f; repeat split; reflexivity.
Qed.
End SnapshotResults.

Section CheckpointInfo.
Variable client : AdminClient.
Variable name : string.

Lemma createSnapshot_hosts_info space hs : forall info log info' log',
  createSnapshot_hosts client name space hs info log = (Some info', log') ->
  (forall s, List.map cp_host (default [] (info' !! s)) =
             List.map cp_host (default [] (info !! s))
             ++ (if Z.eqb space s then hs else [])) /\
  (recorded client name info -> recorded client name info') /\
  ((forall s, info !! s <> Some []) -> forall s, info' !! s <> Some []).
Proof.
  induction hs as [|h rest IH]; intros info log info' log'; cbn [createSnapshot_hosts].
  - intros [= <- <-]. split; auto. intros s.
    destruct (Z.eqb space s); now rewrite app_nil_r.
  - destruct (rpc_createSnapshot client log space name h) as [dir|] eqn:Hrpc;
      [|discriminate].
    intros Hrest. apply IH in Hrest as (Hmap & Hrec & Hne'). split; [|split].
    3:{ intros Hinfo. apply Hne'. intros s.
        destruct (Z.eq_dec space s) as [<-|Hne].
        - rewrite lookup_insert_eq. intros [= E]. now destruct (default [] (info !! space)).
        - rewrite lookup_insert_ne by exact Hne. apply Hinfo. }
    + intros s. rewrite Hmap. destruct (Z.eqb_spec space s) as [<-|Hne].
      * rewrite lookup_insert_eq. cbn [default from_option id]. rewrite List.map_app, <- app_assoc.
        reflexivity.
      * rewrite lookup_insert_ne by exact Hne. reflexivity.
    + intros Hinfo. apply Hrec. intros s c.
      destruct (Z.eq_dec space s) as [<-|Hne].
      * rewrite lookup_insert_eq. cbn [default from_option id]. intros Hin.
        apply in_app_or in Hin as [Hin | [<- | []]]; [now apply Hinfo|].
        exists log. exact Hrpc.
      * rewrite lookup_insert_ne by exact Hne. apply Hinfo.
Qed.

Lemma createSnapshot_spaces_info spacesHosts : forall info log info' log',
  createSnapshot_spaces client name spacesHosts info log = (Some info', log') ->
  (forall s, List.map cp_host (default [] (info' !! s)) =
             List.map cp_host (default [] (info !! s)) ++ hosts_of s spacesHosts) /\
  (recorded client name info -> recorded client name info') /\
  ((forall s, info !! s <> Some []) -> forall s, info' !! s <> Some []).
Proof.
  induction spacesHosts as [|[space hs] rest IH]; intros info log info' log';
    cbn [createSnapshot_spaces].
  - intros [= <- <-]. split; auto. intros s. now rewrite app_nil_r.
  - destruct (createSnapshot_hosts client name space hs info log)
      as [[info1|] log1] eqn:Hh; [|discriminate].
    intros Hrest. apply createSnapshot_hosts_info in Hh as (Hmap1 & Hrec1 & Hne1).
    apply IH in Hrest as (Hmap2 & Hrec2 & Hne2). split; [|auto].
    intros s. rewrite Hmap2, Hmap1, <- app_assoc. f_equal.
    unfold hosts_of. cbn [List.filter fst].
    destruct (Z.eqb space s); reflexivity.
Qed.
End CheckpointInfo.

(** X13: the checkpoint table a successful [createSnapshot] returns.  For
    every space it lists the enumerated hosts of the space, in order; a
    space has an entry exactly when it has a host; every listed directory
    is the one the host answered with; and one request was sent per
    enumerated pair. *)
Theorem createSnapshot_info `{MetaServiceUtils} (client : AdminClient)
    (name : string) (sn : Snapshot) (spacesHosts : list (Z * list HostAddr))
    (sn1 : Snapshot) (info : gmap Z (list CheckpointInfo)) (sn' : Snapshot) :
  getSpacesHosts sn = (inr spacesHosts, sn1) ->
  createSnapshot client name sn = (inr info, sn') ->
  (forall s, List.map cp_host (default [] (info !! s)) = hosts_of s spacesHosts) /\
  (forall s, is_Some (info !! s) <-> hosts_of s spacesHosts <> []) /\
  recorded client name info /\
  sent sn' = sent sn ++ create_requests name (pairs_of spacesHosts).
Proof.
  intros Hg Hc.
  destruct (createSnapshot_stops client name sn spacesHosts sn1 Hg)
    as (res & sn'' & Hc' & Hrun & _).
  rewrite Hc in Hc'. injection Hc' as <- <-.
  inversion Hrun as [Hsent|]; subst.
  unfold createSnapshot in Hc. rewrite Hg in Hc.
  destruct (createSnapshot_spaces client name spacesHosts ∅ (sent sn1))
    as [[info'|] log'] eqn:Hloop; [|discriminate].
  injection Hc as <- _.
  apply createSnapshot_spaces_info in Hloop as (Hmap & Hrec & Hne).
  assert (Hhosts : forall s,
    List.map cp_host (default [] (info' !! s)) = hosts_of s spacesHosts).
  { intros s. rewrite Hmap, lookup_empty. reflexivity. }
  split; [exact Hhosts|]. split; [|split].
  - intros s. rewrite <- Hhosts. split.
    + intros [l Hl]. rewrite Hl. cbn [default from_option id].
      destruct l as [|c l]; [|discriminate].
      exfalso. apply (Hne ltac:(intros s0; now rewrite lookup_empty) s Hl).
    + intros Hh. destruct (info' !! s); [eauto|]. now destruct Hh.
  - apply Hrec. intros s c. rewrite lookup_empty. intros [].
  - reflexivity.
Qed.


(** ** CreateBackup: every path *)

Section AcceptedRuns.
Context `{MetaServiceUtils}.
Variable client : AdminClient.

Lemma enumeration_error_not_ok e : enumeration_error e <> cpp2.SUCCEEDED.
Proof. unfold enumeration_error. destruct e; discriminate. Qed.

Lemma blockingWrites_ok sign sn sn' :
  blockingWrites client sign sn = (cpp2.SUCCEEDED, sn') ->
  sent sn' = sent sn ++ blocking_requests sign
                          (pairs_of (enumerate (kv (kv_ sn)) (spaces_ sn))) /\
  all_accepted client (sent sn)
    (blocking_requests sign (pairs_of (enumerate (kv (kv_ sn)) (spaces_ sn)))) = true.
Proof.
  intros Hb. destruct (getSpacesHosts sn) as [[e|spacesHosts] sn1] eqn:Hg.
  - unfold blockingWrites in Hb. rewrite Hg in Hb. injection Hb as Hb _.
    now apply enumeration_error_not_ok in Hb.
  - unfold blockingWrites in Hb. rewrite Hg in Hb.
    destruct (getSpacesHosts_frame _ _ _ Hg) as (_ & _ & Hs). rewrite Hs in Hb.
    destruct (blockingWrites_spaces_result client sign spacesHosts cpp2.SUCCEEDED
                (sent sn)) as (sentNow & Hr & _ & _ & Hall).
    rewrite Hr in Hb.
    destruct (all_accepted client (sent sn) sentNow) eqn:Hok; [|discriminate].
    injection Hb as <-. cbn [sent].
    rewrite <- (getSpacesHosts_enumerate _ _ _ Hg), <- (Hall (or_introl eq_refl)).
    auto.
Qed.

Lemma createSnapshot_hosts_accepted name space hs : forall info log info' log',
  createSnapshot_hosts client name space hs info log = (Some info', log') ->
  exists sentNow, log' = log ++ sentNow /\ all_accepted client log sentNow = true.
Proof.
  induction hs as [|h rest IH]; intros info log info' log'; cbn [createSnapshot_hosts].
  - intros [= <- <-]. exists []. now rewrite app_nil_r.
  - destruct (rpc_createSnapshot client log space name h) as [dir|] eqn:Hrpc;
      [|discriminate].
    intros Hrest. apply IH in Hrest as (more & -> & Hok).
    exists (RpcCreateSnapshot space name h :: more). rewrite <- app_assoc.
    split; [reflexivity|]. cbn [all_accepted]. rewrite Hrpc, Hok.
    reflexivity.
Qed.

Lemma createSnapshot_spaces_accepted name spacesHosts : forall info log info' log',
  createSnapshot_spaces client name spacesHosts info log = (Some info', log') ->
  exists sentNow, log' = log ++ sentNow /\ all_accepted client log sentNow = true.
Proof.
  induction spacesHosts as [|[space hs] rest IH]; intros info log info' log';
    cbn [createSnapshot_spaces].
  - intros [= <- <-]. exists []. now rewrite app_nil_r.
  - destruct (createSnapshot_hosts client name space hs info log)
      as [[info1|] log1] eqn:Hh; [|discriminate].
    intros Hrest. apply createSnapshot_hosts_accepted in Hh as (s1 & -> & Hok1).
    apply IH in Hrest as (s2 & -> & Hok2).
    exists (s1 ++ s2). rewrite all_accepted_app, Hok1, Hok2, app_assoc. auto.
Qed.

Lemma createSnapshot_ok name sn info sn' :
  createSnapshot client name sn = (inr info, sn') ->
  sent sn' = sent sn ++ create_requests name
                          (pairs_of (enumerate (kv (kv_ sn)) (spaces_ sn))) /\
  all_accepted client (sent sn)
    (create_requests name (pairs_of (enumerate (kv (kv_ sn)) (spaces_ sn)))) = true.
Proof.
  unfold createSnapshot.
  destruct (getSpacesHosts sn) as [[e|spacesHosts] sn1] eqn:Hg; [discriminate|].
  destruct (getSpacesHosts_frame _ _ _ Hg) as (_ & _ & Hs1).
  rewrite <- (getSpacesHosts_enumerate _ _ _ Hg).
  pose proof (createSnapshot_spaces_run client name spacesHosts ∅ (sent sn1)) as Hrun.
  destruct (createSnapshot_spaces client name spacesHosts ∅ (sent sn1))
    as [[info'|] log'] eqn:Hloop; [|discriminate].
  intros [= <- <-]. cbn [sent].
  apply createSnapshot_spaces_accepted in Hloop as (s1 & Hlog & Hok).
  inversion Hrun.
  match goal with
  | E : _ ++ create_requests _ _ = log' |- _ =>
      rewrite Hlog in E; apply app_inv_head in E; subst s1
  end.
  rewrite <- Hs1. auto.
Qed.

Lemma createSnapshot_error name sn e sn' :
  createSnapshot client name sn = (inl e, sn') -> e <> cpp2.SUCCEEDED.
Proof.
  unfold createSnapshot.
  destruct (getSpacesHosts sn) as [[e0|spacesHosts] sn1] eqn:Hg.
  - intros [= <- <-]. apply enumeration_error_not_ok.
  - destruct (createSnapshot_spaces client name spacesHosts ∅ (sent sn1))
      as [[info'|] log']; intros [= <- <-]. discriminate.
Qed.

Lemma fill_backupInfo_kv ids snapshotInfo : forall backupInfo s,
  kv (snd (fill_backupInfo ids snapshotInfo backupInfo s)) = kv s.
Proof.
  induction ids as [|id rest IH]; intros backupInfo s; cbn [fill_backupInfo]; auto.
  pose proof (doGet_kv (spaceKey id) s) as K.
  destruct (doGet (spaceKey id) s) as [[e|value] s']; cbn [snd] in *; auto.
  destruct (snapshotInfo !! id); cbn [snd]; auto.
  rewrite IH. exact K.
Qed.

Lemma fill_backupInfo_error ids snapshotInfo : forall backupInfo s e s',
  fill_backupInfo ids snapshotInfo backupInfo s = (Some (inl e), s') ->
  e <> cpp2.SUCCEEDED.
Proof.
  induction ids as [|id rest IH]; intros backupInfo s e s'; cbn [fill_backupInfo];
    [discriminate|].
  destruct (doGet (spaceKey id) s) as [[e0|value] s1] eqn:Hget.
  - intros [= <- <-]. eapply doGet_error; eauto.
  - destruct (snapshotInfo !! id); [|discriminate]. apply IH.
Qed.

Lemma doSyncPut_outcome data s :
  (fst (doSyncPut data s) = cpp2.SUCCEEDED /\
   kv (snd (doSyncPut data s)) =
     fold_left (fun m e => <[fst e := snd e]> m) data (kv s)) \/
  (fst (doSyncPut data s) <> cpp2.SUCCEEDED /\ kv (snd (doSyncPut data s)) = kv s).
Proof.
  unfold doSyncPut, engine_multiPut.
  destruct (next_outcome s) as [[f|] s1] eqn:Hn;
    pose proof (next_outcome_kv _ _ _ Hn) as K.
  - right. destruct f; simpl; split; auto; discriminate.
  - left. simpl. rewrite K. auto.
Qed.
End AcceptedRuns.

Section BackupPaths.
Context `{MetaServiceUtils}.
Variable client : AdminClient.
Variable getActiveHosts : NebulaStore -> ErrorOr cpp2.ErrorCode (list HostAddr).

Lemma CreateBackup_paths timestamp req st st' :
  CreateBackupProcessor_process client getActiveHosts timestamp req st = Some st' ->
  finished (base st') = S (finished (base st)) /\
  ((rpcs st' = rpcs st /\ kv (store_of st') = kv (store_of st) /\
    resp_meta st' = resp_meta st)
   \/
   exists s1 hosts spaces s2 sentNow,
     leader (store_of st) = true /\
     isIndexRebuilding (store_of st) = (inr false, s1) /\
     getActiveHosts s1 = inr hosts /\ hosts <> [] /\
     spaceNameToId (get_spaces req) s1 = (Some (inr spaces), s2) /\
     rpcs st' = rpcs st ++ sentNow /\
     ((kv (store_of st') = kv (store_of st) /\ resp_meta st' = resp_meta st /\
       resp_code (base st') <> cpp2.SUCCEEDED)
      \/
      (kv (store_of st') =
         <[snapshotKey ("BACKUP_" +:+ timestamp) :=
             snapshotVal VALID (toHostsStr hosts)]> (kv (store_of st)) /\
       all_accepted client (rpcs st) sentNow = true /\
       sentNow =
         (let pairs := pairs_of (enumerate (kv (store_of st)) spaces) in
          blocking_requests BLOCK_ON pairs
          ++ create_requests ("BACKUP_" +:+ timestamp) pairs
          ++ blocking_requests BLOCK_OFF pairs) /\
       ((resp_meta st' = resp_meta st /\ resp_code (base st') <> cpp2.SUCCEEDED) \/
        exists files info,
          resp_meta st' = Some (mkBackupMeta files info ("BACKUP_" +:+ timestamp)) /\
          resp_code (base st') = cpp2.SUCCEEDED)))).
Proof.
  destruct st as [[store0 code0 fin0] spaces0 rpcs0 meta0].
  unfold CreateBackupProcessor_process. bk_simpl.
  destruct (leader store0) eqn:Hl; cbn [negb].
  2:{ intros [= <-]. bk_simpl. split; [reflexivity|]. left. auto. }
  pose proof (isIndexRebuilding_kv store0) as K1.
  destruct (isIndexRebuilding store0) as [[e|[|]] s1] eqn:Hidx; cbn [snd] in K1;
    bk_simpl.
  1,2: intros [= <-]; bk_simpl; split; [reflexivity|]; left; auto.
  destruct (getActiveHosts s1) as [e|hosts] eqn:Hact.
  { intros [= <-]. bk_simpl. split; [reflexivity|]. left. auto. }
  destruct hosts as [|h0 hs] eqn:Hhosts; cbn [length Nat.eqb].
  { intros [= <-]. bk_simpl. split; [reflexivity|]. left. auto. }
  rewrite <- Hhosts in *.
  assert (Hne : hosts <> []) by (subst hosts; discriminate).
  clear Hhosts.
  pose proof (spaceNameToId_kv (get_spaces req) s1) as K2.
  destruct (spaceNameToId (get_spaces req) s1) as [[[e|spaces]|] s2] eqn:Hsp;
    cbn [snd] in K2; bk_simpl.
  3: discriminate.
  { intros [= <-]. bk_simpl. split; [reflexivity|]. left. split; [|split]; auto.
    congruence. }
  destruct (blockingWrites client BLOCK_ON (mkSnapshot s2 spaces rpcs0))
    as [ret [kv4 sp4 sent4]] eqn:Hon.
  destruct (blockingWrites_frame client _ _ _ _ Hon) as (K3 & S3 & on & L3 & _).
  cbn [kv_ spaces_ sent] in K3, S3, L3. bk_simpl.
  destruct (cpp2.ErrorCode_eqb ret cpp2.SUCCEEDED) eqn:Hret; cbn [negb].
  2:{ destruct (blockingWrites client BLOCK_OFF (mkSnapshot kv4 sp4 sent4))
        as [ret6 [kv6 sp6 sent6]] eqn:Hoff.
      destruct (blockingWrites_frame client _ _ _ _ Hoff) as (K6 & _ & off & L6 & _).
      cbn [kv_ spaces_ sent] in K6, L6.
      intros [= <-]. bk_simpl. split; [reflexivity|]. right.
      exists s1, hosts, spaces, s2, (on ++ off).
      do 5 (split; [auto; fail|]).
      split; [rewrite L6, L3; now rewrite app_assoc|].
      left. split; [congruence|]. split; [reflexivity|].
      intros ->. discriminate. }
  assert (ret = cpp2.SUCCEEDED) by (destruct ret; try discriminate; reflexivity).
  subst ret. clear Hret.
  destruct (blockingWrites_ok client _ _ _ Hon) as (L3' & Aon).
  cbn [sent kv_ spaces_] in L3', Aon. rewrite K2, K1 in L3', Aon.
  clear on L3. rename L3' into L3.
  set (pairs := pairs_of (enumerate (kv store0) spaces)) in *.
  destruct (createSnapshot client ("BACKUP_" +:+ timestamp) (mkSnapshot kv4 sp4 sent4))
    as [sret [kv5 sp5 sent5]] eqn:Hcp.
  destruct (createSnapshot_frame client _ _ _ _ Hcp) as (K4 & S4 & pairs' & L4).
  cbn [kv_ spaces_ sent] in K4, S4, L4. bk_simpl.
  destruct sret as [e|snapshotInfo].
  { apply createSnapshot_error in Hcp.
    destruct (blockingWrites client BLOCK_OFF (mkSnapshot kv5 sp5 sent5))
      as [ret7 [kv7 sp7 sent7]] eqn:Hoff.
    destruct (blockingWrites_frame client _ _ _ _ Hoff) as (K7 & _ & off & L7 & _).
    cbn [kv_ spaces_ sent] in K7, L7.
    intros [= <-]. bk_simpl. split; [reflexivity|]. right.
    exists s1, hosts, spaces, s2,
      (blocking_requests BLOCK_ON pairs
       ++ create_requests ("BACKUP_" +:+ timestamp) pairs' ++ off).
    do 5 (split; [auto; fail|]).
    split; [rewrite L7, L4, L3; now rewrite <- !app_assoc|].
    left. split; [congruence|]. split; [reflexivity|]. exact Hcp. }
  destruct (createSnapshot_ok client _ _ _ _ Hcp) as (L4' & Acr).
  cbn [sent kv_ spaces_] in L4', Acr. rewrite K3, K2, K1, S3 in L4', Acr.
  fold pairs in L4', Acr. clear pairs' L4. rename L4' into L4.
  destruct (backup kv5 spaces ("BACKUP_" +:+ timestamp) (get_spaces req))
    as [backupFiles|] eqn:Hexp.
  2:{ intros [= <-]. bk_simpl. split; [reflexivity|]. right.
      exists s1, hosts, spaces, s2,
        (blocking_requests BLOCK_ON pairs
         ++ create_requests ("BACKUP_" +:+ timestamp) pairs).
      do 5 (split; [auto; fail|]).
      split; [rewrite L4, L3; now rewrite <- !app_assoc|].
      left. split; [congruence|]. split; [reflexivity|]. discriminate. }
  destruct (blockingWrites client BLOCK_OFF (mkSnapshot kv5 sp5 sent5))
    as [ret6 [kv6 sp6 sent6]] eqn:Hoff.
  destruct (blockingWrites_frame client _ _ _ _ Hoff) as (K6 & _ & off & L6 & _).
  cbn [kv_ spaces_ sent] in K6, L6. bk_simpl.
  destruct (cpp2.ErrorCode_eqb ret6 cpp2.SUCCEEDED) eqn:Hret6; cbn [negb].
  2:{ intros [= <-]. bk_simpl. split; [reflexivity|]. right.
      exists s1, hosts, spaces, s2,
        (blocking_requests BLOCK_ON pairs
         ++ create_requests ("BACKUP_" +:+ timestamp) pairs ++ off).
      do 5 (split; [auto; fail|]).
      split; [rewrite L6, L4, L3; now rewrite <- !app_assoc|].
      left. split; [congruence|]. split; [reflexivity|].
      intros ->. discriminate. }
  assert (ret6 = cpp2.SUCCEEDED) by (destruct ret6; try discriminate; reflexivity).
  subst ret6. clear Hret6.
  destruct (blockingWrites_ok client _ _ _ Hoff) as (L6' & Aoff).
  cbn [sent kv_ spaces_] in L6', Aoff. rewrite K4, K3, K2, K1, S4, S3 in L6', Aoff.
  fold pairs in L6', Aoff. clear off L6. rename L6' into L6.
  assert (Hall : all_accepted client rpcs0
            (blocking_requests BLOCK_ON pairs
             ++ create_requests ("BACKUP_" +:+ timestamp) pairs
             ++ blocking_requests BLOCK_OFF pairs) = true).
  { rewrite L3 in Acr. rewrite L4, L3 in Aoff.
    rewrite !all_accepted_app, Aon, Acr, Aoff. reflexivity. }
  assert (Hsent : sent6 =
            rpcs0 ++ blocking_requests BLOCK_ON pairs
            ++ create_requests ("BACKUP_" +:+ timestamp) pairs
            ++ blocking_requests BLOCK_OFF pairs).
  { rewrite L6, L4, L3. now rewrite <- !app_assoc. }
  match goal with
  | |- context [doSyncPut ?data kv6] =>
      pose proof (doSyncPut_outcome data kv6) as Hput;
      destruct (doSyncPut data kv6) as [putRet s7] eqn:Hputeq
  end.
  cbn [fst snd fold_left app] in Hput. bk_simpl.
  destruct Hput as [[-> K7] | [Hbad K7]].
  2:{ destruct (cpp2.ErrorCode_eqb putRet cpp2.SUCCEEDED) eqn:E;
        [destruct putRet; try discriminate; now destruct Hbad|].
      cbn [negb]. intros [= <-]. bk_simpl. split; [reflexivity|]. right.
      exists s1, hosts, spaces, s2,
        (blocking_requests BLOCK_ON pairs
         ++ create_requests ("BACKUP_" +:+ timestamp) pairs
         ++ blocking_requests BLOCK_OFF pairs).
      do 5 (split; [auto; fail|]).
      split; [exact Hsent|].
      left. split; [congruence|]. split; [reflexivity|]. exact Hbad. }
  cbn [cpp2.ErrorCode_eqb negb].
  rewrite insert_insert_eq in K7.
  assert (K7' : kv s7 = <[snapshotKey ("BACKUP_" +:+ timestamp) :=
                           snapshotVal VALID (toHostsStr hosts)]> (kv store0))
    by (rewrite K7; congruence).
  pose proof (fill_backupInfo_kv (elements spaces) snapshotInfo ∅ s7) as K8.
  destruct (fill_backupInfo (elements spaces) snapshotInfo ∅ s7)
    as [[[e|backupInfo]|] s8] eqn:Hfill; cbn [snd] in K8; bk_simpl.
  3: discriminate.
  - apply fill_backupInfo_error in Hfill.
    intros [= <-]. bk_simpl. split; [reflexivity|]. right.
    exists s1, hosts, spaces, s2,
      (blocking_requests BLOCK_ON pairs
       ++ create_requests ("BACKUP_" +:+ timestamp) pairs
       ++ blocking_requests BLOCK_OFF pairs).
    do 5 (split; [auto; fail|]).
    split; [exact Hsent|].
    right. split; [congruence|]. split; [exact Hall|]. split; [reflexivity|].
    left. auto.
  - intros [= <-]. bk_simpl. split; [reflexivity|]. right.
    exists s1, hosts, spaces, s2,
      (blocking_requests BLOCK_ON pairs
       ++ create_requests ("BACKUP_" +:+ timestamp) pairs
       ++ blocking_requests BLOCK_OFF pairs).
    do 5 (split; [auto; fail|]).
    split; [exact Hsent|].
    right. split; [congruence|]. split; [exact Hall|]. split; [reflexivity|].
    right. exists backupFiles, backupInfo. auto.
Qed.
End BackupPaths.

Section BackupTheorems.
Context `{MetaServiceUtils}.
Variable client : AdminClient.
Variable getActiveHosts : NebulaStore -> ErrorOr cpp2.ErrorCode (list HostAddr).

Lemma spaceNameToId_nonempty backupSpaces s sp s' :
  spaceNameToId backupSpaces s = (Some (inr sp), s') -> sp <> ∅.
Proof.
  unfold spaceNameToId. destruct backupSpaces as [names|].
  - destruct (doMultiGet _ s) as [[e|values] s1]; [discriminate|].
    destruct (decode_ids values ∅) as [sp0|]; [|discriminate].
    destruct (bool_decide_reflect (sp0 = ∅)); [discriminate|]. congruence.
  - destruct (doPrefix spacePrefix s) as [[e|iter] s1]; [discriminate|].
    match goal with
    | |- context [bool_decide ?P] => destruct (bool_decide_reflect P)
    end; [discriminate|]. congruence.
Qed.


(** X15: [CreateBackupProcessor::process] sends a request to a storage host
    only after every admission check has passed: the node is the meta
    leader, no index is being rebuilt, there is an active host, and the
    spaces of the request resolve to a non-empty set of ids. *)
Theorem CreateBackup_contacts_after_admission (timestamp : string)
    (req : CreateBackupReq) (st st' : BackupState) :
  CreateBackupProcessor_process client getActiveHosts timestamp req st = Some st' ->
  rpcs st' <> rpcs st ->
  leader (store_of st) = true /\
  exists s1 hosts spaces s2,
    isIndexRebuilding (store_of st) = (inr false, s1) /\
    getActiveHosts s1 = inr hosts /\ hosts <> [] /\
    spaceNameToId (get_spaces req) s1 = (Some (inr spaces), s2) /\
    spaces <> ∅.
Proof.
  intros Hrun Hsent.
  destruct (CreateBackup_paths client getActiveHosts _ _ _ _ Hrun)
    as (_ & [(Hr & _) |
             (s1 & hosts & spaces & s2 & sentNow & Hl & Hidx & Hact & Hne & Hsp & _)]).
  - contradiction.
  - split; [exact Hl|]. exists s1, hosts, spaces, s2.
    repeat split; auto. eapply spaceNameToId_nonempty; eauto.
Qed.

(** X16: the only run of [CreateBackupProcessor::process] that sets the
    backup meta of the response is the successful one.  In it the answer
    is SUCCEEDED, the VALID snapshot record is stored, and the requests
    sent are exactly BLOCK_ON, then checkpoint creation, then BLOCK_OFF,
    each over every enumerated (space, host) pair and each accepted. *)
Theorem CreateBackup_success_traffic (timestamp : string)
    (req : CreateBackupReq) (st st' : BackupState) :
  CreateBackupProcessor_process client getActiveHosts timestamp req st = Some st' ->
  resp_meta st' <> resp_meta st ->
  resp_code (base st') = cpp2.SUCCEEDED /\
  (exists files info,
     resp_meta st' = Some (mkBackupMeta files info ("BACKUP_" +:+ timestamp))) /\
  exists s1 hosts spaces s2,
    getActiveHosts s1 = inr hosts /\
    spaceNameToId (get_spaces req) s1 = (Some (inr spaces), s2) /\
    kv (store_of st') =
      <[snapshotKey ("BACKUP_" +:+ timestamp) :=
          snapshotVal VALID (toHostsStr hosts)]> (kv (store_of st)) /\
    let pairs := pairs_of (enumerate (kv (store_of st)) spaces) in
    let sentNow :=
      blocking_requests BLOCK_ON pairs
      ++ create_requests ("BACKUP_" +:+ timestamp) pairs
      ++ blocking_requests BLOCK_OFF pairs in
    rpcs st' = rpcs st ++ sentNow /\
    all_accepted client (rpcs st) sentNow = true.
Proof.
  intros Hrun Hmeta.
  destruct (CreateBackup_paths client getActiveHosts _ _ _ _ Hrun)
    as (_ & [(_ & _ & Hm) |
             (s1 & hosts & spaces & s2 & sentNow & _ & _ & Hact & _ & Hsp & Hr &
              [(_ & Hm & _) |
               (Hk & Hall & Htr & [(Hm & _) | (files & info & Hm & Hc)])])]);
    try contradiction.
  split; [exact Hc|]. split; [eauto|].
  exists s1, hosts, spaces, s2. cbv zeta in *. subst sentNow. auto.
Qed.
End BackupTheorems.

Section Admission.
Context `{MetaServiceUtils}.

Lemma isIndexRebuilding_healthy s :
  healthy s ->
  exists b s',
    isIndexRebuilding s = (inr b, s') /\ healthy s' /\ kv s' = kv s /\
    (b = true <->
     exists k, String.prefix rebuildIndexStatusPrefix k = true /\
               kv s !! k = Some "RUNNING").
Proof.
  intros Hh. unfold isIndexRebuilding.
  destruct (doPrefix_healthy s Hh rebuildIndexStatusPrefix) as (s' & Hh' & K & ->).
  eexists _, s'. split; [reflexivity|]. split; [exact Hh'|]. split; [exact K|].
  rewrite existsb_exists. split.
  - intros ([k v] & Hin & Hv). apply List.filter_In in Hin as [Hin Hp].
    apply list_elem_of_In, elem_of_map_to_list in Hin.
    apply String.eqb_eq in Hv. simpl in *. subst v. eauto.
  - intros (k & Hp & Hk). exists (k, "RUNNING"). split; [|reflexivity].
    apply List.filter_In. split; [|exact Hp].
    now apply list_elem_of_In, elem_of_map_to_list.
Qed.

(** X17: on an engine without faults [isIndexRebuilding] leaves the table
    alone and answers true exactly when some key under the rebuild-status
    prefix holds the value RUNNING. *)
Theorem isIndexRebuilding_spec (s : NebulaStore) :
  healthy s ->
  exists b s',
    isIndexRebuilding s = (inr b, s') /\ kv s' = kv s /\
    (b = true <->
     exists k, String.prefix rebuildIndexStatusPrefix k = true /\
               kv s !! k = Some "RUNNING").
Proof.
  intros Hh. destruct (isIndexRebuilding_healthy s Hh) as (b & s' & ? & _ & ? & ?).
  eauto.
Qed.

(** X18: the admission checks of [CreateBackupProcessor::process] on an
    engine without faults.  A node that is not the leader answers
    E_LEADER_CHANGED; a leader with an index rebuild running answers
    E_BACKUP_BUILDING_INDEX; a leader without one and without active hosts
    answers E_NO_HOSTS.  In all three cases nothing is sent and the table
    is unchanged. *)
Theorem CreateBackup_admission_checks (client : AdminClient)
    (getActiveHosts : NebulaStore -> ErrorOr cpp2.ErrorCode (list HostAddr))
    (timestamp : string) (req : CreateBackupReq) (st : BackupState) :
  healthy (store_of st) ->
  (leader (store_of st) = false ->
   exists st',
     CreateBackupProcessor_process client getActiveHosts timestamp req st = Some st' /\
     resp_code (base st') = cpp2.E_LEADER_CHANGED /\
     store_of st' = store_of st /\ rpcs st' = rpcs st) /\
  (leader (store_of st) = true ->
   (exists k, String.prefix rebuildIndexStatusPrefix k = true /\
              kv (store_of st) !! k = Some "RUNNING") ->
   exists st',
     CreateBackupProcessor_process client getActiveHosts timestamp req st = Some st' /\
     resp_code (base st') = cpp2.E_BACKUP_BUILDING_INDEX /\
     kv (store_of st') = kv (store_of st) /\ rpcs st' = rpcs st) /\
  (leader (store_of st) = true ->
   (forall k, String.prefix rebuildIndexStatusPrefix k = true ->
              kv (store_of st) !! k <> Some "RUNNING") ->
   (forall s1, kv s1 = kv (store_of st) -> getActiveHosts s1 = inr []) ->
   exists st',
     CreateBackupProcessor_process client getActiveHosts timestamp req st = Some st' /\
     resp_code (base st') = cpp2.E_NO_HOSTS /\
     kv (store_of st') = kv (store_of st) /\ rpcs st' = rpcs st).
Proof.
  destruct st as [[store0 code0 fin0] spaces0 rpcs0 meta0]. bk_simpl.
  intros Hh. unfold CreateBackupProcessor_process. bk_simpl.
  destruct (isIndexRebuilding_healthy store0 Hh) as (b & s1 & Hidx & _ & K1 & Hb).
  split; [|split].
  - intros ->. cbn [negb]. eexists. split; [reflexivity|]. bk_simpl. auto.
  - intros -> Hrun. cbn [negb]. rewrite Hidx.
    apply Hb in Hrun. subst b. bk_simpl.
    eexists. split; [reflexivity|]. bk_simpl. auto.
  - intros -> Hnone Hact. cbn [negb]. rewrite Hidx.
    destruct b.
    { destruct (proj1 Hb eq_refl) as (k & Hp & Hk). now destruct (Hnone k Hp). }
    bk_simpl. rewrite (Hact s1 K1). cbn [length Nat.eqb].
    eexists. split; [reflexivity|]. bk_simpl. auto.
Qed.
End Admission.

Section SpaceNames.
Context `{MetaServiceUtils}.

Lemma fold_spaceId_elem (iter : list (string * string)) : forall (acc : gset Z) id,
  id ∈ fold_left (fun sp e => {[ spaceId (fst e) ]} ∪ sp) iter acc <->
  (exists e, In e iter /\ spaceId (fst e) = id) \/ id ∈ acc.
Proof.
  induction iter as [|e rest IH]; intros acc id; simpl.
  - split; auto. intros [(e & [] & _) | Hin]; auto.
  - rewrite IH. split.
    + intros [(e' & Hin & He) | Hin]; eauto.
      apply elem_of_union in Hin as [Hin | Hin]; auto.
      apply elem_of_singleton in Hin. eauto.
    + intros [(e' & [<- | Hin] & He) | Hin]; eauto.
      * right. apply elem_of_union. left. now apply elem_of_singleton.
      * right. apply elem_of_union. now right.
Qed.

Lemma decode_ids_encoded ids : forall acc,
  Forall (fun id => INT32_MIN <= id <= INT32_MAX) ids ->
  decode_ids (List.map encodeInt32 ids) acc = Some (list_to_set ids ∪ acc).
Proof.
  induction ids as [|id rest IH]; intros acc Hall; cbn [decode_ids List.map list_to_set].
  - f_equal. now rewrite (left_id_L ∅ (∪)).
  - apply List.Forall_cons_iff in Hall as [Hid Hall].
    rewrite decode_encode by assumption.
    rewrite IH by assumption. f_equal.
    rewrite (assoc_L (∪)). f_equal. apply (comm_L (∪)).
Qed.

Lemma doMultiGet_healthy s keys values :
  healthy s ->
  Forall2 (fun k v => kv s !! k = Some v) keys values ->
  exists s', doMultiGet keys s = (inr values, s') /\ kv s' = kv s.
Proof.
  intros Hh Hall. unfold doMultiGet, engine_multiGet.
  destruct (next_outcome_healthy s Hh) as (s' & -> & _ & K).
  rewrite K.
  assert (Hfound : omap (fun k => kv s !! k) keys = values).
  { induction Hall as [|k v ks vs Hk _ IH]; simpl; auto.
    rewrite Hk. simpl. f_equal. exact IH. }
  rewrite Hfound, (Forall2_length _ _ _ Hall), Nat.eqb_refl.
  cbn [kvstore.ResultCode_eqb negb]. eauto.
Qed.

(** X19: [spaceNameToId] on an engine without faults.  Without names it
    returns the ids of all keys under the space prefix, or
    E_BACKUP_SPACE_NOT_FOUND when there is none.  With a non-empty list of
    registered names it returns exactly the set of their ids.  The table
    is not changed. *)
Theorem spaceNameToId_spec (s : NebulaStore) :
  healthy s ->
  (exists r s',
     spaceNameToId None s = (Some r, s') /\ kv s' = kv s /\
     match r with
     | inr sp =>
         forall id, id ∈ sp <->
           exists k, is_Some (kv s !! k) /\ String.prefix spacePrefix k = true /\
                     spaceId k = id
     | inl e =>
         e = cpp2.E_BACKUP_SPACE_NOT_FOUND /\
         forall k, String.prefix spacePrefix k = true -> kv s !! k = None
     end) /\
  (forall names ids,
     names <> [] ->
     Forall2 (fun name id => INT32_MIN <= id <= INT32_MAX /\
                kv s !! indexSpaceKey name = Some (encodeInt32 id)) names ids ->
     exists s',
       spaceNameToId (Some names) s = (Some (inr (list_to_set ids)), s') /\
       kv s' = kv s).
Proof.
  intros Hh. split.
  - unfold spaceNameToId.
    destruct (doPrefix_healthy s Hh spacePrefix) as (s' & _ & K & ->).
    assert (Hmem : forall id,
      id ∈ fold_left (fun sp e => {[ spaceId (fst e) ]} ∪ sp)
             (List.filter (fun e => String.prefix spacePrefix (fst e))
                          (map_to_list (kv s))) (∅ : gset Z) <->
      exists k, is_Some (kv s !! k) /\ String.prefix spacePrefix k = true /\
                spaceId k = id).
    { intros id. rewrite fold_spaceId_elem. split.
      - intros [([k v] & Hin & He) | Hin]; [|now apply not_elem_of_empty in Hin].
        apply List.filter_In in Hin as [Hin Hp].
        apply list_elem_of_In, elem_of_map_to_list in Hin. simpl in *. eauto.
      - intros (k & [v Hv] & Hp & He). left. exists (k, v). split; [|exact He].
        apply List.filter_In. split; [|exact Hp].
        now apply list_elem_of_In, elem_of_map_to_list. }
    match goal with
    | |- context [bool_decide ?P] => destruct (bool_decide_reflect P) as [Hemp|Hemp]
    end.
    + eexists _, s'. split; [reflexivity|]. split; [exact K|].
      split; [reflexivity|]. intros k Hp.
      destruct (kv s !! k) as [v|] eqn:Hk; [|reflexivity].
      assert (Hin : spaceId k ∈ (∅ : gset Z)).
      { rewrite <- Hemp. apply Hmem. exists k. rewrite Hk. eauto. }
      now apply not_elem_of_empty in Hin.
    + eexists _, s'. split; [reflexivity|]. split; [exact K|]. exact Hmem.
  - intros names ids Hne Hall. unfold spaceNameToId.
    destruct (doMultiGet_healthy s (List.map indexSpaceKey names)
                (List.map encodeInt32 ids) Hh) as (s' & -> & K).
    { clear Hne. induction Hall as [|n id ns ids' [_ Hk] _ IH]; simpl; constructor; auto. }
    rewrite decode_ids_encoded.
    2:{ clear Hne. induction Hall as [|n id ns ids' [Hr _] _ IH]; constructor; auto. }
    match goal with
    | |- context [bool_decide ?P] => destruct (bool_decide_reflect P) as [Hemp|Hemp]
    end.
    + exfalso. destruct Hall as [|n id ns ids' _ _]; [congruence|].
      assert (Hin : id ∈ (∅ : gset Z)).
      { rewrite <- Hemp. apply elem_of_union. left.
        apply elem_of_list_to_set, elem_of_cons. now left. }
      now apply not_elem_of_empty in Hin.
    + exists s'. split; [|exact K]. do 3 f_equal. apply (right_id_L ∅ (∪)).
Qed.
End SpaceNames.

(** ** Dropping a space and the host enumeration *)

(** X20: after a successful drop of a space on an engine without faults,
    [getSpacesHosts] on the resulting table lists no host for that space,
    provided the part keys of the space lie under its part prefix. *)
Theorem DropSpace_leaves_enumeration `{MetaServiceUtils}
    (req : DropSpaceReq) (now : Z) (p : Processor) (id : Z) :
  healthy (kvstore_ p) ->
  kv (kvstore_ p) !! indexSpaceKey (get_space_name req) = Some (encodeInt32 id) ->
  INT32_MIN <= id <= INT32_MAX ->
  String.prefix partPrefix0 lastUpdateTimeKey = false ->
  (forall k, is_Some (kv (kvstore_ p) !! k) ->
     String.prefix partPrefix0 k = true -> parsePartKeySpaceId k = id ->
     String.prefix (partPrefix id) k = true) ->
  exists p',
    DropSpaceProcessor_process req now p = Some p' /\
    resp_code p' = cpp2.SUCCEEDED /\
    forall sn spacesHosts sn1,
      kv (kv_ sn) = kv (kvstore_ p') ->
      getSpacesHosts sn = (inr spacesHosts, sn1) ->
      forall h, ~ In (id, h) (pairs_of spacesHosts).
Proof.
  intros Hh Hidx Hid Hstamp Hcoh.
  destruct (DropSpace_healthy_run req now p id Hh Hidx Hid)
    as (p' & Hrun & Hcode & _ & Hkv).
  exists p'. split; [exact Hrun|]. split; [exact Hcode|].
  intros sn spacesHosts sn1 Hsame Hg h Hin.
  apply getSpacesHosts_enumerate in Hg. subst spacesHosts.
  apply enumerate_pairs in Hin as (k & v & Hk & Hp & _ & Hsp & _).
  rewrite Hsame, Hkv in Hk.
  assert (Hne : k <> lastUpdateTimeKey) by (intros ->; congruence).
  rewrite lookup_insert_ne in Hk by congruence.
  destruct (In_dec String.string_dec k
              (dropped_keys (get_space_name req) id (kv (kvstore_ p)))) as [Hd|Hd].
  - rewrite fold_delete_member in Hk by exact Hd. discriminate.
  - rewrite fold_delete_other in Hk by exact Hd.
    apply Hd. unfold dropped_keys. apply in_or_app. left.
    apply keys_under_prefix. split; [eauto|].
    apply Hcoh; eauto.
Qed.


(** ** Index checks: composition *)

Lemma indexCheck_ok_iff items alterItems :
  indexCheck items alterItems = cpp2.SUCCEEDED <-> ~ conflicts items alterItems.
Proof.
  rewrite <- indexCheck_conflict.
  destruct (indexCheck_codes items alterItems) as [-> | ->]; split; congruence.
Qed.

(** X21: [indexCheck] can be run piecewise.  It accepts a concatenation of
    index lists (of alteration lists) exactly when it accepts both halves;
    its answer does not depend on the order of either list; and it accepts
    when either list is empty. *)
Theorem indexCheck_compositional (items1 items2 : list IndexItem)
    (alter1 alter2 : list AlterSchemaItem) :
  (indexCheck (items1 ++ items2) alter1 = cpp2.SUCCEEDED <->
   indexCheck items1 alter1 = cpp2.SUCCEEDED /\
   indexCheck items2 alter1 = cpp2.SUCCEEDED) /\
  (indexCheck items1 (alter1 ++ alter2) = cpp2.SUCCEEDED <->
   indexCheck items1 alter1 = cpp2.SUCCEEDED /\
   indexCheck items1 alter2 = cpp2.SUCCEEDED) /\
  (forall items' alter',
     Permutation items1 items' -> Permutation alter1 alter' ->
     indexCheck items1 alter1 = indexCheck items' alter') /\
  indexCheck [] alter1 = cpp2.SUCCEEDED /\
  indexCheck items1 [] = cpp2.SUCCEEDED.
Proof.
  split; [|split; [|split; [|split]]].
  - rewrite !indexCheck_ok_iff. unfold conflicts. split.
    + intros Hno. split; intros (ix & x & t & i & Hix & Hrest); apply Hno;
        exists ix, x, t, i; (split; [apply in_or_app; auto | exact Hrest]).
    + intros [H1 H2] (ix & x & t & i & Hix & Hrest).
      apply in_app_or in Hix as [Hix | Hix]; [apply H1 | apply H2];
        exists ix, x, t, i; auto.
  - rewrite !indexCheck_ok_iff. unfold conflicts. split.
    + intros Hno. split; intros (ix & x & t & i & Hix & Hx & Hrest); apply Hno;
        exists ix, x, t, i; (split; [exact Hix|]; split; [apply in_or_app; auto | exact Hrest]).
    + intros [H1 H2] (ix & x & t & i & Hix & Hx & Hrest).
      apply in_app_or in Hx as [Hx | Hx]; [apply H1 | apply H2];
        exists ix, x, t, i; auto.
  - intros items' alter' Pi Pa.
    assert (Hc : conflicts items1 alter1 <-> conflicts items' alter').
    { unfold conflicts. split; intros (ix & x & t & i & Hix & Hx & Hrest);
        exists ix, x, t, i; (split; [|split; [|exact Hrest]]).
      - eapply Permutation_in; eauto.
      - eapply Permutation_in; eauto.
      - eapply Permutation_in; [apply Permutation_sym|]; eauto.
      - eapply Permutation_in; [apply Permutation_sym|]; eauto. }
    destruct (indexCheck_codes items1 alter1) as [E1 | E1];
      destruct (indexCheck_codes items' alter') as [E2 | E2]; try congruence.
    + apply indexCheck_conflict, Hc, indexCheck_conflict in E2. congruence.
    + apply indexCheck_conflict, Hc, indexCheck_conflict in E1. congruence.
  - reflexivity.
  - apply indexCheck_ok_iff. intros (ix & x & t & i & _ & [] & _).
Qed.

(** ** isOutsideIndex: wider indexes *)

(** X22: a filter and a list of yield columns that an index serves without
    further reads are served as well by every index whose fields include
    those of the first: [isOutsideIndex] stays false and so does the test
    that a yield column lies outside the index. *)
Theorem wider_index_serves_more `{CommonBase} (e : Expression)
    (yieldCols : list string) (index index' : IndexItem) :
  (forall name, In name (field_names index) -> In name (field_names index')) ->
  isOutsideIndex e index = false ->
  yield_needs_data yieldCols (get_fields index) = false ->
  isOutsideIndex e index' = false /\
  yield_needs_data yieldCols (get_fields index') = false.
Proof.
  intros Hsub Hout Hyield. split.
  - revert Hout. rewrite !isOutsideIndex_false_iff.
    intros Hall k prop Hreach. destruct (Hall k prop Hreach) as [Hs He].
    split; auto.
  - revert Hyield. rewrite !yield_needs_data_spec.
    intros Hnone. destruct (existsb _ yieldCols) eqn:Hex at 1; [|reflexivity].
    apply existsb_exists in Hex as (col & Hin & Hcol).
    apply andb_prop in Hcol as [Hkey Hfield].
    assert (Hold : existsb (fun col => negb (name_in col propsInKey)
                              && negb (name_in col (field_names index))) yieldCols
                   = true); [|congruence].
    apply existsb_exists. exists col. split; [exact Hin|].
    rewrite Hkey. cbn [andb].
    destruct (name_in col (field_names index)) eqn:Hn; [|reflexivity].
    apply name_in_In, Hsub, name_in_In in Hn. rewrite Hn in Hfield. discriminate.
Qed.


(** ** The lookup plan: layout, failures and the filter registry *)

Lemma ordered_from_app seen a : forall b,
  ordered_from seen (a ++ b) <->
  ordered_from seen a /\ ordered_from (rev (List.map node_id a) ++ seen) b.
Proof.
  revert seen. induction a as [|n rest IH]; intros seen b; simpl.
  - intuition.
  - rewrite IH, <- app_assoc. simpl. intuition.
Qed.

Lemma ordered_from_mono plan : forall seen seen',
  (forall d, In d seen -> In d seen') ->
  ordered_from seen plan -> ordered_from seen' plan.
Proof.
  induction plan as [|n rest IH]; intros seen seen' Hsub; simpl; auto.
  intros [Hd Hrest]. split; [auto|].
  eapply IH; [|exact Hrest]. simpl. intuition.
Qed.

Lemma ordered_from_first plan : forall seen,
  ordered_from seen plan ->
  forall pre n post, plan = pre ++ n :: post ->
    forall d, In d (dependencies_ n) ->
      In d seen \/ exists m, In m pre /\ node_id m = d.
Proof.
  induction plan as [|x rest IH]; intros seen Hord pre n post Heq d Hd.
  - now destruct pre.
  - destruct Hord as [Hx Hrest]. destruct pre as [|y pre']; simpl in Heq.
    + injection Heq as -> ->. left. auto.
    + injection Heq as -> ->.
      destruct (IH _ Hrest pre' n post eq_refl d Hd) as [[<- | Hs] | (m & Hm & Hid)].
      * right. exists y. split; [now left | reflexivity].
      * now left.
      * right. exists m. split; [now right | exact Hid].
Qed.

Lemma filterItems_emplace_lookup fid item m :
  filterItems_emplace fid item m !! fid = Some (default item (m !! fid)).
Proof.
  unfold filterItems_emplace. destruct (m !! fid) as [old|] eqn:Hm; simpl.
  - exact Hm.
  - apply lookup_insert_eq.
Qed.

Lemma filterItems_emplace_other fid item m k :
  k <> fid -> filterItems_emplace fid item m !! k = m !! k.
Proof.
  unfold filterItems_emplace. intros Hne. destruct (m !! fid); auto.
  now apply lookup_insert_ne.
Qed.

Section PlanDetail.
Context `{CommonBase}.
Variable indexMan : IndexManager.

Lemma buildPlan_context_detail ctx deDup plan filterId p deDup' plan' filterId' p' :
  buildPlan_context indexMan ctx deDup plan filterId p
    = (inr (deDup', plan', filterId'), p') ->
  exists index block,
    index_of indexMan p ctx = Some index /\
    plan' = plan ++ block /\
    length block =
      length (shape (spec_needData (yieldCols_ p) index ctx)
                    (spec_needFilter index ctx) (isEdge_ (planContext_ p))) /\
    (forall seen, ordered_from seen block) /\
    filterId' = (if filter_present ctx then filterId + 1 else filterId) /\
    (exists item,
       snd item = Expression_decode (get_filter ctx) /\
       filterItems_ p' =
         if filter_present ctx
         then filterItems_emplace filterId item (filterItems_ p)
         else filterItems_ p) /\
    Forall (fun n => forall item, filter_of n = Some item ->
              filter_present ctx = true /\
              filterItems_ p' !! filterId = Some item) block.
Proof.
  unfold buildPlan_context, index_of, spec_needData, spec_needFilter.
  destruct (if isEdge_ (planContext_ p) then _ else _) as [index|] eqn:Hidx;
    [|discriminate].
  intros Hb. exists index.
  rewrite <- yield_needs_data_spec.
  destruct (filter_present ctx) eqn:Hfp;
    destruct (yield_needs_data (yieldCols_ p) (get_fields index)) eqn:Hy;
    destruct (isOutsideIndex (Expression_decode (get_filter ctx)) index) eqn:Ho;
    destruct (isEdge_ (planContext_ p)) eqn:He;
    destruct (last (schemas_ p)) as [schema|] eqn:Hs;
    cbn [negb andb orb] in Hb;
    unfold buildPlanBasic, buildPlanWithData, buildPlanWithFilter,
      buildPlanWithDataAndFilter, make_node, set_next_node, set_filterItems,
      addDependency, addNode in Hb;
    cbn [next_node planContext_ schemas_ node_id node dependencies_ fst snd
         spaceId_ contexts_ yieldCols_ deDupColPos_ filterItems_ app] in Hb;
    rewrite ?He, ?Hs in Hb;
    cbn [next_node planContext_ schemas_ node_id node dependencies_ fst snd
         spaceId_ contexts_ yieldCols_ deDupColPos_ filterItems_ app] in Hb;
    try discriminate;
    injection Hb as <- <- <- <-.
  all: rewrite <- ?app_assoc; cbn [app].
  all: eexists; split; [reflexivity|]; split; [reflexivity|].
  all: split; [reflexivity|].
  all: split; [intros seen; cbn [ordered_from dependencies_ node_id];
               repeat split; intros dd Hdd; cbn [In] in Hdd;
               (contradiction || (destruct Hdd as [<- | []]; simpl; auto))|].
  all: split; [reflexivity|].
  all: cbn [filterItems_].
  all: split;
       [first [ exists (FieldContext 0 false false [], Expression_decode (get_filter ctx));
                split; reflexivity
              | eexists (_, _); split; reflexivity ]|].
  all: repeat (apply List.Forall_cons || apply List.Forall_nil);
       unfold filter_of; cbn [node]; intros item Hitem; try discriminate Hitem;
       injection Hitem as <-; (split; [reflexivity|]);
       rewrite filterItems_emplace_lookup;
       now destruct (default _ _).
Qed.
End PlanDetail.

Section PlanTheorems.
Context `{CommonBase}.
Variable indexMan : IndexManager.

Lemma index_of_same p p' ctx :
  same_request p p' -> index_of indexMan p' ctx = index_of indexMan p ctx.
Proof. intros (E1 & E2 & _). unfold index_of. now rewrite E1, E2. Qed.

Lemma context_nodes_same p p' ctx :
  same_request p p' -> context_nodes indexMan p' ctx = context_nodes indexMan p ctx.
Proof.
  intros Hs. unfold context_nodes. rewrite (index_of_same p p' ctx Hs).
  destruct Hs as (E1 & E2 & E3 & E4 & _). now rewrite E2, E4.
Qed.

Lemma buildPlan_contexts_layout ctxs :
  forall deDup plan filterId p deDup' plan' filterId' p',
  buildPlan_contexts indexMan ctxs deDup plan filterId p
    = (inr (deDup', plan', filterId'), p') ->
  exists new,
    plan' = plan ++ new /\
    length new = list_sum (List.map (context_nodes indexMan p) ctxs) /\
    (forall seen, ordered_from seen new).
Proof.
  induction ctxs as [|ctx rest IH];
    intros deDup plan filterId p deDup' plan' filterId' p'; cbn [buildPlan_contexts].
  - intros [= <- <- <- <-]. exists []. rewrite app_nil_r. simpl. auto.
  - destruct (buildPlan_context indexMan ctx deDup plan filterId p)
      as [[st | [[deDup1 plan1] filterId1]] p1] eqn:Hctx; [discriminate|].
    intros Hrest.
    destruct (buildPlan_context_ok _ _ _ _ _ _ _ _ _ _ Hctx)
      as (_ & _ & _ & _ & _ & _ & _ & _ & _ & _ & Hsame).
    destruct (buildPlan_context_detail _ _ _ _ _ _ _ _ _ _ Hctx)
      as (index & block & Hidx & -> & Hlen & Hord & _).
    destruct (IH _ _ _ _ _ _ _ _ Hrest) as (new & -> & Hlen' & Hord').
    exists (block ++ new). split; [now rewrite app_assoc|]. split.
    + assert (Hmap : List.map (context_nodes indexMan p1) rest = List.map (context_nodes indexMan p) rest)
        by (apply List.map_ext; intros c; now apply context_nodes_same).
      rewrite length_app, Hlen, Hlen', Hmap. unfold list_sum.
      cbn [List.map fold_right]. unfold context_nodes at 2. now rewrite Hidx.
    + intros seen. apply ordered_from_app. split; [apply Hord | apply Hord'].
Qed.

Lemma chain_node plan id tags :
  chain plan id tags -> exists n, In n plan /\ node_id n = id.
Proof. inversion 1; eauto. Qed.

(** X23: the layout of a plan returned by [buildPlan].  Every node comes
    after all the nodes it depends on; the plan has the aggregate node, the
    de-duplication node and, for each context, as many nodes as its shape
    has; and the node counter has advanced by the length of the plan. *)
Theorem buildPlan_layout (p : LookupProcessor) (plan : StoragePlan)
    (p' : LookupProcessor) :
  buildPlan indexMan p = (inr plan, p') ->
  dependencies_first plan /\
  length plan = (2 + list_sum (List.map (context_nodes indexMan p) (contexts_ p)))%nat /\
  next_node p' = (next_node p + length plan)%nat.
Proof.
  unfold buildPlan, make_node, set_next_node, addDependency, addNode.
  cbn [next_node deDupColPos_ contexts_ node_id node dependencies_ app].
  match goal with
  | |- context [buildPlan_contexts indexMan ?c ?d ?pl ?f ?q] =>
      destruct (buildPlan_contexts indexMan c d pl f q)
        as [[st | [[deDup1 plan1] filterId1]] p1] eqn:Hloop
  end; [discriminate|].
  intros [= <- <-].
  destruct (buildPlan_contexts_ok _ _ _ _ _ _ _ _ _ _ Hloop)
    as (new & outs & Hplan & -> & Hall & _ & _ & Hnext & _).
  destruct (buildPlan_contexts_layout _ _ _ _ _ _ _ _ _ Hloop)
    as (new' & Hplan' & Hlen & Hord).
  rewrite Hplan in Hplan'. cbn [app] in Hplan, Hplan'. subst new' plan1.
  cbn [next_node node_id node dependencies_ app yieldCols_ planContext_] in *.
  split; [|split].
  - intros pre n post Heq d Hd.
    assert (Hfull : ordered_from [] ((new ++ [mkPlanNode (S (next_node p))
                       (DeDupNode (deDupColPos_ p)) outs])
                     ++ [mkPlanNode (next_node p) AggregateNode [S (next_node p)]])).
    { rewrite <- app_assoc. apply ordered_from_app. split; [apply Hord|].
      cbn [app ordered_from dependencies_ node_id]. split; [|split; [|exact I]].
      - intros d0 Hd0. apply in_or_app. left. rewrite <- in_rev.
        assert (Hout : exists c, In c (contexts_ p) /\
                  exists index,
                    chain new d0 (shape (spec_needData (yieldCols_ p) index c)
                                        (spec_needFilter index c)
                                        (isEdge_ (planContext_ p)))).
        { clear - Hall Hd0. induction Hall as [|o c os cs (ix & _ & Hch) _ IH];
            [contradiction|].
          destruct Hd0 as [<- | Hd0]; [exists c; split; [now left|eauto]|].
          destruct (IH Hd0) as (c' & Hc' & Hex). exists c'. split; [now right|auto]. }
        destruct Hout as (c & _ & index & Hch).
        apply chain_node in Hch as (m & Hm & <-). now apply in_map.
      - intros d0 [<- | []]. now left. }
    destruct (ordered_from_first _ _ Hfull pre n post Heq d Hd) as [[] | Hm].
    exact Hm.
  - rewrite !length_app, Hlen. simpl.
    assert (Hsame : forall c, context_nodes indexMan
              (mkLookupProcessor (spaceId_ p) (planContext_ p) (contexts_ p)
                 (yieldCols_ p) (schemas_ p) (deDupColPos_ p) (filterItems_ p)
                 (S (S (next_node p)))) c = context_nodes indexMan p c) by reflexivity.
    rewrite (List.map_ext _ _ Hsame). lia.
  - rewrite Hnext, !length_app. simpl. lia.
Qed.
End PlanTheorems.

Section PlanFailures.
Context `{CommonBase}.
Variable indexMan : IndexManager.

Lemma buildPlan_context_failure ctx deDup plan filterId p st p' :
  buildPlan_context indexMan ctx deDup plan filterId p = (inl st, p') ->
  (st = IndexNotFound /\ index_of indexMan p ctx = None) \/
  (st = StatusError "Schema not found" /\ schemas_ p = [] /\
   filter_present ctx = true).
Proof.
  unfold buildPlan_context, index_of.
  destruct (if isEdge_ (planContext_ p) then _ else _) as [index|] eqn:Hidx.
  2:{ intros [= <- <-]. left. auto. }
  intros Hb. right.
  destruct (filter_present ctx) eqn:Hfp;
    destruct (yield_needs_data (yieldCols_ p) (get_fields index)) eqn:Hy;
    destruct (isOutsideIndex (Expression_decode (get_filter ctx)) index) eqn:Ho;
    destruct (isEdge_ (planContext_ p)) eqn:He;
    destruct (last (schemas_ p)) as [schema|] eqn:Hs;
    cbn [negb andb orb] in Hb;
    unfold buildPlanBasic, buildPlanWithData, buildPlanWithFilter,
      buildPlanWithDataAndFilter, make_node, set_next_node, set_filterItems,
      addDependency, addNode in Hb;
    cbn [next_node planContext_ schemas_ node_id node dependencies_ fst snd
         spaceId_ contexts_ yieldCols_ deDupColPos_ filterItems_ app] in Hb;
    rewrite ?He, ?Hs in Hb;
    cbn [next_node planContext_ schemas_ node_id node dependencies_ fst snd
         spaceId_ contexts_ yieldCols_ deDupColPos_ filterItems_ app] in Hb;
    try discriminate;
    injection Hb as <- <-; apply last_None in Hs; auto.
Qed.

Lemma buildPlan_contexts_failure ctxs :
  forall deDup plan filterId p st p',
  buildPlan_contexts indexMan ctxs deDup plan filterId p = (inl st, p') ->
  (st = IndexNotFound /\ Exists (fun ctx => index_of indexMan p ctx = None) ctxs) \/
  (st = StatusError "Schema not found" /\ schemas_ p = [] /\
   Exists (fun ctx => filter_present ctx = true) ctxs).
Proof.
  induction ctxs as [|ctx rest IH]; intros deDup plan filterId p st p';
    cbn [buildPlan_contexts]; [discriminate|].
  destruct (buildPlan_context indexMan ctx deDup plan filterId p)
    as [[st0 | [[deDup1 plan1] filterId1]] p1] eqn:Hctx.
  - intros [= <- <-].
    destruct (buildPlan_context_failure _ _ _ _ _ _ _ Hctx) as [[-> Hi] | (-> & Hs & Hf)].
    + left. split; auto.
    + right. split; auto.
  - intros Hrest.
    destruct (buildPlan_context_ok _ _ _ _ _ _ _ _ _ _ Hctx)
      as (_ & _ & _ & _ & _ & _ & _ & _ & _ & _ & Hsame).
    destruct (IH _ _ _ _ _ _ Hrest) as [[-> Hex] | (-> & Hs & Hex)].
    + left. split; auto. apply List.Exists_cons_tl.
      eapply List.Exists_impl; [|exact Hex].
      intros c Hc. now rewrite <- (index_of_same indexMan p p1 c Hsame).
    + right. destruct Hsame as (_ & _ & _ & _ & E5 & _).
      split; auto. split; [congruence|]. now apply List.Exists_cons_tl.
Qed.

Lemma buildPlan_contexts_missing ctxs :
  forall deDup plan filterId p,
  Exists (fun ctx => index_of indexMan p ctx = None) ctxs ->
  exists st p', buildPlan_contexts indexMan ctxs deDup plan filterId p = (inl st, p').
Proof.
  induction ctxs as [|ctx rest IH]; intros deDup plan filterId p Hex;
    cbn [buildPlan_contexts]; [inversion Hex|].
  destruct (buildPlan_context indexMan ctx deDup plan filterId p)
    as [[st0 | [[deDup1 plan1] filterId1]] p1] eqn:Hctx; [eauto|].
  destruct (buildPlan_context_ok _ _ _ _ _ _ _ _ _ _ Hctx)
    as (index & _ & _ & Hidx & _ & _ & _ & _ & _ & _ & Hsame).
  apply IH. inversion Hex as [? ? Hhead | ? ? Htail]; subst; [congruence|].
  eapply List.Exists_impl; [|exact Htail].
  intros c Hc. now rewrite (index_of_same indexMan p p1 c Hsame).
Qed.

Lemma buildPlan_failure_cases (p : LookupProcessor) st p' :
  buildPlan indexMan p = (inl st, p') ->
  (st = IndexNotFound /\
   Exists (fun ctx => index_of indexMan p ctx = None) (contexts_ p)) \/
  (st = StatusError "Schema not found" /\ schemas_ p = [] /\
   Exists (fun ctx => filter_present ctx = true) (contexts_ p)).
Proof.
  unfold buildPlan, make_node, set_next_node.
  cbn [next_node deDupColPos_ contexts_ node_id node dependencies_].
  match goal with
  | |- context [buildPlan_contexts indexMan ?c ?d ?pl ?f ?q] =>
      destruct (buildPlan_contexts indexMan c d pl f q)
        as [[st0 | [[deDup1 plan1] filterId1]] p1] eqn:Hloop
  end; [|discriminate].
  intros [= <- <-].
  exact (buildPlan_contexts_failure _ _ _ _ _ _ _ Hloop).
Qed.

Lemma buildPlan_total (p : LookupProcessor) :
  Forall (fun ctx => is_Some (index_of indexMan p ctx)) (contexts_ p) ->
  schemas_ p <> [] ->
  exists plan p', buildPlan indexMan p = (inr plan, p').
Proof.
  intros Hall Hne.
  destruct (last (schemas_ p)) as [schema|] eqn:Hs.
  2:{ apply last_None in Hs. contradiction. }
  unfold buildPlan, make_node, set_next_node.
  cbn [next_node deDupColPos_ contexts_ node_id node dependencies_].
  match goal with
  | |- context [buildPlan_contexts indexMan ?c ?d ?pl ?f ?q] =>
      destruct (buildPlan_contexts_total indexMan c schema d pl f q)
        as ([[deDup1 plan1] filterId1] & p1 & ->); eauto
  end.
Qed.

(** X24: the two ways [buildPlan] fails.  It returns IndexNotFound only if
    the index of some context is missing, and "Schema not found" only if
    no schema version is loaded and some context has a filter; and it does
    fail whenever the index of some context is missing. *)
Theorem buildPlan_failures (p : LookupProcessor) :
  (forall st p',
     buildPlan indexMan p = (inl st, p') ->
     (st = IndexNotFound /\
      Exists (fun ctx => index_of indexMan p ctx = None) (contexts_ p)) \/
     (st = StatusError "Schema not found" /\ schemas_ p = [] /\
      Exists (fun ctx => filter_present ctx = true) (contexts_ p))) /\
  (Exists (fun ctx => index_of indexMan p ctx = None) (contexts_ p) ->
   exists st p', buildPlan indexMan p = (inl st, p')).
Proof.
  split.
  - intros st p'. apply buildPlan_failure_cases.
  - intros Hex. unfold buildPlan, make_node, set_next_node.
    cbn [next_node deDupColPos_ contexts_ node_id node dependencies_].
    match goal with
    | |- context [buildPlan_contexts indexMan ?c ?d ?pl ?f ?q] =>
        destruct (buildPlan_contexts_missing c d pl f q Hex) as (st & p' & ->)
    end.
    eauto.
Qed.
End PlanFailures.

Section FilterRegistry.
Context `{CommonBase}.
Variable indexMan : IndexManager.

Lemma buildPlan_contexts_registry ctxs :
  forall deDup plan filterId p deDup' plan' filterId' p',
  buildPlan_contexts indexMan ctxs deDup plan filterId p
    = (inr (deDup', plan', filterId'), p') ->
  (forall fid, filterId <= fid -> filterItems_ p !! fid = None) ->
  exists new,
    plan' = plan ++ new /\
    filterId' = filterId + Z.of_nat (length (List.filter filter_present ctxs)) /\
    (forall fid, fid < filterId -> filterItems_ p' !! fid = filterItems_ p !! fid) /\
    (forall fid, filterId' <= fid -> filterItems_ p' !! fid = None) /\
    (forall fid, filterId <= fid < filterId' ->
       exists item ctx,
         filterItems_ p' !! fid = Some item /\
         List.filter filter_present ctxs !! Z.to_nat (fid - filterId) = Some ctx /\
         snd item = Expression_decode (get_filter ctx)) /\
    Forall (fun n => forall item, filter_of n = Some item ->
              exists fid, filterId <= fid < filterId' /\
                          filterItems_ p' !! fid = Some item) new.
Proof.
  induction ctxs as [|ctx rest IH];
    intros deDup plan filterId p deDup' plan' filterId' p'; cbn [buildPlan_contexts].
  - intros [= <- <- <- <-] Hfresh. exists []. rewrite app_nil_r. simpl.
    split; [reflexivity|]. split; [lia|]. split; [auto|]. split; [auto|].
    split; [intros fid Hfid; lia | constructor].
  - destruct (buildPlan_context indexMan ctx deDup plan filterId p)
      as [[st | [[deDup1 plan1] filterId1]] p1] eqn:Hctx; [discriminate|].
    intros Hrest Hfresh.
    destruct (buildPlan_context_detail _ _ _ _ _ _ _ _ _ _ Hctx)
      as (index & block & _ & -> & _ & _ & Hfid1 & (item & Hitem & Hitems1) & Hnodes).
    assert (Hfresh1 : forall fid, filterId1 <= fid -> filterItems_ p1 !! fid = None).
    { intros fid Hfid. rewrite Hitems1. subst filterId1.
      destruct (filter_present ctx).
      - rewrite filterItems_emplace_other by lia. apply Hfresh. lia.
      - now apply Hfresh. }
    assert (Hold1 : forall fid, fid < filterId ->
                      filterItems_ p1 !! fid = filterItems_ p !! fid).
    { intros fid Hfid. rewrite Hitems1. destruct (filter_present ctx); auto.
      apply filterItems_emplace_other. lia. }
    destruct (IH _ _ _ _ _ _ _ _ Hrest Hfresh1)
      as (new & -> & -> & Hold & Hnone & Hreg & Hnodes').
    exists (block ++ new). split; [now rewrite app_assoc|].
    cbn [List.filter]. subst filterId1.
    destruct (filter_present ctx) eqn:Hfp; cbn [length].
    + split; [lia|]. split; [|split; [|split]].
      * intros fid Hfid. rewrite Hold by lia. apply Hold1. lia.
      * intros fid Hfid. apply Hnone. lia.
      * intros fid Hfid. destruct (Z.eq_dec fid filterId) as [->|Hne].
        -- exists item, ctx. rewrite Hold by lia. rewrite Hitems1.
           rewrite filterItems_emplace_lookup, (Hfresh filterId) by lia.
           replace (filterId - filterId) with 0 by lia. simpl. auto.
        -- destruct (Hreg fid ltac:(lia)) as (it & c & Hit & Hc & Hdec).
           exists it, c. split; [exact Hit|]. split; [|exact Hdec].
           replace (Z.to_nat (fid - filterId))
             with (S (Z.to_nat (fid - (filterId + 1)))) by lia.
           exact Hc.
      * apply List.Forall_app. split.
        -- eapply List.Forall_impl; [|exact Hnodes].
           intros n Hn it Hit. destruct (Hn it Hit) as [_ Hlook].
           exists filterId. split; [lia|]. rewrite Hold by lia. exact Hlook.
        -- eapply List.Forall_impl; [|exact Hnodes'].
           intros n Hn it Hit. destruct (Hn it Hit) as (fid & Hfid & Hlook).
           exists fid. split; [lia | exact Hlook].
    + split; [lia|]. split; [|split; [|split]].
      * intros fid Hfid. rewrite Hold by lia. apply Hold1. lia.
      * intros fid Hfid. apply Hnone. lia.
      * intros fid Hfid. apply Hreg. lia.
      * apply List.Forall_app. split.
        -- eapply List.Forall_impl; [|exact Hnodes].
           intros n Hn it Hit. destruct (Hn it Hit) as [Habs _]. discriminate.
        -- eapply List.Forall_impl; [|exact Hnodes'].
           intros n Hn it Hit. destruct (Hn it Hit) as (fid & Hfid & Hlook).
           exists fid. split; [lia | exact Hlook].
Qed.

(** X25: the filter table after a successful [buildPlan] that started with
    an empty one.  Its keys are exactly 0 .. n-1 for the n contexts that
    carry a filter; entry i holds the decoded filter of the i-th such
    context; and what every filter node of the plan carries is an entry of
    the table. *)
Theorem buildPlan_filter_registry (p : LookupProcessor) (plan : StoragePlan)
    (p' : LookupProcessor) :
  filterItems_ p = ∅ ->
  buildPlan indexMan p = (inr plan, p') ->
  let filtered := List.filter filter_present (contexts_ p) in
  (forall fid,
     is_Some (filterItems_ p' !! fid) <-> 0 <= fid < Z.of_nat (length filtered)) /\
  (forall fid item,
     filterItems_ p' !! fid = Some item ->
     exists ctx, filtered !! Z.to_nat fid = Some ctx /\
                 snd item = Expression_decode (get_filter ctx)) /\
  (forall n item,
     In n plan -> filter_of n = Some item ->
     exists fid, filterItems_ p' !! fid = Some item).
Proof.
  intros Hempty. unfold buildPlan, make_node, set_next_node, addDependency, addNode.
  cbn [next_node deDupColPos_ contexts_ node_id node dependencies_ app].
  match goal with
  | |- context [buildPlan_contexts indexMan ?c ?d ?pl ?f ?q] =>
      destruct (buildPlan_contexts indexMan c d pl f q)
        as [[st | [[deDup1 plan1] filterId1]] p1] eqn:Hloop
  end; [discriminate|].
  intros [= <- <-]. cbv zeta.
  assert (Hfresh : forall fid, 0 <= fid ->
            filterItems_ (mkLookupProcessor (spaceId_ p) (planContext_ p) (contexts_ p)
              (yieldCols_ p) (schemas_ p) (deDupColPos_ p) (filterItems_ p)
              (S (S (next_node p)))) !! fid = None).
  { intros fid _. cbn [filterItems_]. rewrite Hempty. apply lookup_empty. }
  destruct (buildPlan_contexts_ok _ _ _ _ _ _ _ _ _ _ Hloop)
    as (_ & outs & _ & Hdd & _).
  destruct (buildPlan_contexts_registry _ _ _ _ _ _ _ _ _ Hloop Hfresh)
    as (new & -> & -> & Hold & Hnone & Hreg & Hnodes).
  clear Hfresh Hloop. subst deDup1.
  cbn [filterItems_ app] in *.
  split; [|split].
  - intros fid. split.
    + intros Hsome.
      destruct (Z_lt_dec fid 0) as [Hneg|Hpos].
      { rewrite Hold, Hempty, lookup_empty in Hsome by lia. now destruct Hsome. }
      destruct (Z_lt_dec fid (0 + Z.of_nat (length (List.filter filter_present (contexts_ p)))))
        as [Hlt|Hge]; [lia|].
      rewrite Hnone in Hsome by lia. now destruct Hsome.
    + intros Hfid. destruct (Hreg fid ltac:(lia)) as (it & c & -> & _). eauto.
  - intros fid item Hlook.
    destruct (Z_lt_dec fid 0) as [Hneg|Hpos].
    { rewrite Hold, Hempty, lookup_empty in Hlook by lia. discriminate. }
    destruct (Z_lt_dec fid (0 + Z.of_nat (length (List.filter filter_present (contexts_ p)))))
      as [Hlt|Hge].
    + destruct (Hreg fid ltac:(lia)) as (it & c & Hit & Hc & Hdec).
      rewrite Hlook in Hit. injection Hit as <-.
      exists c. replace (fid - 0) with fid in Hc by lia. auto.
    + rewrite Hnone in Hlook by lia. discriminate.
  - intros n item Hin Hf. rewrite <- app_assoc in Hin.
    apply in_app_or in Hin as [Hin | [<- | [<- | []]]];
      try (unfold filter_of in Hf; cbn [node] in Hf; discriminate Hf).
    rewrite List.Forall_forall in Hnodes.
    destruct (Hnodes n Hin item Hf) as (fid & _ & Hlook). eauto.
Qed.
End FilterRegistry.


(** ** Request validation *)

Section RequestCheck.
Context `{CommonBase}.

Lemma requestCheck_columns_spec cols : forall i colNames deDupColPos,
  requestCheck_columns cols i colNames deDupColPos =
  (colNames ++ cols,
   deDupColPos ++ List.filter (fun j => is_key_column (nth (j - i) cols ""))
                              (seq i (length cols))).
Proof.
  induction cols as [|col rest IH]; intros i colNames deDupColPos;
    cbn [requestCheck_columns length seq List.filter].
  - now rewrite !app_nil_r.
  - rewrite IH, <- app_assoc. cbn [app]. f_equal.
    replace (i - i)%nat with 0%nat by lia. cbn [nth].
    assert (Hext : List.filter (fun j => is_key_column (nth (j - S i) rest ""))
                               (seq (S i) (length rest)) =
                   List.filter (fun j => is_key_column (nth (j - i) (col :: rest) ""))
                               (seq (S i) (length rest))).
    { apply List.filter_ext_in. intros j Hj. apply in_seq in Hj.
      replace (j - i)%nat with (S (j - S i)) by lia. reflexivity. }
    rewrite Hext. destruct (is_key_column col); [|reflexivity].
    now rewrite <- app_assoc.
Qed.

Variable getSpaceVidLen : Z -> storage.ErrorCode * Z * bool.
Variable schemaMan : SchemaManager.

Lemma requestCheck_accepted req p colNames p' colNames' :
  requestCheck getSpaceVidLen schemaMan req p colNames
    = Some (storage.SUCCEEDED, p', colNames') ->
  exists cols,
    return_columns_ref req = Some cols /\ cols <> [] /\
    get_contexts (get_indices req) <> [] /\
    contexts_ p' = get_contexts (get_indices req) /\
    yieldCols_ p' = cols /\
    schemas_ p' <> [] /\
    spaceId_ p' = get_space_id req /\
    isEdge_ (planContext_ p') = get_is_edge (get_indices req) /\
    colNames' = colNames ++ cols /\
    deDupColPos_ p' =
      deDupColPos_ p ++ List.filter (fun i => is_key_column (nth i cols ""))
                                    (seq 0 (length cols)) /\
    filterItems_ p' = filterItems_ p /\ next_node p' = next_node p.
Proof.
  unfold requestCheck.
  cbn [spaceId_ planContext_ contexts_ yieldCols_ schemas_ deDupColPos_
       filterItems_ next_node isEdge_ edgeName_ tagName_ vIdLen_ isIntId_].
  destruct (getSpaceVidLen (get_space_id req)) as [[retCode vidLen] isInt].
  destruct retCode; cbn [storage.ErrorCode_eqb negb]; try discriminate.
  assert (Htail : forall q : LookupProcessor,
    schemas_ q <> [] -> spaceId_ q = get_space_id req ->
    isEdge_ (planContext_ q) = get_is_edge (get_indices req) ->
    deDupColPos_ q = deDupColPos_ p -> filterItems_ q = filterItems_ p ->
    next_node q = next_node p ->
    (if (Nat.eqb (length (get_contexts (get_indices req))) 0
         || negb (bool_decide (is_Some (return_columns_ref req)))
         || Nat.eqb (length (default [] (return_columns_ref req))) 0)%bool
     then Some (storage.E_INVALID_OPERATION, q, colNames)
     else
       let p0 := mkLookupProcessor (spaceId_ q) (planContext_ q)
                   (get_contexts (get_indices req)) (yieldCols_ q) (schemas_ q)
                   (deDupColPos_ q) (filterItems_ q) (next_node q) in
       let p1 :=
         match return_columns_ref req with
         | Some cols =>
             mkLookupProcessor (spaceId_ p0) (planContext_ p0) (contexts_ p0) cols
               (schemas_ p0) (deDupColPos_ p0) (filterItems_ p0) (next_node p0)
         | None => p0
         end in
       let '(colNames0, deDupColPos) :=
         requestCheck_columns (yieldCols_ p1) 0 colNames (deDupColPos_ p1) in
       let p2 := mkLookupProcessor (spaceId_ p1) (planContext_ p1) (contexts_ p1)
                   (yieldCols_ p1) (schemas_ p1) deDupColPos (filterItems_ p1)
                   (next_node p1) in
       Some (storage.SUCCEEDED, p2, colNames0))
    = Some (storage.SUCCEEDED, p', colNames') ->
    exists cols,
      return_columns_ref req = Some cols /\ cols <> [] /\
      get_contexts (get_indices req) <> [] /\
      contexts_ p' = get_contexts (get_indices req) /\
      yieldCols_ p' = cols /\
      schemas_ p' <> [] /\
      spaceId_ p' = get_space_id req /\
      isEdge_ (planContext_ p') = get_is_edge (get_indices req) /\
      colNames' = colNames ++ cols /\
      deDupColPos_ p' =
        deDupColPos_ p ++ List.filter (fun i => is_key_column (nth i cols ""))
                                      (seq 0 (length cols)) /\
      filterItems_ p' = filterItems_ p /\ next_node p' = next_node p).
  { intros q Hs Hsp He Hd Hf Hn.
    destruct (get_contexts (get_indices req)) as [|c0 cs] eqn:Hctx;
      cbn [length Nat.eqb orb]; [discriminate|].
    destruct (return_columns_ref req) as [cols|] eqn:Hcols;
      [|cbn; discriminate].
    rewrite bool_decide_eq_true_2 by eauto. cbn [negb default from_option id orb].
    destruct (Nat.eqb (length cols) 0) eqn:Hlen; [discriminate|].
    assert (Hne : cols <> []) by (intros ->; discriminate).
    cbv zeta.
    cbn [spaceId_ planContext_ contexts_ yieldCols_ schemas_ deDupColPos_
         filterItems_ next_node].
    rewrite requestCheck_columns_spec.
    intros [= <- <-].
    cbn [spaceId_ planContext_ contexts_ yieldCols_ schemas_ deDupColPos_
         filterItems_ next_node].
    exists cols. rewrite Hd.
    assert (Hext : List.filter (fun j => is_key_column (nth (j - 0) cols ""))
                     (seq 0 (length cols)) =
                   List.filter (fun i => is_key_column (nth i cols ""))
                     (seq 0 (length cols))).
    { apply List.filter_ext. intros j. now rewrite Nat.sub_0_r. }
    rewrite Hext. repeat split; auto; discriminate. }
  destruct (get_is_edge (get_indices req)) eqn:Hedge.
  - destruct (toEdgeName schemaMan _ _) as [edgeName|]; [|discriminate].
    destruct (getAllVerEdgeSchema schemaMan _) as [allEdges|]; [|discriminate].
    destruct (allEdges !! _) as [schemas|]; [|discriminate].
    cbn [schemas_].
    destruct (last schemas) as [latest|] eqn:Hlast; [|discriminate].
    apply Htail; cbn [schemas_ spaceId_ planContext_ isEdge_ deDupColPos_
                      filterItems_ next_node]; auto.
    intros ->. discriminate.
  - destruct (toTagName schemaMan _ _) as [tagName|]; [|discriminate].
    destruct (getAllVerTagSchema schemaMan _) as [allTags|]; [|discriminate].
    destruct (allTags !! _) as [schemas|]; [|discriminate].
    cbn [schemas_].
    destruct (last schemas) as [latest|] eqn:Hlast; [|discriminate].
    apply Htail; cbn [schemas_ spaceId_ planContext_ isEdge_ deDupColPos_
                      filterItems_ next_node]; auto.
    intros ->. discriminate.
Qed.

(** X26: what a successful [requestCheck] establishes.  The request had at
    least one context and at least one return column; the contexts and the
    yield columns of the processor are those of the request; a schema
    version is loaded; the columns were appended to the column names of
    the result; and the positions of the key columns among them were
    appended to the de-duplication positions. *)
Theorem requestCheck_success (req : LookupIndexRequest) (p : LookupProcessor)
    (colNames : list string) (p' : LookupProcessor) (colNames' : list string) :
  requestCheck getSpaceVidLen schemaMan req p colNames
    = Some (storage.SUCCEEDED, p', colNames') ->
  exists cols,
    return_columns_ref req = Some cols /\ cols <> [] /\
    contexts_ p' = get_contexts (get_indices req) /\ contexts_ p' <> [] /\
    yieldCols_ p' = cols /\
    schemas_ p' <> [] /\
    colNames' = colNames ++ cols /\
    deDupColPos_ p' =
      deDupColPos_ p ++ List.filter (fun i => is_key_column (nth i cols ""))
                                    (seq 0 (length cols)).
Proof.
  intros Hrc.
  destruct (requestCheck_accepted _ _ _ _ _ Hrc)
    as (cols & ? & ? & ? & Hc & ? & ? & _ & _ & ? & ? & _).
  exists cols. repeat split; auto. now rewrite Hc.
Qed.

(** X27: after a successful [requestCheck], [buildPlan] can fail only with
    IndexNotFound, for a context of the request whose index is missing;
    when every context has its index a plan is returned. *)
Theorem requestCheck_then_buildPlan (indexMan : IndexManager)
    (req : LookupIndexRequest) (p : LookupProcessor)
    (colNames : list string) (p' : LookupProcessor) (colNames' : list string) :
  requestCheck getSpaceVidLen schemaMan req p colNames
    = Some (storage.SUCCEEDED, p', colNames') ->
  (forall st q,
     buildPlan indexMan p' = (inl st, q) ->
     st = IndexNotFound /\
     Exists (fun ctx => index_of indexMan p' ctx = None)
            (get_contexts (get_indices req))) /\
  (Forall (fun ctx => is_Some (index_of indexMan p' ctx))
          (get_contexts (get_indices req)) ->
   exists plan q, buildPlan indexMan p' = (inr plan, q)).
Proof.
  intros Hrc.
  destruct (requestCheck_accepted _ _ _ _ _ Hrc)
    as (cols & _ & _ & _ & Hc & _ & Hs & _).
  split.
  - intros st q Hb.
    destruct (buildPlan_failure_cases indexMan p' st q Hb)
      as [[-> Hex] | (_ & Habs & _)]; [|contradiction].
    rewrite Hc in Hex. auto.
  - intros Hall. apply buildPlan_total; auto. now rewrite Hc.
Qed.
End RequestCheck.


(** ** Host liveness *)

(** X29: the status of a host by the age of its last heartbeat, when the
    flag products do not overflow: ONLINE below
    heartbeat_interval_secs * expired_time_factor seconds (and below the
    removal threshold), OFFLINE from there up to removed_threshold_sec
    seconds, and queued for removal from then on. *)
Theorem host_status_thresholds (flags : Flags) (now : Z) (info : HostInfo) :
  0 <= lastHBTimeInMilliSec_ info <= now -> now < 2 ^ 63 ->
  thresholds_fit flags ->
  let age := now - lastHBTimeInMilliSec_ info in
  let expired := heartbeat_interval_secs flags * expired_time_factor flags * 1000 in
  let removed := removed_threshold_sec flags * 1000 in
  (host_status flags now info = Some ONLINE <-> age < expired /\ age < removed) /\
  (host_status flags now info = Some OFFLINE <-> expired <= age < removed) /\
  (host_status flags now info = None <-> removed <= age).
Proof.
  intros Hlast Hnow (Hhb & Hf & Hrem & Hprod & Hremp). cbv zeta.
  unfold host_status, heartbeat_age, removed_threshold_ms, expired_threshold_ms,
    to_uint32.
  change (2 ^ 63) with 9223372036854775808 in *.
  change (2 ^ 32) with 4294967296 in *.
  change (2 ^ 31) with 2147483648 in *.
  assert (Hage : wrap64 (now - lastHBTimeInMilliSec_ info)
                 = now - lastHBTimeInMilliSec_ info).
  { unfold wrap64. change (2 ^ 64) with 18446744073709551616.
    change (2 ^ 63) with 9223372036854775808.
    rewrite Z.mod_small by lia. lia. }
  assert (Hr : wrap32 (removed_threshold_sec flags * 1000)
               = removed_threshold_sec flags * 1000).
  { apply wrap32_id. unfold INT32_MIN, INT32_MAX.
    change (2 ^ 31) with 2147483648. lia. }
  assert (He : ((heartbeat_interval_secs flags mod 4294967296
                 * expired_time_factor flags) mod 4294967296 * 1000) mod 4294967296
               = heartbeat_interval_secs flags * expired_time_factor flags * 1000).
  { assert (Hhf : 0 <= heartbeat_interval_secs flags * expired_time_factor flags)
      by nia.
    rewrite (Z.mod_small (heartbeat_interval_secs flags)) by lia.
    rewrite (Z.mod_small (heartbeat_interval_secs flags * expired_time_factor flags))
      by lia.
    apply Z.mod_small. lia. }
  rewrite Hage, Hr, He.
  destruct (Z.ltb_spec (now - lastHBTimeInMilliSec_ info)
                       (removed_threshold_sec flags * 1000));
    [destruct (Z.ltb_spec (now - lastHBTimeInMilliSec_ info)
               (heartbeat_interval_secs flags * expired_time_factor flags * 1000))|];
    repeat split; intros; try discriminate; try lia; auto.
Qed.

Section HostListing.
Context `{HostRegistry}.
Variable flags : Flags.

Lemma HostRole_eqb_eq a b : HostRole_eqb a b = true <-> a = b.
Proof. destruct a, b; simpl; split; congruence. Qed.

Lemma allHostsWithStatus_fold role now iter : forall items keys,
  fold_left (allHostsWithStatus_entry flags role now) iter (items, keys) =
  (items ++ omap (listed_item flags role now) iter,
   keys ++ List.map fst
             (List.filter (fun e =>
                HostRole_eqb (role_ (HostInfo_decode (snd e))) role
                && negb (bool_decide (is_Some (host_status flags now
                                                 (HostInfo_decode (snd e))))))
                iter)).
Proof.
  induction iter as [|e rest IH]; intros items keys; cbn [fold_left].
  - simpl. now rewrite !app_nil_r.
  - cbn [List.filter]. unfold allHostsWithStatus_entry at 2.
    change (omap (listed_item flags role now) (e :: rest))
      with (match listed_item flags role now e with
            | Some y => y :: omap (listed_item flags role now) rest
            | None => omap (listed_item flags role now) rest
            end).
    unfold listed_item at 1.
    destruct (HostRole_eqb (role_ (HostInfo_decode (snd e))) role) eqn:Hr;
      cbn [negb andb].
    + destruct (host_status flags now (HostInfo_decode (snd e))) as [st|] eqn:Hst;
        cbn [fmap option_fmap option_map bool_decide]; rewrite IH.
      * rewrite bool_decide_eq_true_2 by eauto. cbn [negb].
        now rewrite <- app_assoc.
      * rewrite bool_decide_eq_false_2 by (intros [? ?]; discriminate).
        cbn [negb List.map]. now rewrite <- app_assoc.
    + rewrite IH. reflexivity.
Qed.

(** X28: [allHostsWithStatus] for a role other than META on an engine
    without faults.  It answers SUCCEEDED and appends exactly the items of
    the host records of that role whose heartbeat is recent enough to
    keep.  Once the removal it issues is applied, the records of that role
    that are too old are gone and every other key holds what it held. *)
Theorem allHostsWithStatus_partition (role : HostRole) (now : Z)
    (items : list HostItem) (s : NebulaStore) :
  role <> ROLE_META -> healthy s ->
  exists new s',
    allHostsWithStatus flags role now items s = (cpp2.SUCCEEDED, items ++ new, s') /\
    (forall item,
       In item new <->
       exists k v,
         kv s !! k = Some v /\ String.prefix hostPrefix k = true /\
         listed_item flags role now (k, v) = Some item) /\
    (forall k v,
       kv s !! k = Some v ->
       (String.prefix hostPrefix k = true /\ expired_host flags role now (k, v) ->
        kv s' !! k = None) /\
       (~ (String.prefix hostPrefix k = true /\ expired_host flags role now (k, v)) ->
        kv s' !! k = Some v)) /\
    (forall k, kv s !! k = None -> kv s' !! k = None).
Proof.
  intros Hrole Hh. unfold allHostsWithStatus.
  destruct (HostRole_eqb role ROLE_META) eqn:Hm;
    [apply HostRole_eqb_eq in Hm; contradiction|].
  destruct (doPrefix_healthy s Hh hostPrefix) as (s1 & Hh1 & K1 & ->).
  rewrite allHostsWithStatus_fold. cbn [app].
  set (iter := List.filter (fun e => String.prefix hostPrefix (fst e))
                           (map_to_list (kv s))).
  set (keys := List.map fst (List.filter _ iter)).
  assert (Hiter : forall k v, In (k, v) iter <->
            kv s !! k = Some v /\ String.prefix hostPrefix k = true).
  { intros k v. unfold iter. rewrite List.filter_In. simpl.
    split; intros [Hin Hp]; split; auto.
    - now apply list_elem_of_In, elem_of_map_to_list in Hin.
    - now apply list_elem_of_In, elem_of_map_to_list. }
  assert (Hkeys : forall k, In k keys <->
            exists v, kv s !! k = Some v /\ String.prefix hostPrefix k = true /\
                      expired_host flags role now (k, v)).
  { intros k. unfold keys, expired_host. rewrite in_map_iff. split.
    - intros ([k' v] & <- & Hin). apply List.filter_In in Hin as [Hin Hc].
      apply Hiter in Hin as [Hkv Hp]. apply andb_prop in Hc as [Hr Hn].
      apply HostRole_eqb_eq in Hr. simpl in *.
      exists v. repeat split; auto.
      destruct (host_status flags now (HostInfo_decode v)) eqn:Hst; auto.
      rewrite bool_decide_eq_true_2 in Hn by eauto. discriminate.
    - intros (v & Hkv & Hp & Hr & Hst). exists (k, v). split; [reflexivity|].
      apply List.filter_In. split; [apply Hiter; auto|]. simpl in *.
      rewrite Hst. apply andb_true_intro. split.
      + now apply HostRole_eqb_eq.
      + rewrite bool_decide_eq_false_2 by (intros [? ?]; discriminate). reflexivity. }
  assert (Hstore : exists s',
            removeExpiredHosts keys s1 = s' /\
            forall k, kv s' !! k = if In_dec String.string_dec k keys then None
                                   else kv s !! k).
  { unfold removeExpiredHosts. destruct keys as [|k0 ks] eqn:Hk; cbn [length Nat.eqb].
    - exists s1. split; [reflexivity|]. intros k. rewrite K1.
      destruct (In_dec _ k []) as [[]|]; reflexivity.
    - destruct (engine_multiRemove_healthy s1 Hh1 (k0 :: ks)) as (s2 & _ & K2 & ->).
      exists s2. split; [reflexivity|]. intros k. rewrite K2, K1.
      destruct (In_dec _ k (k0 :: ks)).
      + now apply fold_delete_member.
      + now apply fold_delete_other. }
  destruct Hstore as (s' & -> & Hlook).
  exists (omap (listed_item flags role now) iter), s'.
  split; [reflexivity|]. split; [|split].
  - intros item. rewrite <- list_elem_of_In, list_elem_of_omap. split.
    + intros ([k v] & Hin & Hitem). apply list_elem_of_In, Hiter in Hin as [Hkv Hp].
      eauto.
    + intros (k & v & Hkv & Hp & Hitem). exists (k, v). split; [|exact Hitem].
      apply list_elem_of_In, Hiter. auto.
  - intros k v Hkv. rewrite Hlook. split.
    + intros [Hp Hex]. destruct (In_dec _ k keys) as [|Hn]; [reflexivity|].
      exfalso. apply Hn, Hkeys. eauto.
    + intros Hno. destruct (In_dec _ k keys) as [Hin|]; [|exact Hkv].
      exfalso. apply Hkeys in Hin as (v' & Hkv' & Hp & Hex).
      apply Hno. split; [exact Hp|]. congruence.
  - intros k Hkv. rewrite Hlook.
    destruct (In_dec _ k keys) as [|]; [reflexivity | exact Hkv].
Qed.
End HostListing.


(** A run that is evaluated to end in some state ends in the state that
    [default] reads off it. *)
Ltac run_defined :=
  match goal with
  | |- ?run = Some (default _ ?run) =>
      let B := fresh "B" in
      assert (B : (match run with Some _ => true | None => false end) = true)
        by (vm_compute; reflexivity);
      destruct run as [?|]; [reflexivity | discriminate B]
  end.

Lemma doPut_read_back_witness :
  let p := mkProcessor (mkStore ∅ [] true) cpp2.E_UNKNOWN 0 in
  let data := [("a", "1"); ("b", "2"); ("a", "3")] in
  resp_code (doPut data p) = cpp2.SUCCEEDED /\
  finished (doPut data p) = 1%nat /\
  fst (doGet "a" (kvstore_ (doPut data p))) = inr "3".
Proof.
  intros p data. apply (doPut_read_back data p "a"). constructor.
Defined.

Lemma removed_keys_are_not_found_witness :
  fst (@spaceExist exporting_codec 1
         (kvstore_ (doMultiRemove [@spaceKey exporting_codec 1] demo_processor)))
  = cpp2.E_NOT_FOUND.
Proof.
  destruct (@removed_keys_are_not_found exporting_codec
              [@spaceKey exporting_codec 1] (@spaceKey exporting_codec 1)
              demo_processor) as [(_ & _ & _ & Hs & _) _].
  - constructor.
  - apply Hs. left. reflexivity.
Defined.

Lemma getSpaceId_reads_registration_witness :
  exists s',
    doSyncPut [(@indexSpaceKey exporting_codec "T", encodeInt32 7)]
              (demo_store exporting_codec) = (cpp2.SUCCEEDED, s') /\
    fst (@getSpaceId exporting_codec "T" s') = Some (inr 7).
Proof.
  destruct (@getSpaceId_reads_registration exporting_codec "T" 7
              (demo_store exporting_codec)) as (s' & Hput & Hget & _).
  - constructor.
  - unfold INT32_MIN, INT32_MAX. lia.
  - exists s'. split; [exact Hput | exact Hget].
Defined.

Lemma DropSpace_only_removes_witness :
  finished demo_drop_result = 1%nat /\
  kv (kvstore_ demo_drop_result) !! @spaceKey exporting_codec 1 = None.
Proof.
  destruct (@DropSpace_only_removes exporting_codec (mkDropSpaceReq "S" false) 1000
              demo_processor demo_drop_result) as (Hfin & Hframe & _).
  - vm_compute. reflexivity.
  - split; [exact Hfin|].
    destruct (Hframe (@spaceKey exporting_codec 1)) as [Hnone | Hsame].
    + vm_compute. discriminate.
    + exact Hnone.
    + vm_compute. reflexivity.
Defined.

Lemma DropSpace_unknown_space_witness :
  exists p',
    @DropSpaceProcessor_process exporting_codec (mkDropSpaceReq "nowhere" true) 1000
       demo_processor = Some p' /\
    resp_code p' = cpp2.SUCCEEDED /\
    finished p' = 1%nat /\
    kv (kvstore_ p') = kv (kvstore_ demo_processor).
Proof.
  apply (@DropSpace_unknown_space exporting_codec (mkDropSpaceReq "nowhere" true)
           1000 demo_processor).
  - constructor.
  - vm_compute. reflexivity.
Defined.

Lemma DropSpace_twice_witness :
  exists p1 p2,
    @DropSpaceProcessor_process exporting_codec (mkDropSpaceReq "S" false) 1000
       demo_processor = Some p1 /\
    resp_code p1 = cpp2.SUCCEEDED /\
    @DropSpaceProcessor_process exporting_codec (mkDropSpaceReq "S" false) 2000
       p1 = Some p2 /\
    resp_code p2 = cpp2.E_NOT_FOUND /\
    finished p2 = 2%nat /\
    kv (kvstore_ p2) = kv (kvstore_ p1).
Proof.
  apply (@DropSpace_twice exporting_codec (mkDropSpaceReq "S" false) 1000 2000
           demo_processor 1).
  - constructor.
  - vm_compute. reflexivity.
  - unfold INT32_MIN, INT32_MAX. lia.
  - vm_compute. discriminate.
Defined.

Lemma getSpacesHosts_spec_witness :
  List.NoDup (pairs_of [(1, [host1; host2])]) /\
  Forall (fun sh : Z * list HostAddr => snd sh <> []) [(1, [host1; host2])].
Proof.
  destruct (@getSpacesHosts_spec exporting_codec
              (mkSnapshot (demo_store exporting_codec) ∅ [])
              [(1, [host1; host2])]
              (mkSnapshot (demo_store exporting_codec) ∅ []))
    as (_ & Hnd & _ & Hne).
  - vm_compute. reflexivity.
  - split; [exact Hnd | exact Hne].
Defined.

Lemma blockingWrites_result_witness :
  let sn := mkSnapshot (demo_store exporting_codec) ∅ [] in
  exists sentNow,
    @blockingWrites exporting_codec block_refusing_client BLOCK_ON sn =
      (if all_accepted block_refusing_client [] sentNow
       then cpp2.SUCCEEDED else cpp2.E_BLOCK_WRITE_FAILURE,
       set_sent sn ([] ++ sentNow)) /\
    In (RpcBlockingWrites 1 BLOCK_ON host1) sentNow.
Proof.
  intros sn.
  destruct (@blockingWrites_result exporting_codec block_refusing_client BLOCK_ON
              sn [(1, [host1; host2])] sn) as (sentNow & Hret & Hfirst & _).
  - vm_compute. reflexivity.
  - exists sentNow. split; [exact Hret|].
    apply (Hfirst 1 host1 [host2]). left. reflexivity.
Defined.

Lemma createSnapshot_info_witness :
  List.map cp_host
    (default [] (({[ 1 := [mkCheckpointInfo host1 "/data/cp";
                           mkCheckpointInfo host2 "/data/cp"] ]}
                  : gmap Z (list CheckpointInfo)) !! 1))
  = hosts_of 1 [(1, [host1; host2])].
Proof.
  destruct (@createSnapshot_info exporting_codec steady_client "cp"
              (mkSnapshot (demo_store exporting_codec) ∅ [])
              [(1, [host1; host2])]
              (mkSnapshot (demo_store exporting_codec) ∅ [])
              {[ 1 := [mkCheckpointInfo host1 "/data/cp";
                       mkCheckpointInfo host2 "/data/cp"] ]}
              (mkSnapshot (demo_store exporting_codec) ∅
                 [RpcCreateSnapshot 1 "cp" host1; RpcCreateSnapshot 1 "cp" host2]))
    as (Hhosts & _).
  - vm_compute. reflexivity.
  - vm_compute. reflexivity.
  - apply Hhosts.
Defined.


Lemma CreateBackup_contacts_after_admission_witness :
  leader (store_of (demo_backup_state exporting_codec)) = true /\
  exists s1 hosts spaces s2,
    @isIndexRebuilding exporting_codec (store_of (demo_backup_state exporting_codec))
      = (inr false, s1) /\
    both_hosts_active s1 = inr hosts /\ hosts <> [] /\
    @spaceNameToId exporting_codec None s1 = (Some (inr spaces), s2) /\
    spaces <> ∅.
Proof.
  apply (@CreateBackup_contacts_after_admission exporting_codec steady_client
           both_hosts_active "T" (mkCreateBackupReq None)
           (demo_backup_state exporting_codec) demo_backup_result).
  - unfold demo_backup_result. run_defined.
  - assert (Hsent : rpcs demo_backup_result =
                    [RpcBlockingWrites 1 BLOCK_ON host1;
                     RpcBlockingWrites 1 BLOCK_ON host2;
                     RpcCreateSnapshot 1 "BACKUP_T" host1;
                     RpcCreateSnapshot 1 "BACKUP_T" host2;
                     RpcBlockingWrites 1 BLOCK_OFF host1;
                     RpcBlockingWrites 1 BLOCK_OFF host2])
      by (vm_compute; reflexivity).
    rewrite Hsent. discriminate.
Defined.

Lemma CreateBackup_success_traffic_witness :
  resp_code (base demo_backup_result) = cpp2.SUCCEEDED /\
  exists files info,
    resp_meta demo_backup_result = Some (mkBackupMeta files info ("BACKUP_" +:+ "T")).
Proof.
  destruct (@CreateBackup_success_traffic exporting_codec steady_client
              both_hosts_active "T" (mkCreateBackupReq None)
              (demo_backup_state exporting_codec) demo_backup_result)
    as (Hcode & Hmeta & _).
  - unfold demo_backup_result. run_defined.
  - assert (Hset : (match resp_meta demo_backup_result with
                    | Some _ => true
                    | None => false
                    end) = true) by (vm_compute; reflexivity).
    intros Heq. rewrite Heq in Hset. discriminate Hset.
  - split; [exact Hcode | exact Hmeta].
Defined.

Lemma isIndexRebuilding_spec_witness :
  exists b s',
    @isIndexRebuilding exporting_codec (store_of rebuilding_state) = (inr b, s') /\
    kv s' = kv (store_of rebuilding_state) /\
    (b = true <->
     exists k, String.prefix (@rebuildIndexStatusPrefix exporting_codec) k = true /\
               kv (store_of rebuilding_state) !! k = Some "RUNNING").
Proof.
  apply (@isIndexRebuilding_spec exporting_codec (store_of rebuilding_state)).
  constructor.
Defined.

Lemma CreateBackup_admission_checks_witness :
  exists st',
    @CreateBackupProcessor_process exporting_codec steady_client both_hosts_active
       "T" (mkCreateBackupReq None) rebuilding_state = Some st' /\
    resp_code (base st') = cpp2.E_BACKUP_BUILDING_INDEX /\
    kv (store_of st') = kv (store_of rebuilding_state) /\
    rpcs st' = rpcs rebuilding_state.
Proof.
  destruct (@CreateBackup_admission_checks exporting_codec steady_client
              both_hosts_active "T" (mkCreateBackupReq None) rebuilding_state)
    as (_ & Hrebuild & _).
  - constructor.
  - apply Hrebuild.
    + reflexivity.
    + exists ("__rebuild_index_status__" +:+ encodeInt32 1).
      split; vm_compute; reflexivity.
Defined.

Lemma spaceNameToId_spec_witness :
  exists s',
    @spaceNameToId exporting_codec (Some ["S"]) (demo_store exporting_codec)
      = (Some (inr (list_to_set [1])), s') /\
    kv s' = kv (demo_store exporting_codec).
Proof.
  destruct (@spaceNameToId_spec exporting_codec (demo_store exporting_codec))
    as (_ & Hnamed).
  - constructor.
  - apply Hnamed.
    + discriminate.
    + constructor; [|constructor]. split.
      * unfold INT32_MIN, INT32_MAX. lia.
      * vm_compute. reflexivity.
Defined.

Lemma DropSpace_leaves_enumeration_witness :
  exists p',
    @DropSpaceProcessor_process exporting_codec (mkDropSpaceReq "S" false) 1000
       demo_processor = Some p' /\
    resp_code p' = cpp2.SUCCEEDED /\
    forall sn spacesHosts sn1,
      kv (kv_ sn) = kv (kvstore_ p') ->
      @getSpacesHosts exporting_codec sn = (inr spacesHosts, sn1) ->
      forall h, ~ In (1, h) (pairs_of spacesHosts).
Proof.
  apply (@DropSpace_leaves_enumeration exporting_codec (mkDropSpaceReq "S" false)
           1000 demo_processor 1).
  - constructor.
  - vm_compute. reflexivity.
  - unfold INT32_MIN, INT32_MAX. lia.
  - vm_compute. reflexivity.
  - intros k [v Hk] Hp _.
    assert (Hall : forallb (fun e : string * string =>
                      implb (String.prefix (@partPrefix0 exporting_codec) (fst e))
                            (String.prefix (@partPrefix exporting_codec 1) (fst e)))
                     (map_to_list (kv (kvstore_ demo_processor))) = true)
      by (vm_compute; reflexivity).
    rewrite forallb_forall in Hall.
    apply elem_of_map_to_list, list_elem_of_In in Hk.
    specialize (Hall _ Hk). cbn [fst] in Hall. rewrite Hp in Hall. exact Hall.
Defined.

Lemma wider_index_serves_more_witness :
  @isOutsideIndex plain_names c1_and_c2_eq_one index_c1_c2_c3 = false /\
  @yield_needs_data plain_names ["c1"; "_vid"] (get_fields index_c1_c2_c3) = false.
Proof.
  apply (@wider_index_serves_more plain_names c1_and_c2_eq_one ["c1"; "_vid"]
           index_c1_c2 index_c1_c2_c3).
  - intros name Hin. simpl in *. tauto.
  - reflexivity.
  - reflexivity.
Defined.

Lemma buildPlan_filter_registry_witness :
  is_Some (filterItems_ (snd (@buildPlan demo_names demo_indexMan demo_fetch_lookup))
           !! 0) /\
  forall n item,
    In n demo_fetch_plan -> filter_of n = Some item ->
    exists fid,
      filterItems_ (snd (@buildPlan demo_names demo_indexMan demo_fetch_lookup)) !! fid
      = Some item.
Proof.
  destruct (@buildPlan_filter_registry demo_names demo_indexMan demo_fetch_lookup
              demo_fetch_plan
              (snd (@buildPlan demo_names demo_indexMan demo_fetch_lookup)))
    as (Hkeys & _ & Hnodes).
  - reflexivity.
  - vm_compute. reflexivity.
  - split; [|exact Hnodes].
    apply Hkeys. vm_compute. split; [discriminate | reflexivity].
Defined.

Lemma buildPlan_layout_witness :
  dependencies_first demo_fetch_plan /\
  length demo_fetch_plan = 9%nat.
Proof.
  destruct (@buildPlan_layout demo_names demo_indexMan demo_fetch_lookup
              demo_fetch_plan
              (snd (@buildPlan demo_names demo_indexMan demo_fetch_lookup)))
    as (Hdeps & Hlen & _).
  - vm_compute. reflexivity.
  - split; [exact Hdeps | exact Hlen].
Defined.

Lemma requestCheck_success_witness :
  exists cols,
    return_columns_ref demo_request = Some cols /\ cols <> [] /\
    contexts_ demo_checked_lookup = get_contexts (get_indices demo_request) /\
    contexts_ demo_checked_lookup <> [] /\
    yieldCols_ demo_checked_lookup = cols /\
    schemas_ demo_checked_lookup <> [] /\
    ["_vid"; "c3"; "_tag"] = [] ++ cols /\
    deDupColPos_ demo_checked_lookup =
      deDupColPos_ fresh_lookup
      ++ List.filter (fun i => @is_key_column demo_names (nth i cols ""))
                     (seq 0 (length cols)).
Proof.
  apply (@requestCheck_success demo_names (fun _ => (storage.SUCCEEDED, 8, false))
           demo_schemaMan demo_request fresh_lookup [] demo_checked_lookup
           ["_vid"; "c3"; "_tag"]).
  vm_compute. reflexivity.
Defined.

Lemma requestCheck_then_buildPlan_witness :
  exists plan q, @buildPlan demo_names demo_indexMan demo_checked_lookup = (inr plan, q).
Proof.
  destruct (@requestCheck_then_buildPlan demo_names
              (fun _ => (storage.SUCCEEDED, 8, false)) demo_schemaMan demo_indexMan
              demo_request fresh_lookup [] demo_checked_lookup ["_vid"; "c3"; "_tag"])
    as (_ & Hplan).
  - vm_compute. reflexivity.
  - apply Hplan. repeat constructor. eexists. reflexivity.
Defined.

Lemma allHostsWithStatus_partition_witness :
  exists new s',
    @allHostsWithStatus demo_hosts default_flags ROLE_STORAGE 200000000 []
       demo_host_store = (cpp2.SUCCEEDED, [] ++ new, s') /\
    In (mkHostItem (mkHostAddr "a" 9779) ROLE_STORAGE "sha" ONLINE) new /\
    In (mkHostItem (mkHostAddr "b" 9779) ROLE_STORAGE "sha" OFFLINE) new /\
    kv s' !! "__hosts__c" = None /\
    kv s' !! "__hosts__g" = kv demo_host_store !! "__hosts__g".
Proof.
  destruct (@allHostsWithStatus_partition demo_hosts default_flags ROLE_STORAGE
              200000000 [] demo_host_store) as (new & s' & Hrun & Hnew & Hkept & _).
  - discriminate.
  - constructor.
  - exists new, s'. split; [exact Hrun|]. split; [|split; [|split]].
    + apply Hnew. exists "__hosts__a", ("S" +:+ encodeInt32 199980).
      repeat split; vm_compute; reflexivity.
    + apply Hnew. exists "__hosts__b", ("S" +:+ encodeInt32 199900).
      repeat split; vm_compute; reflexivity.
    + apply (Hkept "__hosts__c" ("S" +:+ encodeInt32 27200)).
      * vm_compute. reflexivity.
      * repeat split; vm_compute; reflexivity.
    + rewrite (proj2 (Hkept "__hosts__g" ("G" +:+ encodeInt32 199990)
                        ltac:(vm_compute; reflexivity))).
      * vm_compute. reflexivity.
      * intros (_ & Hrole & _). vm_compute in Hrole. discriminate Hrole.
Defined.

Lemma host_status_thresholds_witness :
  host_status default_flags 100000 (mkHostInfo 60000 ROLE_STORAGE "sha") = Some ONLINE.
Proof.
  apply (proj1 (host_status_thresholds default_flags 100000
                  (mkHostInfo 60000 ROLE_STORAGE "sha")
                  ltac:(simpl; lia) ltac:(reflexivity)
                  ltac:(repeat split; (reflexivity || (intros; discriminate))))).
  simpl. lia.
Defined.

Lemma snapshot_enumeration_failure_witness :
  let sn := mkSnapshot (mkStore ∅ [Some LeaderChanged] true) ∅ [] in
  fst (@createSnapshot exporting_codec steady_client "cp" sn)
    = inl cpp2.E_LEADER_CHANGED /\
  @dropSnapshot exporting_codec steady_client "cp" [host1] sn
    = (cpp2.E_LEADER_CHANGED, mkSnapshot (mkStore ∅ [] true) ∅ []) /\
  sent (snd (@blockingWrites exporting_codec steady_client BLOCK_ON sn)) = [].
Proof.
  intros sn.
  destruct (@snapshot_enumeration_failure exporting_codec steady_client "cp" [host1]
              BLOCK_ON sn LeaderChanged []) as (Hc & Hd & Hb).
  - reflexivity.
  - rewrite Hc, Hb. split; [reflexivity|]. split; [exact Hd | reflexivity].
Defined.
